(** * TipSplitter: tip allocation, hours worked and the shift store

    A shallow embedding of the TypeScript sources

    - [client/src/lib/utils/calculationUtils.ts] (the tip allocator),
    - [client/src/lib/utils/timeUtils.ts] (hours worked),
    - [client/src/lib/utils/csvExport.ts] (the content of the CSV export),
    - [server/storage.ts] (the in-memory store of employees, shifts and
      lines, [MemStorage]),
    - [server/routes.ts] (the handlers of the employee, calculate-tips and
      shift routes),

    together with the properties of these functions.

    JavaScript numbers are IEEE 754 binary64 values; they are modelled by
    Rocq's primitive [float], which is the same format with the same
    round-to-nearest-even arithmetic.  Integral quantities that the program
    only ever uses as integers (record identifiers, millisecond time values
    of [Date]) are modelled by [Z].  Where a property is about how far a
    computed number is from the exact one, the doubles are read as real
    numbers and the rounding errors are bounded from the specification of
    the format. *)

From Stdlib Require Import Reals Lra.
From Stdlib Require Import ZArith List Bool String Ascii Lia.
From Stdlib Require Import Floats FloatLemmas Uint63.
From Stdlib Require Import DecimalString.
From Stdlib Require Import Sorted Permutation.
Import ListNotations.

Set Implicit Arguments.
Set Warnings "-inexact-float".

Local Open Scope Z_scope.

(* ================================================================== *)
(** * JavaScript numbers *)
(* ================================================================== *)

Module JSNumber.

Definition number := float.

Bind Scope float_scope with number.

(** The conversion of an integer to the nearest double.  It is exact for
    magnitudes up to [2^53], which covers every integer the program
    converts (millisecond differences within two days, whole hours and
    minute counts). *)
Definition of_Z (z : Z) : number :=
  match z with
  | Z0 => PrimFloat.zero
  | Zpos _ => PrimFloat.of_uint63 (Uint63.of_Z z)
  | Zneg p => PrimFloat.opp (PrimFloat.of_uint63 (Uint63.of_Z (Zpos p)))
  end.

(** [ToBoolean] on a number: [0], [-0] and [NaN] are falsy. *)
Definition truthy (x : number) : bool :=
  negb (PrimFloat.is_zero x || PrimFloat.is_nan x).

(** [x || d] on numbers. *)
Definition or_else (x d : number) : number :=
  if truthy x then x else d.

(** [x === y], [x < y], [x > y] on numbers. *)
Definition strict_eq (x y : number) : bool := PrimFloat.eqb x y.
Definition lt (x y : number) : bool := PrimFloat.ltb x y.
Definition gt (x y : number) : bool := PrimFloat.ltb y x.

(** The signed integer mantissa of a finite double [m * 2^e]. *)
Definition signed (s : bool) (m : positive) : Z :=
  if s then Zneg m else Zpos m.

(** A zero of the given sign. *)
Definition zero_of_sign (s : bool) : number :=
  if s then PrimFloat.neg_zero else PrimFloat.zero.

(** [Math.floor]: the largest integral number not above [x].  A finite
    double with a non-negative exponent is already integral; otherwise the
    floor of [m * 2^e] is an arithmetic right shift of the mantissa. *)
Definition floor (x : number) : number :=
  match Prim2SF x with
  | S754_finite s m e =>
      if 0 <=? e then x else of_Z (Z.shiftr (signed s m) (- e))
  | _ => x
  end.

(** [Math.round]: the integral number closest to [x], ties going towards
    plus infinity; the result is [-0] for [-0.5 <= x < 0].  With
    [x = m * 2^e] and [e < 0], [floor (x + 1/2)] is computed exactly as
    [(2 m + 2^(-e)) / 2^(1 - e)]. *)
Definition round (x : number) : number :=
  match Prim2SF x with
  | S754_finite s m e =>
      if 0 <=? e then x
      else
        let r := Z.shiftr (2 * signed s m + Z.shiftl 1 (- e)) (1 - e) in
        if r =? 0 then zero_of_sign s else of_Z r
  | _ => x
  end.

(** The remainder operator [x % y] on numbers: the exact value
    [x - y * trunc (x / y)], with the sign of the dividend.  Both operands
    are brought to the common exponent [e0]; the integer remainder is below
    [2^53], so the result is exact. *)
Definition rem (x y : number) : number :=
  match Prim2SF x, Prim2SF y with
  | S754_nan, _ | _, S754_nan => PrimFloat.nan
  | S754_infinity _, _ => PrimFloat.nan
  | _, S754_zero _ => PrimFloat.nan
  | S754_zero _, _ => x
  | S754_finite _ _ _, S754_infinity _ => x
  | S754_finite sx mx ex, S754_finite _ my ey =>
      let e0 := Z.min ex ey in
      let r := Z.rem (Z.shiftl (Zpos mx) (ex - e0))
                     (Z.shiftl (Zpos my) (ey - e0)) in
      match r with
      | Zpos p =>
          let f := FloatOps.Z.ldexp (PrimFloat.of_uint63 (Uint63.of_Z r)) e0 in
          if sx then PrimFloat.opp f else f
      | _ => zero_of_sign sx
      end
  end.

End JSNumber.

Import JSNumber.

(* ================================================================== *)
(** * Hours worked ([timeUtils.ts]) *)
(* ================================================================== *)

Module JSDate.

(** A [Date] is its time value: an integral number of milliseconds since
    the epoch, or [None] for an Invalid Date (time value [NaN]).  Time
    values are integers of magnitude below [2^53], on which the addition
    and subtraction of numbers are exact; they are kept in [Z] and turned
    into doubles where the program divides. *)
Definition t := option Z.

Definition digit (c : ascii) : option Z :=
  let n := Z.of_nat (nat_of_ascii c) in
  if (48 <=? n) && (n <=? 57) then Some (n - 48) else None.

(** A field of exactly two decimal digits. *)
Definition two_digits (a b : ascii) : option Z :=
  match digit a, digit b with
  | Some x, Some y => Some (10 * x + y)
  | _, _ => None
  end.

Definition three_digits (a b c : ascii) : option Z :=
  match digit a, digit b, digit c with
  | Some x, Some y, Some z => Some (100 * x + 10 * y + z)
  | _, _, _ => None
  end.

(** The time part of the ECMAScript date-time string format, without a
    UTC offset: [HH:mm], [HH:mm:ss] or [HH:mm:ss.sss], as the value of an
    [<input type="time">].  The result is in milliseconds since midnight.
    [24:00] is the end of the day.  [parse_time] is [None] on every other
    string; what [new Date] makes of those is in [of_clock]. *)
Definition time_of_fields (h m s ms : Z) : option Z :=
  if ((h <=? 23) && (m <=? 59) && (s <=? 59))
     || ((h =? 24) && (m =? 0) && (s =? 0) && (ms =? 0))
  then Some (((h * 60 + m) * 60 + s) * 1000 + ms)
  else None.

Definition is_colon (c : ascii) : bool := Ascii.eqb c ":".
Definition is_dot (c : ascii) : bool := Ascii.eqb c ".".

Definition parse_time (s : string) : option Z :=
  match list_ascii_of_string s with
  | [h1; h2; c1; m1; m2] =>
      match two_digits h1 h2, two_digits m1 m2 with
      | Some h, Some m =>
          if is_colon c1 then time_of_fields h m 0 0 else None
      | _, _ => None
      end
  | [h1; h2; c1; m1; m2; c2; s1; s2] =>
      match two_digits h1 h2, two_digits m1 m2, two_digits s1 s2 with
      | Some h, Some m, Some sec =>
          if is_colon c1 && is_colon c2 then time_of_fields h m sec 0 else None
      | _, _, _ => None
      end
  | [h1; h2; c1; m1; m2; c2; s1; s2; c3; f1; f2; f3] =>
      match two_digits h1 h2, two_digits m1 m2, two_digits s1 s2,
            three_digits f1 f2 f3 with
      | Some h, Some m, Some sec, Some ms =>
          if is_colon c1 && is_colon c2 && is_dot c3
          then time_of_fields h m sec ms else None
      | _, _, _, _ => None
      end
  | _ => None
  end.

(** The time value of [2000-01-01T00:00:00Z]. *)
Definition utcMidnight : Z := 946684800000.

(** The UTC offset of the date-time string format, [Z], [+HH:mm] or
    [-HH:mm], in milliseconds. *)
Definition offset_of_suffix (suffix : list ascii) : option Z :=
  match suffix with
  | [z] => if Ascii.eqb z "Z" then Some 0 else None
  | [sign; h1; h2; c; m1; m2] =>
      match two_digits h1 h2, two_digits m1 m2 with
      | Some h, Some m =>
          if is_colon c && (h <=? 23) && (m <=? 59) then
            if Ascii.eqb sign "+" then Some ((h * 60 + m) * 60000)
            else if Ascii.eqb sign "-" then Some (- ((h * 60 + m) * 60000))
            else None
          else None
      | _, _ => None
      end
  | _ => None
  end.

(** A time of [n] characters followed by a UTC offset: the milliseconds
    from [2000-01-01T00:00:00Z] to the moment it names. *)
Definition zoned_at (n : nat) (s : string) : option Z :=
  let cs := list_ascii_of_string s in
  match parse_time (string_of_list_ascii (firstn n cs)),
        offset_of_suffix (skipn n cs) with
  | Some ms, Some offset => Some (ms - offset)
  | _, _ => None
  end.

(** The time part of the format with a UTC offset: one of the three forms
    of the time, then the offset. *)
Definition parse_zoned (s : string) : option Z :=
  match zoned_at 5 s with
  | Some ms => Some ms
  | None =>
      match zoned_at 8 s with
      | Some ms => Some ms
      | None => zoned_at 12 s
      end
  end.

Section LocalTime.

(** The time value of [2000-01-01T00:00] in the local time zone. *)
Variable localMidnight : Z.

(** [Date.parse] on a string that is not in the date-time string format,
    for which ECMAScript lets the implementation "fall back to any
    implementation-specific heuristics": engines read, for one, a fraction
    of the seconds of one digit.  The result is a time value or [None] for
    [NaN]. *)
Variable dateParse : string -> t.

(** [new Date(`2000-01-01T${time}`)].  A date-time string without an
    offset is read as local time, whose offset is taken not to change on
    that day; one with an offset names a moment whatever the local time
    zone; any other string is left to the implementation. *)
Definition of_clock (time : string) : t :=
  match parse_time time with
  | Some ms => Some (localMidnight + ms)
  | None =>
      match parse_zoned time with
      | Some ms => Some (utcMidnight + ms)
      | None => dateParse ("2000-01-01T" ++ time)%string
      end
  end.

End LocalTime.

(** [new Date(d.getTime() + ms)].  The time values are those of the first
    days of the year 2000, far inside the range of [Date], so that the
    clipping of a time value out of range does not come into play; the
    time zone and the implementation are taken to give such values. *)
Definition plus_ms (d : t) (ms : Z) : t :=
  match d with
  | Some v => Some (v + ms)
  | None => None
  end.

(** [a < b] on dates compares the time values; a comparison with [NaN] is
    false. *)
Definition lt (a b : t) : bool :=
  match a, b with
  | Some x, Some y => x <? y
  | _, _ => false
  end.

(** [a.getTime() - b.getTime()] as a number. *)
Definition diff (a b : t) : number :=
  match a, b with
  | Some x, Some y => JSNumber.of_Z (x - y)
  | _, _ => PrimFloat.nan
  end.

End JSDate.

Module TimeUtils.

Section LocalTime.

Variable localMidnight : Z.
Variable dateParse : string -> JSDate.t.

(** The default value of the parameter [roundingMinutes]. *)
Definition defaultRoundingMinutes : number := JSNumber.of_Z 15.

(** [1000 * 60 * 60]. *)
Definition msPerHour : number := JSNumber.of_Z (1000 * 60 * 60).

(** The body of [if (roundingMinutes > 0) { ... }]. *)
Definition applyRounding (roundingMinutes hoursWorked : number) : number :=
  if JSNumber.gt roundingMinutes PrimFloat.zero then
    let fractionalHours := JSNumber.rem hoursWorked PrimFloat.one in
    let fractionalMinutes := (fractionalHours * JSNumber.of_Z 60)%float in
    let roundedMinutes :=
      (JSNumber.round (fractionalMinutes / roundingMinutes) * roundingMinutes)%float in
    (JSNumber.floor hoursWorked + roundedMinutes / JSNumber.of_Z 60)%float
  else hoursWorked.

(** The hours before rounding: the difference of the two dates, the
    clock-out moved a day later when it is before the clock-in. *)
Definition rawHours (clockIn clockOut : string) : number :=
  let inTime := JSDate.of_clock localMidnight dateParse clockIn in
  let outTime := JSDate.of_clock localMidnight dateParse clockOut in
  let outTime :=
    if JSDate.lt outTime inTime
    then JSDate.plus_ms outTime (24 * 60 * 60 * 1000)
    else outTime in
  (JSDate.diff outTime inTime / msPerHour)%float.

(** [calculateHoursWorked(clockIn, clockOut, roundingMinutes = 15)].
    An absent third argument is [None].  (The edit page passes [false],
    which [roundingMinutes > 0] compares as the number [0].) *)
Definition calculateHoursWorked
    (clockIn clockOut : string) (roundingMinutes : option number) : number :=
  let roundingMinutes :=
    match roundingMinutes with
    | Some g => g
    | None => defaultRoundingMinutes
    end in
  if (String.eqb clockIn "" || String.eqb clockOut "")%bool then PrimFloat.zero
  else applyRounding roundingMinutes (rawHours clockIn clockOut).

End LocalTime.

End TimeUtils.

(* ================================================================== *)
(** * Shared types ([shared/schema.ts]) *)
(* ================================================================== *)

Module ShiftEmployeeInput.
Record t := mk {
  employeeId : Z;
  position : string;
  pointValue : number;
  clockIn : string;
  clockOut : string;
  hoursWorked : number;
  points : number
}.
End ShiftEmployeeInput.

Module ShiftInput.
Record t := mk {
  date : string;
  type : string;
  creditCardTips : number;
  houseTips : number;
  cashTips : number;
  employees : list ShiftEmployeeInput.t
}.
End ShiftInput.

(** The lines the allocator produces (a [TipDistributionResult] without the
    name). *)
Module TipLine.
Record t := mk {
  employeeId : Z;
  position : string;
  hours : number;
  points : number;
  digitalTips : number;
  cashTips : number
}.
End TipLine.

Module TipDistributionResult.
Record t := mk {
  employeeId : Z;
  name : string;
  position : string;
  hours : number;
  points : number;
  digitalTips : number;
  cashTips : number
}.
End TipDistributionResult.

Module Employee.
Record t := mk {
  id : Z;
  employeeId : Z;
  firstName : string;
  lastName : string;
  positions : list string
}.
End Employee.

Module InsertEmployee.
Record t := mk {
  employeeId : Z;
  firstName : string;
  lastName : string;
  positions : list string
}.
End InsertEmployee.

(** [Partial<InsertEmployee>]: every field may be absent. *)
Module PartialInsertEmployee.
Record t := mk {
  employeeId : option Z;
  firstName : option string;
  lastName : option string;
  positions : option (list string)
}.
End PartialInsertEmployee.

Module InsertShift.
Record t := mk {
  date : string;
  type : string;
  creditCardTips : number;
  houseTips : number;
  cashTips : number
}.
End InsertShift.

(** [Partial<InsertShift>]: every field may be absent. *)
Module PartialInsertShift.
Record t := mk {
  date : option string;
  type : option string;
  creditCardTips : option number;
  houseTips : option number;
  cashTips : option number
}.
End PartialInsertShift.

Module Shift.
Record t := mk {
  id : Z;
  date : string;
  type : string;
  creditCardTips : number;
  houseTips : number;
  cashTips : number;
  createdAt : Z
}.
End Shift.

Module InsertShiftEmployee.
Record t := mk {
  shiftId : option Z;
  employeeId : Z;
  position : string;
  pointValue : number;
  clockIn : string;
  clockOut : string;
  hoursWorked : number;
  points : number;
  digitalTips : number;
  cashTips : number
}.
End InsertShiftEmployee.

Module ShiftEmployee.
Record t := mk {
  id : Z;
  shiftId : Z;
  employeeId : Z;
  position : string;
  pointValue : number;
  clockIn : string;
  clockOut : string;
  hoursWorked : number;
  points : number;
  digitalTips : number;
  cashTips : number
}.
End ShiftEmployee.

Module ShiftResult.
Record t := mk {
  shift : Shift.t;
  results : list TipDistributionResult.t
}.
End ShiftResult.

(* ================================================================== *)
(** * The tip allocator ([calculationUtils.ts]) *)
(* ================================================================== *)

Module CalculationUtils.

Record validation := mkValidation {
  digital : bool;
  cash : bool
}.

Record allocation := mkAllocation {
  results : list TipLine.t;
  validationOf : validation
}.

(** [employees.reduce((sum, employee) => sum + (employee.points || 0), 0)] *)
Definition calculateTotalPoints (employees : list ShiftEmployeeInput.t) : number :=
  fold_left
    (fun sum employee =>
       (sum + JSNumber.or_else (ShiftEmployeeInput.points employee) PrimFloat.zero)%float)
    employees PrimFloat.zero.

(** The callback of [employees.map] in [calculateEmployeeTips]. *)
Definition tipLine (digitalTipsTotal cashTipsTotal totalPoints : number)
    (employee : ShiftEmployeeInput.t) : TipLine.t :=
  let pointShare := (ShiftEmployeeInput.points employee / totalPoints)%float in
  let digitalTips := (digitalTipsTotal * pointShare)%float in
  let cashTips := (cashTipsTotal * pointShare)%float in
  TipLine.mk
    (ShiftEmployeeInput.employeeId employee)
    (ShiftEmployeeInput.position employee)
    (ShiftEmployeeInput.hoursWorked employee)
    (ShiftEmployeeInput.points employee)
    digitalTips
    cashTips.

(** [results.reduce((sum, r) => sum + r.digitalTips, 0)] and the same for
    the cash tips. *)
Definition distributed (field : TipLine.t -> number) (results : list TipLine.t) : number :=
  fold_left (fun sum r => (sum + field r)%float) results PrimFloat.zero.

(** The tolerance of the validation, the double nearest to [0.02]. *)
Definition tolerance : number := 0x1.47ae147ae147bp-6%float.

(** [Math.abs(total - distributed) < 0.02] *)
Definition withinTolerance (total distributedTotal : number) : bool :=
  JSNumber.lt (PrimFloat.abs (total - distributedTotal)%float) tolerance.

Definition calculateEmployeeTips (employees : list ShiftEmployeeInput.t)
    (digitalTipsTotal cashTipsTotal : number) : allocation :=
  let totalPoints := calculateTotalPoints employees in
  if JSNumber.strict_eq totalPoints PrimFloat.zero then
    mkAllocation [] (mkValidation true true)
  else
    let results := map (tipLine digitalTipsTotal cashTipsTotal totalPoints) employees in
    let distributedDigital := distributed TipLine.digitalTips results in
    let distributedCash := distributed TipLine.cashTips results in
    mkAllocation results
      (mkValidation
         (withinTolerance digitalTipsTotal distributedDigital)
         (withinTolerance cashTipsTotal distributedCash)).

End CalculationUtils.

(* ================================================================== *)
(** * JavaScript [Map] with integer keys *)
(* ================================================================== *)

(** A [Map<number, V>] keeps its entries in insertion order: [set] on a
    present key replaces the value in place, [set] on a new key appends,
    [delete] removes the entry.  The keys of the store are record
    identifiers, modelled by [Z]. *)
Module JSMap.

Section Values.

Variable V : Type.

Definition t := list (Z * V).

Definition empty : t := [].

Fixpoint get (k : Z) (m : t) : option V :=
  match m with
  | [] => None
  | (k', v) :: m' => if k' =? k then Some v else get k m'
  end.

Definition has (k : Z) (m : t) : bool :=
  match get k m with
  | Some _ => true
  | None => false
  end.

Fixpoint set (k : Z) (v : V) (m : t) : t :=
  match m with
  | [] => [(k, v)]
  | (k', v') :: m' =>
      if k' =? k then (k, v) :: m' else (k', v') :: set k v m'
  end.

Definition delete (k : Z) (m : t) : t :=
  filter (fun e => negb (fst e =? k)) m.

Definition entries (m : t) : list (Z * V) := m.

Definition values (m : t) : list V := map snd m.

Definition keys (m : t) : list Z := map fst m.

End Values.

End JSMap.

(* ================================================================== *)
(** * JavaScript arrays: [sort] *)
(* ================================================================== *)

(** [Array.prototype.sort] with a comparator is a stable sort: the result is
    ordered by the comparator and elements the comparator holds equal keep
    their order.  For a comparator that is a difference of integer keys this
    fixes the result, whatever the algorithm; it is computed here by
    insertion from the right, each element going before the elements of the
    sorted rest it does not come after. *)
Module JSArray.

Section Elements.

Variable A : Type.

(** The comparator: negative when the first argument goes first, positive
    when it goes last. *)
Variable compareFn : A -> A -> Z.

Fixpoint insert (x : A) (sorted : list A) : list A :=
  match sorted with
  | [] => [x]
  | y :: rest =>
      if compareFn x y <=? 0 then x :: y :: rest else y :: insert x rest
  end.

Fixpoint sort (l : list A) : list A :=
  match l with
  | [] => []
  | x :: rest => insert x (sort rest)
  end.

End Elements.

End JSArray.

(* ================================================================== *)
(** * The in-memory store ([storage.ts]) *)
(* ================================================================== *)

(** What a method of the store does: it returns, or it throws an [Error]
    with a message. *)
Inductive outcome (A : Type) : Type :=
| Returned (a : A)
| Thrown (message : string).

Arguments Returned {A} a.
Arguments Thrown {A} message.

Module MemStorage.

(** The counters of [currentIds] that the shift operations use. *)
Record currentIds := mkIds {
  employee : Z;
  shift : Z;
  shiftEmployee : Z
}.

(** The fields of [MemStorage] that the employee and shift operations
    read or write.  The restaurant configuration, the shift types and the
    positions are separate maps that none of these operations touches. *)
Record t := mk {
  employees : JSMap.t Employee.t;
  shifts : JSMap.t Shift.t;
  shiftEmployees : JSMap.t ShiftEmployee.t;
  ids : currentIds
}.

(** The maps and counters as the constructor creates them, before the
    default data. *)
Definition empty : t :=
  mk (JSMap.empty _) (JSMap.empty _) (JSMap.empty _) (mkIds 1 1 1).

(** [Array.from(this.employees.values()).find(e => e.employeeId === employeeId)] *)
Definition getEmployeeByEmployeeId (st : t) (employeeId : Z) : option Employee.t :=
  find (fun employee => Employee.employeeId employee =? employeeId)
       (JSMap.values (employees st)).

Definition getEmployees (st : t) : list Employee.t :=
  JSMap.values (employees st).

(** [addEmployee]: [{ ...employee, id }] under the next identifier. *)
Definition addEmployee (st : t) (employeeId : Z) (firstName lastName : string)
    (positions : list string) : t * Employee.t :=
  let id := employee (ids st) in
  let newEmployee := Employee.mk id employeeId firstName lastName positions in
  (mk (JSMap.set id newEmployee (employees st)) (shifts st) (shiftEmployees st)
      (mkIds (id + 1) (shift (ids st)) (shiftEmployee (ids st))),
   newEmployee).

(** A field of [{ ...existing, ...supplied }]. *)
Definition spread {A : Type} (existing : A) (supplied : option A) : A :=
  match supplied with
  | Some a => a
  | None => existing
  end.

(** [updateEmployee]: [{ ...existingEmployee, ...employee }] under the same
    key. *)
Definition updateEmployee (st : t) (id : Z) (employee : PartialInsertEmployee.t)
    : outcome (t * Employee.t) :=
  match JSMap.get id (employees st) with
  | None =>
      Thrown ("Employee with id " ++ NilZero.string_of_int (Z.to_int id) ++ " not found")
  | Some existingEmployee =>
      let updatedEmployee :=
        Employee.mk
          (Employee.id existingEmployee)
          (spread (Employee.employeeId existingEmployee)
                  (PartialInsertEmployee.employeeId employee))
          (spread (Employee.firstName existingEmployee)
                  (PartialInsertEmployee.firstName employee))
          (spread (Employee.lastName existingEmployee)
                  (PartialInsertEmployee.lastName employee))
          (spread (Employee.positions existingEmployee)
                  (PartialInsertEmployee.positions employee)) in
      Returned
        (mk (JSMap.set id updatedEmployee (employees st)) (shifts st)
            (shiftEmployees st) (ids st),
         updatedEmployee)
  end.

Definition deleteEmployee (st : t) (id : Z) : t :=
  mk (JSMap.delete id (employees st)) (shifts st) (shiftEmployees st) (ids st).

Definition getShift (st : t) (id : Z) : option Shift.t :=
  JSMap.get id (shifts st).

(** [Array.from(this.shiftEmployees.values()).filter(se => se.shiftId === shiftId)] *)
Definition getShiftEmployees (st : t) (shiftId : Z) : list ShiftEmployee.t :=
  filter (fun se => ShiftEmployee.shiftId se =? shiftId)
         (JSMap.values (shiftEmployees st)).

(** [{ ...employeeData, id: seId, shiftId: id }] *)
Definition toShiftEmployee (seId id : Z) (employeeData : InsertShiftEmployee.t)
    : ShiftEmployee.t :=
  ShiftEmployee.mk seId id
    (InsertShiftEmployee.employeeId employeeData)
    (InsertShiftEmployee.position employeeData)
    (InsertShiftEmployee.pointValue employeeData)
    (InsertShiftEmployee.clockIn employeeData)
    (InsertShiftEmployee.clockOut employeeData)
    (InsertShiftEmployee.hoursWorked employeeData)
    (InsertShiftEmployee.points employeeData)
    (InsertShiftEmployee.digitalTips employeeData)
    (InsertShiftEmployee.cashTips employeeData).

(** The result line pushed for a stored line whose employee exists. *)
Definition toResult (employee : Employee.t) (employeeData : InsertShiftEmployee.t)
    : TipDistributionResult.t :=
  TipDistributionResult.mk
    (Employee.employeeId employee)
    (Employee.firstName employee ++ " " ++ Employee.lastName employee)%string
    (InsertShiftEmployee.position employeeData)
    (InsertShiftEmployee.hoursWorked employeeData)
    (InsertShiftEmployee.points employeeData)
    (InsertShiftEmployee.digitalTips employeeData)
    (InsertShiftEmployee.cashTips employeeData).

(** One turn of the loop [for (const employeeData of shiftEmployeesData)]
    of [addShift] and [updateShift]: the state is the store and the
    results pushed so far. *)
Definition saveShiftEmployee (id : Z)
    (acc : t * list TipDistributionResult.t) (employeeData : InsertShiftEmployee.t)
    : t * list TipDistributionResult.t :=
  let (st, results) := acc in
  let seId := shiftEmployee (ids st) in
  let shiftEmployee := toShiftEmployee seId id employeeData in
  let st' :=
    mk (employees st) (shifts st)
       (JSMap.set seId shiftEmployee (shiftEmployees st))
       (mkIds (employee (ids st)) (shift (ids st)) (seId + 1)) in
  match getEmployeeByEmployeeId st' (InsertShiftEmployee.employeeId employeeData) with
  | Some employee => (st', results ++ [toResult employee employeeData])
  | None => (st', results)
  end.

Definition saveShiftEmployees (id : Z) (st : t)
    (shiftEmployeesData : list InsertShiftEmployee.t)
    : t * list TipDistributionResult.t :=
  fold_left (saveShiftEmployee id) shiftEmployeesData (st, []).

(** [addShift]; [timestamp] is the value of [new Date()] at the call. *)
Definition addShift (timestamp : Z) (st : t) (shiftData : InsertShift.t)
    (shiftEmployeesData : list InsertShiftEmployee.t) : t * ShiftResult.t :=
  let id := shift (ids st) in
  let newShift :=
    Shift.mk id
      (InsertShift.date shiftData) (InsertShift.type shiftData)
      (InsertShift.creditCardTips shiftData) (InsertShift.houseTips shiftData)
      (InsertShift.cashTips shiftData)
      timestamp in
  let st1 :=
    mk (employees st) (JSMap.set id newShift (shifts st)) (shiftEmployees st)
       (mkIds (employee (ids st)) (id + 1) (shiftEmployee (ids st))) in
  let (st2, results) := saveShiftEmployees id st1 shiftEmployeesData in
  (st2, ShiftResult.mk newShift results).

Definition mergeShift (existingShift : Shift.t) (shiftData : PartialInsertShift.t)
    : Shift.t :=
  Shift.mk
    (Shift.id existingShift)
    (spread (Shift.date existingShift) (PartialInsertShift.date shiftData))
    (spread (Shift.type existingShift) (PartialInsertShift.type shiftData))
    (spread (Shift.creditCardTips existingShift) (PartialInsertShift.creditCardTips shiftData))
    (spread (Shift.houseTips existingShift) (PartialInsertShift.houseTips shiftData))
    (spread (Shift.cashTips existingShift) (PartialInsertShift.cashTips shiftData))
    (Shift.createdAt existingShift).

(** [for (const employee of existingEmployees) this.shiftEmployees.delete(employee.id)] *)
Definition deleteShiftEmployees (existingEmployees : list ShiftEmployee.t)
    (m : JSMap.t ShiftEmployee.t) : JSMap.t ShiftEmployee.t :=
  fold_left (fun m employee => JSMap.delete (ShiftEmployee.id employee) m)
            existingEmployees m.

Definition updateShift (st : t) (id : Z) (shiftData : PartialInsertShift.t)
    (shiftEmployeesData : list InsertShiftEmployee.t)
    : outcome (t * ShiftResult.t) :=
  match JSMap.get id (shifts st) with
  | None =>
      Thrown ("Shift with id " ++ NilZero.string_of_int (Z.to_int id) ++ " not found")
  | Some existingShift =>
      let updatedShift := mergeShift existingShift shiftData in
      let st1 :=
        mk (employees st) (JSMap.set id updatedShift (shifts st))
           (shiftEmployees st) (ids st) in
      let existingEmployees := getShiftEmployees st1 id in
      let st2 :=
        mk (employees st1) (shifts st1)
           (deleteShiftEmployees existingEmployees (shiftEmployees st1)) (ids st1) in
      let (st3, results) := saveShiftEmployees id st2 shiftEmployeesData in
      Returned (st3, ShiftResult.mk updatedShift results)
  end.

(** [for (const [seId, se] of this.shiftEmployees.entries())
      if (se.shiftId === id) this.shiftEmployees.delete(seId)].
    The loop only ever deletes the entry it is visiting, which leaves the
    entries still to visit as they were. *)
Definition deleteShift (st : t) (id : Z) : t :=
  let shifts' := JSMap.delete id (shifts st) in
  let shiftEmployees' :=
    fold_left
      (fun m entry =>
         let '(seId, se) := entry in
         if ShiftEmployee.shiftId se =? id then JSMap.delete seId m else m)
      (JSMap.entries (shiftEmployees st)) (shiftEmployees st) in
  mk (employees st) shifts' shiftEmployees' (ids st).

Definition getEmployee (st : t) (id : Z) : option Employee.t :=
  JSMap.get id (employees st).

(** [Array.from(this.shifts.values()).sort((a, b) =>
      new Date(b.createdAt).getTime() - new Date(a.createdAt).getTime())] *)
Definition getShifts (st : t) : list Shift.t :=
  JSArray.sort (fun a b => Shift.createdAt b - Shift.createdAt a)
               (JSMap.values (shifts st)).

(** [{ ...shift, employeeCount: employees.length }] *)
Record shiftWithEmployeeCount := mkShiftWithEmployeeCount {
  countedShift : Shift.t;
  employeeCount : Z
}.

Definition getShiftWithEmployeeCount (st : t) : list shiftWithEmployeeCount :=
  fold_left
    (fun results shift =>
       let employees := getShiftEmployees st (Shift.id shift) in
       results ++ [mkShiftWithEmployeeCount shift (Z.of_nat (List.length employees))])
    (getShifts st) [].

(** The result line of [getShiftResults] for a stored line whose employee
    exists. *)
Definition storedResult (employee : Employee.t) (se : ShiftEmployee.t)
    : TipDistributionResult.t :=
  TipDistributionResult.mk
    (Employee.employeeId employee)
    (Employee.firstName employee ++ " " ++ Employee.lastName employee)%string
    (ShiftEmployee.position se)
    (ShiftEmployee.hoursWorked se)
    (ShiftEmployee.points se)
    (ShiftEmployee.digitalTips se)
    (ShiftEmployee.cashTips se).

Definition getShiftResults (st : t) (shiftId : Z) : list TipDistributionResult.t :=
  fold_left
    (fun results se =>
       match getEmployeeByEmployeeId st (ShiftEmployee.employeeId se) with
       | Some employee => results ++ [storedResult employee se]
       | None => results
       end)
    (getShiftEmployees st shiftId) [].

End MemStorage.

(* ================================================================== *)
(** * The route handlers ([routes.ts]) *)
(* ================================================================== *)

Module Routes.

Inductive body :=
| Message (message : string)
| TipResults (results : list TipDistributionResult.t)
| SavedShift (result : ShiftResult.t).

Record response := mkResponse {
  status : Z;
  payload : body
}.

(** [parseFloat] applied to a number, as the handlers apply it to the
    numeric fields of a JSON body: the number is printed and read back,
    which gives the same number, and [0] for [-0]. *)
Definition parseFloat (x : number) : number :=
  if PrimFloat.is_zero x then PrimFloat.zero else x.

(** [`Employee #${employeeId}`] *)
Definition employeeNumber (employeeId : Z) : string :=
  ("Employee #" ++ NilZero.string_of_int (Z.to_int employeeId))%string.

(** [POST /api/calculate-tips] *)
Definition calculateTips (st : MemStorage.t) (shiftData : ShiftInput.t) : response :=
  let totalPoints :=
    fold_left (fun sum emp => (sum + ShiftEmployeeInput.points emp)%float)
              (ShiftInput.employees shiftData) PrimFloat.zero in
  if JSNumber.strict_eq totalPoints PrimFloat.zero then
    mkResponse 400 (Message "Total points cannot be zero")
  else
    let digitalTips :=
      (ShiftInput.creditCardTips shiftData + ShiftInput.houseTips shiftData)%float in
    let cashTips := ShiftInput.cashTips shiftData in
    let results :=
      map (fun emp =>
             let pointShare := (ShiftEmployeeInput.points emp / totalPoints)%float in
             let digitalTipShare := (digitalTips * pointShare)%float in
             let cashTipShare := (cashTips * pointShare)%float in
             TipLine.mk
               (ShiftEmployeeInput.employeeId emp)
               (ShiftEmployeeInput.position emp)
               (ShiftEmployeeInput.hoursWorked emp)
               (ShiftEmployeeInput.points emp)
               digitalTipShare
               cashTipShare)
          (ShiftInput.employees shiftData) in
    let employees := MemStorage.getEmployees st in
    let resultsWithNames :=
      map (fun result =>
             let employee :=
               find (fun e => Employee.employeeId e =? TipLine.employeeId result)
                    employees in
             let name :=
               match employee with
               | Some e => (Employee.firstName e ++ " " ++ Employee.lastName e)%string
               | None => employeeNumber (TipLine.employeeId result)
               end in
             TipDistributionResult.mk
               (TipLine.employeeId result) name
               (TipLine.position result) (TipLine.hours result)
               (TipLine.points result)
               (TipLine.digitalTips result) (TipLine.cashTips result))
          results in
    mkResponse 200 (TipResults resultsWithNames).

(** The body of [PUT /api/shifts/:id]. *)
Record updateRequest := mkUpdateRequest {
  shift : InsertShift.t;
  employees : list ShiftEmployeeInput.t
}.

(** The callback of [employees.map] in the update handler. *)
Definition updateLine (employee : ShiftEmployeeInput.t) : InsertShiftEmployee.t :=
  InsertShiftEmployee.mk None
    (ShiftEmployeeInput.employeeId employee)
    (ShiftEmployeeInput.position employee)
    (parseFloat (ShiftEmployeeInput.pointValue employee))
    (ShiftEmployeeInput.clockIn employee)
    (ShiftEmployeeInput.clockOut employee)
    (parseFloat (ShiftEmployeeInput.hoursWorked employee))
    (parseFloat (ShiftEmployeeInput.points employee))
    PrimFloat.zero
    PrimFloat.zero.

(** [PUT /api/shifts/:id]; [id] is the parsed path parameter. *)
Definition putShift (st : MemStorage.t) (id : Z) (req : updateRequest)
    : MemStorage.t * response :=
  match MemStorage.getShift st id with
  | None => (st, mkResponse 404 (Message "Shift not found"))
  | Some _ =>
      let shiftData :=
        PartialInsertShift.mk
          (Some (InsertShift.date (shift req)))
          (Some (InsertShift.type (shift req)))
          (Some (parseFloat (InsertShift.creditCardTips (shift req))))
          (Some (parseFloat (InsertShift.houseTips (shift req))))
          (Some (parseFloat (InsertShift.cashTips (shift req)))) in
      let shiftEmployeesData := map updateLine (employees req) in
      match MemStorage.updateShift st id shiftData shiftEmployeesData with
      | Returned (st', updatedShift) => (st', mkResponse 200 (SavedShift updatedShift))
      | Thrown _ => (st, mkResponse 500 (Message "Failed to update shift"))
      end
  end.

(** The body of [POST /api/shifts]: the shift with its input lines, and
    the result lines the client holds. *)
Record saveRequest := mkSaveRequest {
  savedShift : ShiftInput.t;
  savedResults : list TipDistributionResult.t
}.

(** [shift.employees.find(e => e.employeeId === result.employeeId)?.clockIn || "00:00"] *)
Definition clockOr (field : ShiftEmployeeInput.t -> string)
    (lines : list ShiftEmployeeInput.t) (employeeId : Z) : string :=
  match find (fun e => ShiftEmployeeInput.employeeId e =? employeeId) lines with
  | Some e => if String.eqb (field e) "" then "00:00"%string else field e
  | None => "00:00"%string
  end.

(** The callback of [results.map] in the save handler. *)
Definition saveLine (lines : list ShiftEmployeeInput.t)
    (result : TipDistributionResult.t) : InsertShiftEmployee.t :=
  InsertShiftEmployee.mk None
    (TipDistributionResult.employeeId result)
    (TipDistributionResult.position result)
    (TipDistributionResult.points result / TipDistributionResult.hours result)%float
    (clockOr ShiftEmployeeInput.clockIn lines (TipDistributionResult.employeeId result))
    (clockOr ShiftEmployeeInput.clockOut lines (TipDistributionResult.employeeId result))
    (TipDistributionResult.hours result)
    (TipDistributionResult.points result)
    (TipDistributionResult.digitalTips result)
    (TipDistributionResult.cashTips result).

(** [POST /api/shifts]; [timestamp] is the clock at the call. *)
Definition postShift (timestamp : Z) (st : MemStorage.t) (req : saveRequest)
    : MemStorage.t * response :=
  let shiftData :=
    InsertShift.mk
      (ShiftInput.date (savedShift req))
      (ShiftInput.type (savedShift req))
      (parseFloat (ShiftInput.creditCardTips (savedShift req)))
      (parseFloat (ShiftInput.houseTips (savedShift req)))
      (parseFloat (ShiftInput.cashTips (savedShift req))) in
  let shiftEmployeesData :=
    map (saveLine (ShiftInput.employees (savedShift req))) (savedResults req) in
  let (st', saved) := MemStorage.addShift timestamp st shiftData shiftEmployeesData in
  (st', mkResponse 201 (SavedShift saved)).

End Routes.

(* ================================================================== *)
(** * The employee and shift routes ([routes.ts]) *)
(* ================================================================== *)

(** The handlers for the employees and for reading and deleting shifts.  A
    request body is taken as the value [insertEmployeeSchema.parse] returns
    for it; a body the schema refuses is answered 400 before the store is
    read, and is not modelled.  [id] is the parsed path parameter. *)
Module Api.

Inductive reply (A : Type) : Type :=
| Json (status : Z) (value : A)
| NoContent (status : Z)
| Failure (status : Z) (message : string).

Arguments Json {A} status value.
Arguments NoContent {A} status.
Arguments Failure {A} status message.

(** The status of a reply. *)
Definition statusOf {A : Type} (r : reply A) : Z :=
  match r with
  | Json status _ => status
  | NoContent status => status
  | Failure status _ => status
  end.

(** [GET /api/employees/:id] *)
Definition getEmployee (st : MemStorage.t) (id : Z) : reply Employee.t :=
  match MemStorage.getEmployee st id with
  | None => Failure 404 "Employee not found"
  | Some employee => Json 200 employee
  end.

(** [POST /api/employees] *)
Definition postEmployee (st : MemStorage.t) (employeeData : InsertEmployee.t)
    : MemStorage.t * reply Employee.t :=
  match MemStorage.getEmployeeByEmployeeId st (InsertEmployee.employeeId employeeData) with
  | Some _ => (st, Failure 400 "Employee ID already exists")
  | None =>
      let (st', employee) :=
        MemStorage.addEmployee st
          (InsertEmployee.employeeId employeeData)
          (InsertEmployee.firstName employeeData)
          (InsertEmployee.lastName employeeData)
          (InsertEmployee.positions employeeData) in
      (st', Json 201 employee)
  end.

(** The validated body of an update as the [Partial<InsertEmployee>] the
    store takes: the schema requires every field. *)
Definition allFields (employeeData : InsertEmployee.t) : PartialInsertEmployee.t :=
  PartialInsertEmployee.mk
    (Some (InsertEmployee.employeeId employeeData))
    (Some (InsertEmployee.firstName employeeData))
    (Some (InsertEmployee.lastName employeeData))
    (Some (InsertEmployee.positions employeeData)).

(** [PUT /api/employees/:id] *)
Definition putEmployee (st : MemStorage.t) (id : Z) (employeeData : InsertEmployee.t)
    : MemStorage.t * reply Employee.t :=
  match MemStorage.getEmployee st id with
  | None => (st, Failure 404 "Employee not found")
  | Some existingEmployee =>
      let duplicate :=
        if InsertEmployee.employeeId employeeData =? Employee.employeeId existingEmployee
        then None
        else MemStorage.getEmployeeByEmployeeId st (InsertEmployee.employeeId employeeData) in
      match duplicate with
      | Some _ => (st, Failure 400 "Employee ID already exists")
      | None =>
          match MemStorage.updateEmployee st id (allFields employeeData) with
          | Returned (st', updatedEmployee) => (st', Json 200 updatedEmployee)
          | Thrown _ => (st, Failure 500 "Failed to update employee")
          end
      end
  end.

(** [DELETE /api/employees/:id] *)
Definition deleteEmployee (st : MemStorage.t) (id : Z) : MemStorage.t * reply unit :=
  match MemStorage.getEmployee st id with
  | None => (st, Failure 404 "Employee not found")
  | Some _ => (MemStorage.deleteEmployee st id, NoContent 204)
  end.

(** [GET /api/shifts] *)
Definition getShifts (st : MemStorage.t) : reply (list MemStorage.shiftWithEmployeeCount) :=
  Json 200 (MemStorage.getShiftWithEmployeeCount st).

(** A result line with the clock times and the point value of its stored
    line, as [GET /api/shifts/:id] returns it for editing. *)
Record enhancedResult := mkEnhancedResult {
  result : TipDistributionResult.t;
  clockIn : string;
  clockOut : string;
  pointValue : number
}.

(** [s || "00:00"] on a string. *)
Definition orMidnight (s : string) : string :=
  if String.eqb s "" then "00:00"%string else s.

(** The callback of [results.map] in [GET /api/shifts/:id]. *)
Definition enhance (shiftEmployees : list ShiftEmployee.t)
    (r : TipDistributionResult.t) : enhancedResult :=
  match find (fun se => ShiftEmployee.employeeId se =? TipDistributionResult.employeeId r)
             shiftEmployees with
  | Some shiftEmployee =>
      mkEnhancedResult r
        (orMidnight (ShiftEmployee.clockIn shiftEmployee))
        (orMidnight (ShiftEmployee.clockOut shiftEmployee))
        (JSNumber.or_else (ShiftEmployee.pointValue shiftEmployee) PrimFloat.one)
  | None => mkEnhancedResult r "00:00" "00:00" PrimFloat.one
  end.

(** [GET /api/shifts/:id] *)
Definition getShift (st : MemStorage.t) (id : Z)
    : reply (Shift.t * list enhancedResult) :=
  match MemStorage.getShift st id with
  | None => Failure 404 "Shift not found"
  | Some shift =>
      let results := MemStorage.getShiftResults st id in
      let shiftEmployees := MemStorage.getShiftEmployees st id in
      Json 200 (shift, map (enhance shiftEmployees) results)
  end.

(** [DELETE /api/shifts/:id] *)
Definition deleteShift (st : MemStorage.t) (id : Z) : MemStorage.t * reply unit :=
  match MemStorage.getShift st id with
  | None => (st, Failure 404 "Shift not found")
  | Some _ => (MemStorage.deleteShift st id, NoContent 204)
  end.

End Api.

(* ================================================================== *)
(** * Sample data *)
(* ================================================================== *)

Module Sample.

Definition line (employeeId : Z) (clockIn clockOut : string)
    (hoursWorked points digitalTips cashTips : number) : InsertShiftEmployee.t :=
  InsertShiftEmployee.mk None employeeId "Server" PrimFloat.one clockIn clockOut
    hoursWorked points digitalTips cashTips.

Definition input (employeeId : Z) (points : number) : ShiftEmployeeInput.t :=
  ShiftEmployeeInput.mk employeeId "Server" PrimFloat.one "09:00" "17:00" points points.

Definition dinner : InsertShift.t :=
  InsertShift.mk "2024-05-01" "Dinner" 80 20 20.

(** The store with two employees and no shift. *)
Definition staffed : MemStorage.t :=
  fst (MemStorage.addEmployee
         (fst (MemStorage.addEmployee MemStorage.empty 3 "Johnny" "M" ["Bartender"%string]))
         15 "Harold" "Z" ["Server"%string]).

(** The store after a dinner shift with two lines is saved at time
    [1700000000000]. *)
Definition saved : MemStorage.t :=
  fst (MemStorage.addShift 1700000000000 staffed dinner
         [line 3 "17:00" "23:00" 6 6 75 15; line 15 "17:00" "19:00" 2 2 25 5]).

(** An update that changes the date and the cash pool only. *)
Definition newDate : PartialInsertShift.t :=
  PartialInsertShift.mk (Some "2024-05-02"%string) None None None (Some 40%float).

(** The time value of [2000-01-01T00:00] in UTC. *)
Definition utcMidnight : Z := 946684800000.

(** The time value of [2000-01-01T00:00] in New York, five hours behind
    UTC. *)
Definition newYorkMidnight : Z := 946702800000.

(** An implementation that takes every string outside the date-time string
    format as an Invalid Date. *)
Definition strict : string -> JSDate.t := fun _ => None.

End Sample.

(* ================================================================== *)
(** * Specification vocabulary *)
(* ================================================================== *)

Module StoreSpec.

Import MemStorage.

(** The entry the store keeps for a line. *)
Definition entryOf (se : ShiftEmployee.t) : Z * ShiftEmployee.t :=
  (ShiftEmployee.id se, se).

(** The lines stored for [shiftEmployeesData] under shift [id] when the
    line counter stands at [seId]: consecutive identifiers, in the order
    of the input. *)
Fixpoint numbered (seId id : Z) (shiftEmployeesData : list InsertShiftEmployee.t)
    : list ShiftEmployee.t :=
  match shiftEmployeesData with
  | [] => []
  | employeeData :: rest =>
      toShiftEmployee seId id employeeData :: numbered (seId + 1) id rest
  end.

(** What a line says, as submitted and as stored: the employee number, the
    position, the point value, the clock times, the hours, the points and
    the two tip amounts. *)
Definition submittedFields (line : InsertShiftEmployee.t) :=
  (InsertShiftEmployee.employeeId line, InsertShiftEmployee.position line,
   InsertShiftEmployee.pointValue line,
   InsertShiftEmployee.clockIn line, InsertShiftEmployee.clockOut line,
   InsertShiftEmployee.hoursWorked line, InsertShiftEmployee.points line,
   InsertShiftEmployee.digitalTips line, InsertShiftEmployee.cashTips line).

Definition storedFields (se : ShiftEmployee.t) :=
  (ShiftEmployee.employeeId se, ShiftEmployee.position se,
   ShiftEmployee.pointValue se,
   ShiftEmployee.clockIn se, ShiftEmployee.clockOut se,
   ShiftEmployee.hoursWorked se, ShiftEmployee.points se,
   ShiftEmployee.digitalTips se, ShiftEmployee.cashTips se).

(** The consecutive identifiers [first], [first + 1], ... of [n] lines. *)
Fixpoint identifiers (first : Z) (n : nat) : list Z :=
  match n with
  | O => []
  | S n => first :: identifiers (first + 1) n
  end.

(** The invariant of the line map: every line is stored under its own
    identifier, the identifiers are below the counter, and no identifier
    occurs twice. *)
Definition linesOk (counter : Z) (m : JSMap.t ShiftEmployee.t) : Prop :=
  Forall (fun e => ShiftEmployee.id (snd e) = fst e /\ fst e < counter) m
  /\ NoDup (JSMap.keys m).

(** The deletion of a list of keys, one after the other. *)
Definition deleteKeys (ks : list Z) (m : JSMap.t ShiftEmployee.t)
    : JSMap.t ShiftEmployee.t :=
  fold_left (fun m k => JSMap.delete k m) ks m.

Definition wf (st : MemStorage.t) : Prop :=
  linesOk (shiftEmployee (ids st)) (shiftEmployees st).

(** The shift identifiers in use are below the shift counter: those of the
    stored shifts and those the lines refer to. *)
Definition shiftIdsOk (st : MemStorage.t) : Prop :=
  Forall (fun e => ShiftEmployee.shiftId (snd e) < shift (ids st)) (shiftEmployees st)
  /\ Forall (fun e => fst e < shift (ids st)) (shifts st).

(** The lines of shift [id] among a list of lines. *)
Definition ofShift (id : Z) (se : ShiftEmployee.t) : bool :=
  ShiftEmployee.shiftId se =? id.

(** The states of the store: the constructor's, and what the employee and
    shift operations make of them.  The operations on the restaurant
    configuration, the shift types and the positions leave the fields of
    the model as they are. *)
Inductive reachable : MemStorage.t -> Prop :=
| reach_empty : reachable MemStorage.empty
| reach_addEmployee st employeeId firstName lastName positions :
    reachable st ->
    reachable (fst (addEmployee st employeeId firstName lastName positions))
| reach_updateEmployee st id employee st' updated :
    reachable st ->
    updateEmployee st id employee = Returned (st', updated) ->
    reachable st'
| reach_deleteEmployee st id :
    reachable st ->
    reachable (deleteEmployee st id)
| reach_addShift st timestamp shiftData lines :
    reachable st ->
    reachable (fst (addShift timestamp st shiftData lines))
| reach_updateShift st id shiftData lines st' result :
    reachable st ->
    updateShift st id shiftData lines = Returned (st', result) ->
    reachable st'
| reach_deleteShift st id :
    reachable st ->
    reachable (deleteShift st id).

End StoreSpec.

Module NumberSpec.

(** A double that is not negative: [NaN], a zero, or a number with the
    sign bit clear. *)
Definition SFnotNegative (x : spec_float) : bool :=
  match x with
  | S754_nan => true
  | S754_zero s => negb s
  | S754_infinity s => negb s
  | S754_finite s _ _ => negb s
  end.

Definition notNegative (x : number) : bool := SFnotNegative (Prim2SF x).

(** A double that is zero or above: not [NaN], and with the sign bit
    clear. *)
Definition SFzeroOrAbove (x : spec_float) : bool :=
  match x with
  | S754_nan => false
  | S754_zero s => negb s
  | S754_infinity s => negb s
  | S754_finite s _ _ => negb s
  end.

Definition zeroOrAbove (x : number) : bool := SFzeroOrAbove (Prim2SF x).

(** The length of a shift in milliseconds, from the clock times in
    milliseconds since midnight: a clock-out before the clock-in is on the
    next day. *)
Definition shiftLength (tin tout : Z) : Z :=
  if tout <? tin then tout + 24 * 60 * 60 * 1000 - tin else tout - tin.

(** The whole-minute lengths of a shift, [0] to [1440]. *)
Definition wholeMinutes : list Z := map Z.of_nat (seq 0 1441).

(** The multiple of [g] nearest to [m] in exact arithmetic, the upper one
    at a tie: [g * floor (m / g + 1/2)]. *)
Definition nearestMultiple (g m : Z) : Z := g * ((2 * m + g) / (2 * g)).

(** The hours of a shift of [k] whole minutes rounded to the granularity
    [g] in exact arithmetic: the whole hours, and the multiple of [g]
    nearest to the remaining minutes as a fraction of an hour. *)
Definition roundedHours (g k : Z) : number :=
  (JSNumber.of_Z (k / 60)
   + JSNumber.of_Z (nearestMultiple g (k mod 60)) / JSNumber.of_Z 60)%float.


(** The even whole-minute granularities below an hour other than 30. *)
Definition inexactGranularities : list Z :=
  [2; 4; 6; 8; 10; 12; 14; 16; 18; 20; 22; 24; 26; 28; 32; 34; 36; 38; 40; 42; 44;
   46; 48; 50; 52; 54; 56; 58].

(** The share of a pool a line is due, as the allocator computes it. *)
Definition share (pool points totalPoints : number) : number :=
  (pool * (points / totalPoints))%float.

End NumberSpec.

(* ================================================================== *)
(** * Facts about [JSMap] *)
(* ================================================================== *)

Module RecordSpec.

Import MemStorage.

(** The invariant of a map of records with an identifier and a counter:
    every record is stored under its own identifier, the identifiers are
    below the counter, and no identifier occurs twice. *)
Definition recordsOk {V : Type} (idOf : V -> Z) (counter : Z) (m : JSMap.t V) : Prop :=
  Forall (fun e => idOf (snd e) = fst e /\ fst e < counter) m
  /\ NoDup (JSMap.keys m).

Definition employeesOk (st : MemStorage.t) : Prop :=
  recordsOk Employee.id (employee (ids st)) (employees st).

Definition shiftsOk (st : MemStorage.t) : Prop :=
  recordsOk Shift.id (shift (ids st)) (shifts st).

(** The employee numbers in use, in the order of the employees. *)
Definition employeeIds (st : MemStorage.t) : list Z :=
  map Employee.employeeId (getEmployees st).

Definition uniqueEmployeeIds (st : MemStorage.t) : Prop :=
  NoDup (employeeIds st).

(** The employees of [initializeDefaultData]. *)
Definition defaultEmployees : list InsertEmployee.t :=
  [InsertEmployee.mk 3 "Johnny" "M" ["Bartender"%string];
   InsertEmployee.mk 15 "Harold" "Z" ["Server"%string];
   InsertEmployee.mk 30 "Andrew" "P" ["Server"%string];
   InsertEmployee.mk 21 "Drake" "S" ["Server"%string];
   InsertEmployee.mk 4 "Nick" "A" ["Server"%string];
   InsertEmployee.mk 36 "Diana" "M" ["Expo"%string];
   InsertEmployee.mk 16 "Fred" "P" ["Runner"%string];
   InsertEmployee.mk 29 "Deblyn" "N" ["Busser"%string];
   InsertEmployee.mk 5 "Louis" "C" ["Busser"%string]].

(** The store as the constructor leaves it: the default employees added to
    the empty maps. *)
Definition constructed : MemStorage.t :=
  fold_left
    (fun st e =>
       fst (addEmployee st (InsertEmployee.employeeId e) (InsertEmployee.firstName e)
              (InsertEmployee.lastName e) (InsertEmployee.positions e)))
    defaultEmployees MemStorage.empty.

(** The states of the store behind the routes: the constructed store, and
    what the employee and shift handlers make of it. *)
Inductive served : MemStorage.t -> Prop :=
| served_constructed : served constructed
| served_postEmployee st employeeData :
    served st -> served (fst (Api.postEmployee st employeeData))
| served_putEmployee st id employeeData :
    served st -> served (fst (Api.putEmployee st id employeeData))
| served_deleteEmployee st id :
    served st -> served (fst (Api.deleteEmployee st id))
| served_postShift st timestamp req :
    served st -> served (fst (Routes.postShift timestamp st req))
| served_putShift st id req :
    served st -> served (fst (Routes.putShift st id req))
| served_deleteShift st id :
    served st -> served (fst (Api.deleteShift st id)).

(** The rows [getShiftResults] and the save loop produce for a list of
    items: one for each item whose employee exists, in order. *)
Definition rowsFor {L : Type} (st : MemStorage.t) (employeeIdOf : L -> Z)
    (row : Employee.t -> L -> TipDistributionResult.t) (items : list L)
    : list TipDistributionResult.t :=
  flat_map
    (fun item =>
       match getEmployeeByEmployeeId st (employeeIdOf item) with
       | Some employee => [row employee item]
       | None => []
       end)
    items.


End RecordSpec.

Module AllocationSpec.

(** A double that is not below zero: [NaN], a zero of either sign, or a
    number with the sign bit clear. *)
Definition SFnotBelowZero (x : spec_float) : bool :=
  match x with
  | S754_nan => true
  | S754_zero _ => true
  | S754_infinity s => negb s
  | S754_finite s _ _ => negb s
  end.

(** A double above zero: a finite number or the infinity with the sign bit
    clear. *)
Definition SFaboveZero (x : spec_float) : bool :=
  match x with
  | S754_infinity s => negb s
  | S754_finite s _ _ => negb s
  | _ => false
  end.

(** A zero or a finite number. *)
Definition SFfinite (x : spec_float) : bool :=
  match x with
  | S754_zero _ => true
  | S754_finite _ _ _ => true
  | _ => false
  end.

(** [Number.isFinite(x)], as a comparison. *)
Definition isFinite (x : number) : bool :=
  PrimFloat.ltb (PrimFloat.abs x) PrimFloat.infinity.

(** Points that the total counts as they are: [points || 0] is [points]
    unless [points] is [NaN] or [-0]. *)
Definition plainPoints (employee : ShiftEmployeeInput.t) : Prop :=
  JSNumber.truthy (ShiftEmployeeInput.points employee) = true
  \/ ShiftEmployeeInput.points employee = PrimFloat.zero.

(** The sum of the points of the lines, taken from the first line on. *)
Definition pointsSum (employees : list ShiftEmployeeInput.t) : number :=
  fold_left (fun sum employee => (sum + ShiftEmployeeInput.points employee)%float)
            employees PrimFloat.zero.

(** Points between 0 and a million. *)
Definition pointsInRange (employee : ShiftEmployeeInput.t) : Prop :=
  PrimFloat.leb PrimFloat.zero (ShiftEmployeeInput.points employee) = true
  /\ PrimFloat.leb (ShiftEmployeeInput.points employee) 1e6 = true.

(** The name the calculate-tips route puts on a line. *)
Definition nameOf (st : MemStorage.t) (employeeId : Z) : string :=
  match find (fun e => Employee.employeeId e =? employeeId) (MemStorage.getEmployees st) with
  | Some e => (Employee.firstName e ++ " " ++ Employee.lastName e)%string
  | None => Routes.employeeNumber employeeId
  end.

Definition named (st : MemStorage.t) (line : TipLine.t) : TipDistributionResult.t :=
  TipDistributionResult.mk
    (TipLine.employeeId line) (nameOf st (TipLine.employeeId line))
    (TipLine.position line) (TipLine.hours line) (TipLine.points line)
    (TipLine.digitalTips line) (TipLine.cashTips line).

End AllocationSpec.

(* ================================================================== *)
(** * The real number a double stands for *)
(* ================================================================== *)

Module FloatValue.

(** [2^e] for an integer [e]. *)
Definition pow2 (e : Z) : R := powerRZ 2 e.

(** The magnitude and the value of a double [m * 2^e]; a zero has the
    value 0, and so have, by convention, the infinities and [NaN]. *)
Definition SFmag (x : spec_float) : R :=
  match x with
  | S754_finite _ m e => (IZR (Zpos m) * pow2 e)%R
  | _ => 0%R
  end.

Definition SFR (x : spec_float) : R :=
  match x with
  | S754_finite s m e =>
      if s then (- (IZR (Zpos m) * pow2 e))%R else (IZR (Zpos m) * pow2 e)%R
  | _ => 0%R
  end.

Definition value (x : number) : R := SFR (Prim2SF x).

(** A zero of either sign or a finite number above zero. *)
Definition SFnn (x : spec_float) : bool :=
  match x with
  | S754_zero _ => true
  | S754_finite s _ _ => negb s
  | _ => false
  end.

Definition nonneg (x : number) : Prop := SFnn (Prim2SF x) = true.

(** [x] is within the rounding error of the number [X >= 0]: a relative
    error of [2^-50] and an absolute error of [2^-1072], which bound the
    errors of two roundings to nearest. *)
Definition near (x X : R) : Prop :=
  (- (pow2 (-50) * X + pow2 (-1072)) <= x - X <= pow2 (-50) * X + pow2 (-1072))%R.

(** What rounding returns for a number [X]: a zero or a finite number of
    the given sign, within the rounding error. *)
Definition rounded (s : bool) (F : spec_float) (X : R) : Prop :=
  (F = S754_zero s \/ exists M E, F = S754_finite s M E)
  /\ (- (pow2 (-50) * X + pow2 (-1072)) <= SFmag F - X
      <= pow2 (-50) * X + pow2 (-1072))%R.

(** The sum of a list of reals. *)
Definition Rsum (l : list R) : R := fold_right Rplus 0%R l.

End FloatValue.

(* ================================================================== *)
(** * client/src/lib/utils/csvExport.ts *)
(* ================================================================== *)

(** The text that [exportToCSV] hands to the browser as the file's
    content.  A field is any value; [toString] stands for [String(field)].
    The code singles out three characters and treats every other one
    alike. *)
Module CsvExport.

Definition quote : ascii := "034"%char.
Definition comma : ascii := ","%char.
Definition newline : ascii := "010"%char.

Definition special (c : ascii) : bool :=
  (Ascii.eqb c quote || Ascii.eqb c comma || Ascii.eqb c newline)%bool.

(** The regular expression test of [stringField]: does it contain a
    quote, a comma or a newline. *)
Fixpoint test (stringField : string) : bool :=
  match stringField with
  | EmptyString => false
  | String c rest => (special c || test rest)%bool
  end.

(** The global [replace] of [stringField]: every quote doubled. *)
Fixpoint replace (stringField : string) : string :=
  match stringField with
  | EmptyString => EmptyString
  | String c rest =>
    if Ascii.eqb c quote then String quote (String quote (replace rest))
    else String c (replace rest)
  end.

(** [Array.prototype.join] on an array of strings. *)
Fixpoint join (separator : string) (elements : list string) : string :=
  match elements with
  | [] => EmptyString
  | s :: rest =>
    match rest with
    | [] => s
    | _ :: _ => (s ++ separator ++ join separator rest)%string
    end
  end.

Section Fields.

Variable any : Type.
Variable toString : any -> string.

Definition formatField (field : any) : string :=
  let stringField := toString field in
  if test stringField
  then String quote (replace stringField ++ String quote EmptyString)
  else stringField.

Definition formattedRow (row : list any) : list string := map formatField row.

Definition csvContent (headers : list string) (data : list (list any)) : string :=
  fold_left
    (fun csvContent row =>
       (csvContent ++ (join "," (formattedRow row) ++ String newline EmptyString))%string)
    data
    (EmptyString ++ (join "," headers ++ String newline EmptyString))%string.

End Fields.

End CsvExport.

(** Reading CSV text back: fields separated by commas, records ended by
    newlines, a field in quotes running to its closing quote with a
    doubled quote standing for one. *)
Module CsvSpec.

Import CsvExport.

Inductive state := FieldStart | Bare | Quoted | QuoteSeen.

Definition push (cur : string) (c : ascii) : string :=
  (cur ++ String c EmptyString)%string.

Fixpoint records (st : state) (row : list string) (cur : string) (text : string)
  : list (list string) :=
  match text with
  | EmptyString =>
    match st, row with
    | FieldStart, [] => []
    | _, _ => [row ++ [cur]]
    end
  | String c rest =>
    match st with
    | Quoted =>
      if Ascii.eqb c quote then records QuoteSeen row cur rest
      else records Quoted row (push cur c) rest
    | _ =>
      if Ascii.eqb c comma then records FieldStart (row ++ [cur]) EmptyString rest
      else if Ascii.eqb c newline then (row ++ [cur]) :: records FieldStart [] EmptyString rest
      else if Ascii.eqb c quote then
        match st with
        | FieldStart => records Quoted row cur rest
        | QuoteSeen => records Quoted row (push cur c) rest
        | _ => records Bare row (push cur c) rest
        end
      else records Bare row (push cur c) rest
    end
  end.

Definition parse (text : string) : list (list string) :=
  records FieldStart [] EmptyString text.

End CsvSpec.

Unset Implicit Arguments.

Module JSMapFacts.

Section Values.

Variable V : Type.
Implicit Types (m : JSMap.t V) (k : Z) (v : V).

Lemma get_set_same m k v : JSMap.get k (JSMap.set k v m) = Some v.
Proof.
  induction m as [|[k' v'] m IH]; simpl.
  - now rewrite Z.eqb_refl.
  - destruct (k' =? k) eqn:E; simpl.
    + now rewrite Z.eqb_refl.
    + now rewrite E.
Qed.

Lemma get_set_other m k k' v :
  k' <> k -> JSMap.get k' (JSMap.set k v m) = JSMap.get k' m.
Proof.
  intros Hne. induction m as [|[k0 v0] m IH]; simpl.
  - destruct (k =? k') eqn:E; [apply Z.eqb_eq in E; congruence | reflexivity].
  - destruct (k0 =? k) eqn:E; simpl.
    + apply Z.eqb_eq in E; subst k0.
      destruct (k =? k') eqn:E'; [apply Z.eqb_eq in E'; congruence | reflexivity].
    + now rewrite IH.
Qed.

Lemma get_delete_same m k : JSMap.get k (JSMap.delete k m) = None.
Proof.
  induction m as [|[k' v'] m IH]; simpl; [reflexivity|].
  destruct (k' =? k) eqn:E; simpl; [assumption|].
  now rewrite E.
Qed.

Lemma get_delete_other m k k' :
  k' <> k -> JSMap.get k' (JSMap.delete k m) = JSMap.get k' m.
Proof.
  intros Hne. induction m as [|[k0 v0] m IH]; simpl; [reflexivity|].
  destruct (k0 =? k) eqn:E; simpl.
  - apply Z.eqb_eq in E; subst k0.
    destruct (k =? k') eqn:E'; [apply Z.eqb_eq in E'; congruence | assumption].
  - now rewrite IH.
Qed.

(** [set] on a key the map does not hold appends the entry. *)
Lemma set_fresh m k v :
  ~ In k (JSMap.keys m) -> JSMap.set k v m = m ++ [(k, v)].
Proof.
  induction m as [|[k' v'] m IH]; simpl; intros Hk; [reflexivity|].
  destruct (k' =? k) eqn:E.
  - apply Z.eqb_eq in E. tauto.
  - f_equal. apply IH. tauto.
Qed.

Lemma In_delete m k e :
  In e (JSMap.delete k m) <-> In e m /\ fst e <> k.
Proof.
  unfold JSMap.delete. rewrite filter_In.
  rewrite negb_true_iff, Z.eqb_neq. tauto.
Qed.

Lemma keys_delete m k :
  JSMap.keys (JSMap.delete k m) = filter (fun k' => negb (k' =? k)) (JSMap.keys m).
Proof.
  unfold JSMap.keys, JSMap.delete.
  induction m as [|[k' v'] m IH]; simpl; [reflexivity|].
  destruct (k' =? k); simpl; now rewrite IH.
Qed.

Lemma get_In m k v : JSMap.get k m = Some v -> In (k, v) m.
Proof.
  induction m as [|[k' v'] m IH]; simpl; [discriminate|].
  destruct (k' =? k) eqn:E.
  - apply Z.eqb_eq in E. intros [= ->]. left. congruence.
  - auto.
Qed.

Lemma In_set m k v e : In e (JSMap.set k v m) -> In e m \/ e = (k, v).
Proof.
  induction m as [|[k' v'] m IH]; simpl.
  - intros [<-|[]]. auto.
  - destruct (k' =? k); simpl; intros [<-|H]; auto.
    destruct (IH H); auto.
Qed.

Lemma NoDup_filter (A : Type) (f : A -> bool) (l : list A) :
  NoDup l -> NoDup (filter f l).
Proof.
  induction 1 as [|x l Hx Hl IH]; simpl; [constructor|].
  destruct (f x); [constructor|]; auto.
  rewrite filter_In. tauto.
Qed.

Lemma NoDup_keys_delete m k :
  NoDup (JSMap.keys m) -> NoDup (JSMap.keys (JSMap.delete k m)).
Proof. rewrite keys_delete. apply NoDup_filter. Qed.

End Values.

End JSMapFacts.

(* ================================================================== *)
(** * Facts about the store *)
(* ================================================================== *)

Module MemStorageFacts.

Import MemStorage StoreSpec.

Implicit Types (st : MemStorage.t) (m : JSMap.t ShiftEmployee.t).

(** ** Deleting a list of keys *)

Lemma deleteKeys_filter ks m :
  deleteKeys ks m = filter (fun e => negb (existsb (Z.eqb (fst e)) ks)) m.
Proof.
  unfold deleteKeys. revert m.
  induction ks as [|k ks IH]; intros m; simpl.
  - induction m as [|e m IHm]; simpl; congruence.
  - rewrite IH. unfold JSMap.delete.
    induction m as [|e m IHm]; simpl; [reflexivity|].
    destruct (fst e =? k); simpl.
    + exact IHm.
    + destruct (existsb (Z.eqb (fst e)) ks); simpl; congruence.
Qed.

Lemma deleteShiftEmployees_keys l m :
  deleteShiftEmployees l m = deleteKeys (map ShiftEmployee.id l) m.
Proof.
  unfold deleteShiftEmployees, deleteKeys. revert m.
  induction l as [|se l IH]; intros m; simpl; auto.
Qed.

Lemma deleteShift_fold_keys id (l : list (Z * ShiftEmployee.t)) m :
  fold_left
    (fun m entry =>
       let '(seId, se) := entry in
       if ShiftEmployee.shiftId se =? id then JSMap.delete seId m else m) l m
  = deleteKeys (map fst (filter (fun e => ShiftEmployee.shiftId (snd e) =? id) l)) m.
Proof.
  unfold deleteKeys. revert m.
  induction l as [|[k se] l IH]; intros m; simpl; [reflexivity|].
  destruct (ShiftEmployee.shiftId se =? id); simpl; apply IH.
Qed.

(** ** When the keys are the lines' own identifiers and distinct, deleting
    the keys of the lines of a shift removes exactly those lines. *)

Lemma existsb_key_of_shift id m e :
  NoDup (JSMap.keys m) ->
  In e m ->
  existsb (Z.eqb (fst e))
          (map fst (filter (fun e => ShiftEmployee.shiftId (snd e) =? id) m))
  = (ShiftEmployee.shiftId (snd e) =? id).
Proof.
  intros Hnd Hin.
  destruct (ShiftEmployee.shiftId (snd e) =? id) eqn:E.
  - apply existsb_exists. exists (fst e). split; [|apply Z.eqb_refl].
    apply in_map, filter_In. auto.
  - apply not_true_is_false. intros H.
    apply existsb_exists in H. destruct H as (k & Hk & Hek).
    apply Z.eqb_eq in Hek. subst k.
    apply in_map_iff in Hk. destruct Hk as (e' & Hfst & He').
    apply filter_In in He'. destruct He' as [He' Hs].
    assert (e' = e); [|subst; congruence].
    clear E Hs. revert Hnd Hin He' Hfst.
    unfold JSMap.keys.
    induction m as [|x m IH]; simpl; [tauto|].
    intros Hnd Hin He' Hfst. inversion Hnd as [|? ? Hx Hm]; subst.
    destruct Hin as [->|Hin], He' as [->|He']; auto.
    + exfalso. apply Hx. rewrite <- Hfst. now apply in_map.
    + exfalso. apply Hx. rewrite Hfst. now apply in_map.
Qed.

Lemma map_id_values_lines id m :
  Forall (fun e => ShiftEmployee.id (snd e) = fst e) m ->
  map ShiftEmployee.id
      (filter (fun se => ShiftEmployee.shiftId se =? id) (JSMap.values m))
  = map fst (filter (fun e => ShiftEmployee.shiftId (snd e) =? id) m).
Proof.
  unfold JSMap.values.
  induction 1 as [|e m He Hm IH]; simpl; [reflexivity|].
  destruct (ShiftEmployee.shiftId (snd e) =? id); simpl; congruence.
Qed.

Lemma deleteKeys_of_shift id m :
  NoDup (JSMap.keys m) ->
  deleteKeys (map fst (filter (fun e => ShiftEmployee.shiftId (snd e) =? id) m)) m
  = filter (fun e => negb (ShiftEmployee.shiftId (snd e) =? id)) m.
Proof.
  intros Hnd. rewrite deleteKeys_filter.
  apply filter_ext_in. intros e He.
  now rewrite existsb_key_of_shift by assumption.
Qed.

(** Whatever the keys, no line of the shift survives the deletion of the
    keys under which the lines of the shift are stored. *)
Lemma deleteKeys_none_left id m e :
  In e (deleteKeys
          (map fst (filter (fun e => ShiftEmployee.shiftId (snd e) =? id) m)) m) ->
  ShiftEmployee.shiftId (snd e) <> id.
Proof.
  rewrite deleteKeys_filter, filter_In. intros [Hin Hex] Hs.
  apply negb_true_iff in Hex.
  assert (existsb (Z.eqb (fst e))
            (map fst (filter (fun e => ShiftEmployee.shiftId (snd e) =? id) m)) = true);
    [|congruence].
  apply existsb_exists. exists (fst e). split; [|apply Z.eqb_refl].
  apply in_map, filter_In. split; [assumption|]. now apply Z.eqb_eq.
Qed.

(** ** The invariant under deletion *)

Lemma linesOk_filter c m (f : Z * ShiftEmployee.t -> bool) :
  linesOk c m -> linesOk c (filter f m).
Proof.
  intros [Hall Hnd]. split.
  - apply Forall_forall. intros e He. apply filter_In in He.
    rewrite Forall_forall in Hall. apply Hall. tauto.
  - clear Hall. unfold JSMap.keys in *.
    induction m as [|e m IH]; simpl; [constructor|].
    inversion Hnd as [|? ? Hx Hm]; subst.
    destruct (f e); simpl; [constructor|]; auto.
    intros Hin. apply Hx. apply in_map_iff in Hin.
    destruct Hin as (e' & Hfst & He'). apply filter_In in He'.
    rewrite <- Hfst. apply in_map. tauto.
Qed.

Lemma linesOk_ids c m :
  linesOk c m -> Forall (fun e => ShiftEmployee.id (snd e) = fst e) m.
Proof.
  intros [Hall _]. eapply Forall_impl; [|exact Hall]. simpl. tauto.
Qed.

Lemma linesOk_fresh c m : linesOk c m -> ~ In c (JSMap.keys m).
Proof.
  intros [Hall _] Hin. unfold JSMap.keys in Hin.
  apply in_map_iff in Hin. destruct Hin as (e & Hfst & He).
  rewrite Forall_forall in Hall. apply Hall in He. lia.
Qed.

Lemma linesOk_append c m id employeeData :
  linesOk c m ->
  linesOk (c + 1) (m ++ [entryOf (toShiftEmployee c id employeeData)]).
Proof.
  intros Hok. pose proof (linesOk_fresh _ _ Hok) as Hfresh.
  destruct Hok as [Hall Hnd]. split.
  - apply Forall_app. split.
    + eapply Forall_impl; [|exact Hall]. simpl. intros e [? ?]. split; [assumption|lia].
    + constructor; [|constructor]. simpl. split; [reflexivity|lia].
  - unfold JSMap.keys in *. rewrite map_app. simpl.
    apply NoDup_app; [assumption| constructor; [intros []|constructor] |].
    intros k Hk [<-|[]]. exact (Hfresh Hk).
Qed.

End MemStorageFacts.

Module ShiftLifecycle.

Import MemStorage StoreSpec MemStorageFacts.

Implicit Types (st : MemStorage.t).

(** ** The loop that stores the lines *)

Lemma saveShiftEmployee_store id st results employeeData :
  let st' := fst (saveShiftEmployee id (st, results) employeeData) in
  employees st' = employees st
  /\ shifts st' = shifts st
  /\ shiftEmployees st'
     = JSMap.set (shiftEmployee (ids st))
         (toShiftEmployee (shiftEmployee (ids st)) id employeeData)
         (shiftEmployees st)
  /\ ids st' = mkIds (employee (ids st)) (shift (ids st)) (shiftEmployee (ids st) + 1).
Proof.
  unfold saveShiftEmployee.
  destruct (getEmployeeByEmployeeId _ _); simpl; auto.
Qed.

Lemma saveShiftEmployees_store id lines : forall st results,
  wf st ->
  let st' := fst (fold_left (saveShiftEmployee id) lines (st, results)) in
  employees st' = employees st
  /\ shifts st' = shifts st
  /\ shiftEmployees st'
     = shiftEmployees st ++ map entryOf (numbered (shiftEmployee (ids st)) id lines)
  /\ ids st' = mkIds (employee (ids st)) (shift (ids st))
                     (shiftEmployee (ids st) + Z.of_nat (List.length lines))
  /\ wf st'.
Proof.
  induction lines as [|employeeData lines IH]; intros st results Hwf.
  - simpl. rewrite app_nil_r, Z.add_0_r. destruct st as [e s se [a b c]]. simpl. auto.
  - cbn [fold_left].
    pose proof (saveShiftEmployee_store id st results employeeData) as Hstep.
    destruct (saveShiftEmployee id (st, results) employeeData) as [st1 results1].
    cbn [fst] in Hstep. destruct Hstep as (He & Hs & Hse & Hids).
    rewrite JSMapFacts.set_fresh in Hse.
    2:{ apply (linesOk_fresh _ _ Hwf). }
    assert (Hwf1 : wf st1).
    { unfold wf. rewrite Hse, Hids. cbn [shiftEmployee].
      apply linesOk_append. exact Hwf. }
    specialize (IH st1 results1 Hwf1). cbn zeta in IH.
    destruct IH as (He' & Hs' & Hse' & Hids' & Hwf').
    rewrite He', Hs', Hse', Hids', He, Hs, Hse, Hids. cbn [employee shift shiftEmployee].
    split; [reflexivity|]. split; [reflexivity|]. split; [|split; [|exact Hwf']].
    + cbn [numbered map]. now rewrite <- app_assoc.
    + f_equal. cbn [List.length]. lia.
Qed.

(** ** Reading the lines of a shift *)

Lemma lines_numbered id c lines :
  filter (ofShift id) (JSMap.values (map entryOf (numbered c id lines)))
  = numbered c id lines.
Proof.
  unfold JSMap.values, ofShift. revert c.
  induction lines as [|x lines IH]; intros c; simpl; [reflexivity|].
  now rewrite Z.eqb_refl, IH.
Qed.

Lemma lines_numbered_other id k c lines :
  k <> id ->
  filter (ofShift k) (JSMap.values (map entryOf (numbered c id lines))) = [].
Proof.
  intros Hne. unfold JSMap.values, ofShift. revert c.
  induction lines as [|x lines IH]; intros c; simpl; [reflexivity|].
  destruct (id =? k) eqn:E; [apply Z.eqb_eq in E; congruence | apply IH].
Qed.

Lemma lines_removed id (m : JSMap.t ShiftEmployee.t) :
  filter (ofShift id)
    (JSMap.values (filter (fun e => negb (ShiftEmployee.shiftId (snd e) =? id)) m))
  = [].
Proof.
  unfold JSMap.values, ofShift.
  induction m as [|e m IH]; simpl; [reflexivity|].
  destruct (ShiftEmployee.shiftId (snd e) =? id) eqn:E; simpl; [assumption|].
  now rewrite E.
Qed.

Lemma lines_kept id k (m : JSMap.t ShiftEmployee.t) :
  k <> id ->
  filter (ofShift k)
    (JSMap.values (filter (fun e => negb (ShiftEmployee.shiftId (snd e) =? id)) m))
  = filter (ofShift k) (JSMap.values m).
Proof.
  intros Hne. unfold JSMap.values, ofShift.
  induction m as [|e m IH]; simpl; [reflexivity|].
  destruct (ShiftEmployee.shiftId (snd e) =? id) eqn:E; simpl.
  - apply Z.eqb_eq in E. rewrite E.
    destruct (id =? k) eqn:E'; [apply Z.eqb_eq in E'; congruence | assumption].
  - now rewrite IH.
Qed.

Lemma values_app (V : Type) (m1 m2 : JSMap.t V) :
  JSMap.values (m1 ++ m2) = JSMap.values m1 ++ JSMap.values m2.
Proof. apply map_app. Qed.

(** ** [addShift] *)

Lemma addShift_store timestamp st shiftData lines :
  wf st ->
  let id := shift (ids st) in
  let newShift :=
    Shift.mk id (InsertShift.date shiftData) (InsertShift.type shiftData)
      (InsertShift.creditCardTips shiftData) (InsertShift.houseTips shiftData)
      (InsertShift.cashTips shiftData) timestamp in
  let st' := fst (addShift timestamp st shiftData lines) in
  ShiftResult.shift (snd (addShift timestamp st shiftData lines)) = newShift
  /\ employees st' = employees st
  /\ shifts st' = JSMap.set id newShift (shifts st)
  /\ shiftEmployees st'
     = shiftEmployees st ++ map entryOf (numbered (shiftEmployee (ids st)) id lines)
  /\ ids st' = mkIds (employee (ids st)) (id + 1)
                     (shiftEmployee (ids st) + Z.of_nat (List.length lines))
  /\ wf st'.
Proof.
  intros Hwf id newShift. unfold addShift. fold id. fold newShift.
  set (st1 := mk (employees st) (JSMap.set id newShift (shifts st)) (shiftEmployees st)
                 (mkIds (employee (ids st)) (id + 1) (shiftEmployee (ids st)))).
  assert (Hwf1 : wf st1) by exact Hwf.
  pose proof (saveShiftEmployees_store id lines st1 [] Hwf1) as H.
  unfold saveShiftEmployees.
  destruct (fold_left (saveShiftEmployee id) lines (st1, [])) as [st2 results].
  cbn [fst snd] in *. cbn zeta in H.
  destruct H as (He & Hs & Hse & Hids & Hwf2).
  repeat (split; [first [reflexivity | assumption]|]). exact Hwf2.
Qed.

(** ** [updateShift] *)

Lemma updateShift_store st id existingShift shiftData lines :
  wf st ->
  getShift st id = Some existingShift ->
  exists st' results,
    updateShift st id shiftData lines
    = Returned (st', ShiftResult.mk (mergeShift existingShift shiftData) results)
    /\ employees st' = employees st
    /\ shifts st' = JSMap.set id (mergeShift existingShift shiftData) (shifts st)
    /\ shiftEmployees st'
       = filter (fun e => negb (ShiftEmployee.shiftId (snd e) =? id)) (shiftEmployees st)
         ++ map entryOf (numbered (shiftEmployee (ids st)) id lines)
    /\ ids st' = mkIds (employee (ids st)) (shift (ids st))
                       (shiftEmployee (ids st) + Z.of_nat (List.length lines))
    /\ wf st'.
Proof.
  intros Hwf Hget. unfold updateShift. unfold getShift in Hget. rewrite Hget.
  cbn [employees shifts shiftEmployees ids].
  set (updatedShift := mergeShift existingShift shiftData).
  unfold getShiftEmployees. cbn [shiftEmployees].
  rewrite deleteShiftEmployees_keys, (map_id_values_lines id _ (linesOk_ids _ _ Hwf)).
  rewrite deleteKeys_of_shift by apply Hwf.
  set (st2 := mk (employees st) (JSMap.set id updatedShift (shifts st)) _ (ids st)).
  assert (Hwf2 : wf st2) by (apply linesOk_filter; exact Hwf).
  pose proof (saveShiftEmployees_store id lines st2 [] Hwf2) as H.
  unfold saveShiftEmployees.
  destruct (fold_left (saveShiftEmployee id) lines (st2, [])) as [st3 results].
  cbn [fst] in H. cbn zeta in H. destruct H as (He & Hs & Hse & Hids & Hwf3).
  exists st3, results.
  repeat (split; [first [reflexivity | assumption]|]). exact Hwf3.
Qed.

Lemma updateShift_missing st id shiftData lines :
  getShift st id = None ->
  exists message, updateShift st id shiftData lines = Thrown message.
Proof.
  unfold getShift, updateShift. intros ->. eauto.
Qed.

(** ** [deleteShift] *)

Lemma deleteShift_store st id :
  employees (deleteShift st id) = employees st
  /\ shifts (deleteShift st id) = JSMap.delete id (shifts st)
  /\ shiftEmployees (deleteShift st id)
     = deleteKeys
         (map fst (filter (fun e => ShiftEmployee.shiftId (snd e) =? id)
                          (shiftEmployees st)))
         (shiftEmployees st)
  /\ ids (deleteShift st id) = ids st.
Proof.
  unfold deleteShift. cbn [employees shifts shiftEmployees ids]. unfold JSMap.entries.
  rewrite deleteShift_fold_keys. auto.
Qed.

(** ** The invariant holds in every state of the store *)

Lemma wf_empty : wf MemStorage.empty.
Proof. split; constructor. Qed.

Lemma wf_deleteShift st id : wf st -> wf (deleteShift st id).
Proof.
  intros Hwf. unfold wf.
  destruct (deleteShift_store st id) as (_ & _ & -> & ->).
  rewrite deleteKeys_filter. apply linesOk_filter. exact Hwf.
Qed.

Lemma reachable_wf st : reachable st -> wf st.
Proof.
  induction 1 as [| st ? ? ? ? _ IH | st id e st' u _ IH Hup | st id _ IH
                  | st ts sd lines _ IH
                  | st id sd lines st' result _ IH Hup | st id _ IH].
  - exact wf_empty.
  - exact IH.
  - unfold updateEmployee in Hup.
    destruct (JSMap.get id (employees st)); [|discriminate].
    injection Hup as <- _. exact IH.
  - exact IH.
  - apply (addShift_store ts st sd lines IH).
  - destruct (getShift st id) as [existing|] eqn:Hget.
    + destruct (updateShift_store st id existing sd lines IH Hget) as (st2 & results & Heq & H).
      rewrite Heq in Hup. injection Hup as <- _. apply H.
    + destruct (updateShift_missing st id sd lines Hget) as (message & Heq).
      rewrite Heq in Hup. discriminate.
  - now apply wf_deleteShift.
Qed.

(** ** The shift identifiers stay below the counter *)

Lemma shiftIdsOk_empty : shiftIdsOk MemStorage.empty.
Proof. split; constructor. Qed.

Lemma getShift_below st id existingShift :
  shiftIdsOk st -> getShift st id = Some existingShift -> id < shift (ids st).
Proof.
  intros [_ Hs] Hget. apply JSMapFacts.get_In in Hget.
  rewrite Forall_forall in Hs. exact (Hs _ Hget).
Qed.

Lemma numbered_shiftId c id lines se :
  In se (numbered c id lines) -> ShiftEmployee.shiftId se = id /\ c <= ShiftEmployee.id se.
Proof.
  revert c. induction lines as [|x lines IH]; intros c; simpl; [tauto|].
  intros [<-|H]; simpl; [lia|].
  apply IH in H. lia.
Qed.

Lemma numbered_length c id lines :
  List.length (numbered c id lines) = List.length lines.
Proof.
  revert c. induction lines as [|x lines IH]; intros c; simpl; [reflexivity|].
  now rewrite IH.
Qed.

Lemma numbered_fields c id lines :
  map storedFields (numbered c id lines) = map submittedFields lines.
Proof.
  revert c. induction lines as [|l lines IH]; intros c; [reflexivity|].
  cbn [numbered map]. now rewrite IH.
Qed.

Lemma numbered_shiftIds c id lines :
  map ShiftEmployee.shiftId (numbered c id lines) = repeat id (List.length lines).
Proof.
  revert c. induction lines as [|l lines IH]; intros c; [reflexivity|].
  cbn [numbered map List.length repeat]. now rewrite IH.
Qed.

Lemma numbered_ids c id lines :
  map ShiftEmployee.id (numbered c id lines) = identifiers c (List.length lines).
Proof.
  revert c. induction lines as [|l lines IH]; intros c; [reflexivity|].
  cbn [numbered map List.length identifiers]. now rewrite IH.
Qed.

Lemma identifiers_from c n k : In k (identifiers c n) -> c <= k.
Proof.
  revert c. induction n as [|n IH]; intros c; [intros []|].
  cbn [identifiers]. intros [<-|Hin]; [lia|]. specialize (IH _ Hin). lia.
Qed.

Lemma shiftIdsOk_addShift timestamp st shiftData lines :
  wf st -> shiftIdsOk st -> shiftIdsOk (fst (addShift timestamp st shiftData lines)).
Proof.
  intros Hwf [Hl Hs].
  destruct (addShift_store timestamp st shiftData lines Hwf)
    as (_ & _ & Hsh & Hse & Hids & _).
  unfold shiftIdsOk. rewrite Hsh, Hse, Hids. cbn [shift]. split.
  - apply Forall_app. split.
    + eapply Forall_impl; [|exact Hl]. simpl. intros; lia.
    + apply Forall_forall. intros e He. apply in_map_iff in He.
      destruct He as (se & <- & Hin). apply numbered_shiftId in Hin. simpl. lia.
  - apply Forall_forall. intros e He. apply JSMapFacts.In_set in He.
    destruct He as [He| ->]; simpl; [|lia].
    rewrite Forall_forall in Hs. specialize (Hs _ He). lia.
Qed.

Lemma shiftIdsOk_updateShift st id shiftData lines st' result :
  wf st -> shiftIdsOk st ->
  updateShift st id shiftData lines = Returned (st', result) ->
  shiftIdsOk st'.
Proof.
  intros Hwf Hok Hup.
  destruct (getShift st id) as [existing|] eqn:Hget.
  - pose proof (getShift_below st id existing Hok Hget) as Hid.
    destruct (updateShift_store st id existing shiftData lines Hwf Hget)
      as (st2 & results & Heq & _ & Hsh & Hse & Hids & _).
    rewrite Heq in Hup. injection Hup as <- _.
    destruct Hok as [Hl Hs].
    unfold shiftIdsOk. rewrite Hsh, Hse, Hids. cbn [shift]. split.
    + apply Forall_app. split.
      * apply Forall_forall. intros e He. apply filter_In in He.
        rewrite Forall_forall in Hl. apply Hl. tauto.
      * apply Forall_forall. intros e He. apply in_map_iff in He.
        destruct He as (se & <- & Hin). apply numbered_shiftId in Hin. simpl. lia.
    + apply Forall_forall. intros e He. apply JSMapFacts.In_set in He.
      destruct He as [He| ->]; simpl; [|lia].
      rewrite Forall_forall in Hs. exact (Hs _ He).
  - destruct (updateShift_missing st id shiftData lines Hget) as (message & Heq).
    rewrite Heq in Hup. discriminate.
Qed.

Lemma shiftIdsOk_deleteShift st id : shiftIdsOk st -> shiftIdsOk (deleteShift st id).
Proof.
  intros [Hl Hs]. unfold shiftIdsOk.
  destruct (deleteShift_store st id) as (_ & -> & -> & ->). split.
  - rewrite deleteKeys_filter. apply Forall_forall. intros e He.
    apply filter_In in He. rewrite Forall_forall in Hl. apply Hl. tauto.
  - apply Forall_forall. intros e He. apply JSMapFacts.In_delete in He.
    rewrite Forall_forall in Hs. apply Hs. tauto.
Qed.

Lemma reachable_shiftIdsOk st : reachable st -> shiftIdsOk st.
Proof.
  induction 1 as [| st ? ? ? ? _ IH | st id e st' u _ IH Hup | st id _ IH
                  | st ts sd lines Hr IH
                  | st id sd lines st' result Hr IH Hup | st id _ IH].
  - exact shiftIdsOk_empty.
  - exact IH.
  - unfold updateEmployee in Hup.
    destruct (JSMap.get id (employees st)); [|discriminate].
    injection Hup as <- _. exact IH.
  - exact IH.
  - apply shiftIdsOk_addShift; [now apply reachable_wf | exact IH].
  - eapply shiftIdsOk_updateShift; eauto using reachable_wf.
  - now apply shiftIdsOk_deleteShift.
Qed.

(** ** Reading back after [addShift] *)

Lemma lines_absent c (m : JSMap.t ShiftEmployee.t) :
  Forall (fun e => ShiftEmployee.shiftId (snd e) < c) m ->
  filter (ofShift c) (JSMap.values m) = [].
Proof.
  unfold JSMap.values, ofShift.
  induction 1 as [|e m He Hm IH]; simpl; [reflexivity|].
  destruct (ShiftEmployee.shiftId (snd e) =? c) eqn:E; [|exact IH].
  apply Z.eqb_eq in E. lia.
Qed.

Lemma addShift_then_read timestamp st shiftData lines :
  reachable st ->
  let st1 := fst (addShift timestamp st shiftData lines) in
  let saved := ShiftResult.shift (snd (addShift timestamp st shiftData lines)) in
  getShift st1 (Shift.id saved) = Some saved
  /\ getShiftEmployees st1 (Shift.id saved)
     = numbered (shiftEmployee (ids st)) (Shift.id saved) lines
  /\ List.length (getShiftEmployees st1 (Shift.id saved)) = List.length lines.
Proof.
  intros Hr st1 saved.
  pose proof (reachable_wf st Hr) as Hwf.
  pose proof (reachable_shiftIdsOk st Hr) as [Hl _].
  destruct (addShift_store timestamp st shiftData lines Hwf)
    as (Hsaved & _ & Hsh & Hse & _ & _).
  fold st1 in Hsh, Hse. fold saved in Hsaved.
  assert (Hid : Shift.id saved = shift (ids st)) by now rewrite Hsaved.
  assert (Hread : getShiftEmployees st1 (Shift.id saved)
                  = numbered (shiftEmployee (ids st)) (Shift.id saved) lines).
  { unfold getShiftEmployees. rewrite Hse, values_app, filter_app, Hid.
    fold (ofShift (shift (ids st))). rewrite lines_numbered.
    now rewrite (lines_absent _ _ Hl). }
  split; [|split].
  - unfold getShift. rewrite Hsh, Hid, Hsaved. apply JSMapFacts.get_set_same.
  - exact Hread.
  - rewrite Hread. apply numbered_length.
Qed.

End ShiftLifecycle.

(* ================================================================== *)
(** * Facts about numbers *)
(* ================================================================== *)

Module NumberFacts.

Import NumberSpec.

(** ** Comparisons *)

Lemma zero_SF : Prim2SF PrimFloat.zero = S754_zero false.
Proof. reflexivity. Qed.

(** A number above zero is not equal to zero. *)
Lemma gt_zero_not_eq (x : number) :
  PrimFloat.ltb PrimFloat.zero x = true -> PrimFloat.eqb x PrimFloat.zero = false.
Proof.
  rewrite FloatAxioms.ltb_spec, FloatAxioms.eqb_spec, zero_SF. unfold SFltb, SFeqb.
  destruct (Prim2SF x) as [s|s| |s m e]; simpl; try discriminate;
    destruct s; simpl; try discriminate; reflexivity.
Qed.

Lemma gt_zero_notNegative (x : number) :
  PrimFloat.ltb PrimFloat.zero x = true -> notNegative x = true.
Proof.
  rewrite FloatAxioms.ltb_spec, zero_SF. unfold SFltb, notNegative.
  destruct (Prim2SF x) as [s|s| |s m e]; simpl; try discriminate;
    destruct s; simpl; try discriminate; reflexivity.
Qed.

(** A number that is not negative is not below zero. *)
Lemma notNegative_not_lt (x : number) :
  notNegative x = true -> PrimFloat.ltb x PrimFloat.zero = false.
Proof.
  rewrite FloatAxioms.ltb_spec, zero_SF. unfold SFltb, notNegative.
  destruct (Prim2SF x) as [s|s| |s m e]; simpl; try reflexivity;
    destruct s; simpl; try discriminate; reflexivity.
Qed.

(** ** The sign of a rounded result *)

Lemma round_aux_notNegative (m e : Z) (l : location) :
  SFnotNegative (binary_round_aux prec emax false m e l) = true.
Proof.
  unfold binary_round_aux.
  destruct (shr_fexp prec emax m e l) as [mrs' e'].
  destruct (shr_fexp prec emax _ e' loc_Exact) as [mrs'' e''].
  destruct (shr_m mrs''); [reflexivity| |reflexivity].
  destruct (e'' <=? emax - prec); reflexivity.
Qed.

Lemma round_notNegative (m : positive) (e : Z) :
  SFnotNegative (binary_round prec emax false m e) = true.
Proof.
  unfold binary_round.
  destruct (shl_align m e _) as [mz ez]. apply round_aux_notNegative.
Qed.

Lemma normalize_notNegative (m e : Z) :
  0 <= m -> SFnotNegative (binary_normalize prec emax m e false) = true.
Proof.
  destruct m as [|p|p]; simpl; intros H; [reflexivity| |lia].
  apply round_notNegative.
Qed.

(** ** The operations keep numbers that are not negative so *)

Lemma mul_notNegative (x y : number) :
  notNegative x = true -> notNegative y = true -> notNegative (x * y) = true.
Proof.
  unfold notNegative. rewrite FloatAxioms.mul_spec. unfold SF64mul, SFmul.
  destruct (Prim2SF x) as [sx|sx| |sx mx ex], (Prim2SF y) as [sy|sy| |sy my ey];
    simpl; try reflexivity; try discriminate;
    destruct sx, sy; simpl; try discriminate; try reflexivity; intros _ _.
  apply round_aux_notNegative.
Qed.

Lemma div_notNegative (x y : number) :
  notNegative x = true -> notNegative y = true -> notNegative (x / y) = true.
Proof.
  unfold notNegative. rewrite FloatAxioms.div_spec. unfold SF64div, SFdiv.
  destruct (Prim2SF x) as [sx|sx| |sx mx ex], (Prim2SF y) as [sy|sy| |sy my ey];
    simpl; try reflexivity; try discriminate;
    destruct sx, sy; simpl; try discriminate; try reflexivity; intros _ _.
  destruct (SFdiv_core_binary prec emax (Zpos mx) ex (Zpos my) ey) as [[mz ez] lz].
  apply round_aux_notNegative.
Qed.

Lemma add_notNegative (x y : number) :
  notNegative x = true -> notNegative y = true -> notNegative (x + y) = true.
Proof.
  unfold notNegative. rewrite FloatAxioms.add_spec. unfold SF64add, SFadd.
  destruct (Prim2SF x) as [sx|sx| |sx mx ex], (Prim2SF y) as [sy|sy| |sy my ey];
    simpl; try reflexivity; try discriminate;
    destruct sx, sy; simpl; try discriminate; try reflexivity; intros _ _.
  apply round_notNegative.
Qed.

Lemma of_uint63_notNegative (n : int) :
  notNegative (PrimFloat.of_uint63 n) = true.
Proof.
  unfold notNegative. rewrite FloatAxioms.of_uint63_spec.
  apply normalize_notNegative. apply Uint63.to_Z_bounded.
Qed.

Lemma of_Z_notNegative (z : Z) : 0 <= z -> notNegative (JSNumber.of_Z z) = true.
Proof.
  destruct z as [|p|p]; simpl; intros H; [reflexivity| |lia].
  apply of_uint63_notNegative.
Qed.

Lemma floor_notNegative (x : number) :
  notNegative x = true -> notNegative (JSNumber.floor x) = true.
Proof.
  unfold JSNumber.floor. intros Hx. pose proof Hx as Hx'. unfold notNegative in Hx'.
  destruct (Prim2SF x) as [s|s| |s m e]; try exact Hx.
  destruct (0 <=? e); [exact Hx|].
  simpl in Hx'. destruct s; [discriminate|]. simpl.
  apply of_Z_notNegative. apply Z.shiftr_nonneg. lia.
Qed.

Lemma round_half_up_notNegative (x : number) :
  notNegative x = true -> notNegative (JSNumber.round x) = true.
Proof.
  unfold JSNumber.round. intros Hx. pose proof Hx as Hx'. unfold notNegative in Hx'.
  destruct (Prim2SF x) as [s|s| |s m e]; try exact Hx.
  destruct (0 <=? e) eqn:He; [exact Hx|].
  simpl in Hx'. destruct s; [discriminate|]. cbn [signed zero_of_sign].
  destruct (_ =? 0); [reflexivity|].
  apply of_Z_notNegative. apply Z.shiftr_nonneg.
  assert (0 <= Z.shiftl 1 (- e)) by (apply Z.shiftl_nonneg; lia). lia.
Qed.

Lemma ldexp_notNegative (f : number) (e : Z) :
  notNegative f = true -> notNegative (FloatOps.Z.ldexp f e) = true.
Proof.
  unfold notNegative. rewrite FloatLemmas.Z_ldexp_spec. unfold SFldexp.
  destruct (Prim2SF f) as [s|s| |s m e']; try (intros H; exact H).
  simpl. destruct s; [discriminate|]. intros _. apply round_notNegative.
Qed.

Lemma rem_notNegative (x y : number) :
  notNegative x = true -> notNegative (JSNumber.rem x y) = true.
Proof.
  unfold JSNumber.rem. intros Hx. pose proof Hx as Hx'. unfold notNegative in Hx'.
  destruct (Prim2SF x) as [sx|sx| |sx mx ex], (Prim2SF y) as [sy|sy| |sy my ey];
    try reflexivity; try exact Hx.
  simpl in Hx'. destruct sx; [discriminate|].
  destruct (Z.rem _ _); try reflexivity.
  apply ldexp_notNegative, of_uint63_notNegative.
Qed.

(** ** Rounding a mantissa that is not negative never gives [NaN] *)

Lemma shr_1_nonneg (mrs : shr_record) : 0 <= shr_m mrs -> 0 <= shr_m (shr_1 mrs).
Proof.
  destruct mrs as [m r s]. simpl.
  destruct m as [|[p|p|]|[p|p|]]; simpl; lia.
Qed.

Lemma iter_pos_invariant (A : Type) (P : A -> Prop) (f : A -> A) :
  (forall x, P x -> P (f x)) -> forall p x, P x -> P (iter_pos f p x).
Proof.
  intros Hf. induction p as [p IH|p IH|]; simpl; intros x Hx; auto.
Qed.

Lemma shr_fexp_nonneg (m e : Z) (l : location) :
  0 <= m -> 0 <= shr_m (fst (shr_fexp prec emax m e l)).
Proof.
  intros Hm. unfold shr_fexp, shr.
  assert (H0 : 0 <= shr_m (shr_record_of_loc m l))
    by (destruct l as [|[| |]]; exact Hm).
  destruct (fexp prec emax (Zdigits2 m + e) - e) as [|p|p]; simpl; try exact H0.
  apply (iter_pos_invariant _ (fun mrs => 0 <= shr_m mrs)); [apply shr_1_nonneg | exact H0].
Qed.

Lemma round_nearest_even_nonneg (m : Z) (l : location) :
  0 <= m -> 0 <= round_nearest_even m l.
Proof.
  intros Hm. destruct l as [|[| |]]; simpl; try lia.
  destruct (Z.even m); lia.
Qed.

Lemma round_aux_zeroOrAbove (m e : Z) (l : location) :
  0 <= m -> SFzeroOrAbove (binary_round_aux prec emax false m e l) = true.
Proof.
  intros Hm. unfold binary_round_aux.
  pose proof (shr_fexp_nonneg m e l Hm) as H1.
  destruct (shr_fexp prec emax m e l) as [mrs' e']. simpl in H1.
  pose proof (shr_fexp_nonneg
                (round_nearest_even (shr_m mrs') (loc_of_shr_record mrs')) e' loc_Exact
                (round_nearest_even_nonneg _ _ H1)) as H2.
  destruct (shr_fexp prec emax _ e' loc_Exact) as [mrs'' e'']. simpl in H2.
  destruct (shr_m mrs''); [reflexivity| |lia].
  destruct (e'' <=? emax - prec); reflexivity.
Qed.

Lemma of_uint63_zeroOrAbove (n : int) : zeroOrAbove (PrimFloat.of_uint63 n) = true.
Proof.
  unfold zeroOrAbove. rewrite FloatAxioms.of_uint63_spec.
  pose proof (Uint63.to_Z_bounded n) as [Hn _].
  destruct (Uint63.to_Z n) as [|p|p]; simpl; [reflexivity| |lia].
  unfold binary_round. destruct (shl_align p 0 _) as [mz ez].
  apply round_aux_zeroOrAbove. lia.
Qed.

Lemma of_Z_zeroOrAbove (z : Z) : 0 <= z -> zeroOrAbove (JSNumber.of_Z z) = true.
Proof.
  destruct z as [|p|p]; simpl; intros H; [reflexivity| |lia].
  apply of_uint63_zeroOrAbove.
Qed.

(** A number that is zero or above, divided by a positive finite number,
    is zero or above. *)
Lemma div_zeroOrAbove (x y : number) (my : positive) (ey : Z) :
  zeroOrAbove x = true -> Prim2SF y = S754_finite false my ey ->
  zeroOrAbove (x / y) = true.
Proof.
  unfold zeroOrAbove. rewrite FloatAxioms.div_spec. intros Hx ->.
  unfold SF64div, SFdiv.
  destruct (Prim2SF x) as [sx|sx| |sx mx ex]; simpl in *; try discriminate;
    destruct sx; try discriminate; try reflexivity.
  unfold SFdiv_core_binary.
  set (e' := Z.min _ _). set (m' := match ex - ey - e' with Z0 => _ | _ => _ end).
  assert (Hm' : 0 <= m').
  { unfold m'. destruct (ex - ey - e'); try lia. apply Z.shiftl_nonneg. lia. }
  pose proof (Z.div_pos m' (Zpos my) Hm' ltac:(lia)) as Hq.
  unfold Z.div in Hq. destruct (Z.div_eucl m' (Zpos my)) as [q r].
  apply round_aux_zeroOrAbove. exact Hq.
Qed.

Lemma zeroOrAbove_le (x : number) :
  zeroOrAbove x = true -> PrimFloat.leb PrimFloat.zero x = true.
Proof.
  rewrite FloatAxioms.leb_spec, zero_SF. unfold SFleb, zeroOrAbove.
  destruct (Prim2SF x) as [s|s| |s m e]; simpl; try discriminate;
    destruct s; simpl; try discriminate; reflexivity.
Qed.

Lemma zeroOrAbove_notNegative (x : number) :
  zeroOrAbove x = true -> notNegative x = true.
Proof.
  unfold zeroOrAbove, notNegative. destruct (Prim2SF x); simpl; auto.
Qed.

(** ** [Math.floor], [Math.round] and [%] on examples and in general *)

Lemma number_operations_examples :
  JSNumber.floor 7.5 = 7%float
  /\ JSNumber.floor (-0.5) = (-1)%float
  /\ JSNumber.round 2.5 = 3%float
  /\ JSNumber.round (-2.5) = (-2)%float
  /\ JSNumber.round 0x1.fffffffffffffp-2 = 0%float
  /\ JSNumber.round (-0.25) = (-0)%float
  /\ JSNumber.rem 5.5 2 = 1.5%float
  /\ JSNumber.rem (-5.5) 2 = (-1.5)%float
  /\ JSNumber.rem 7.25 1 = 0.25%float
  /\ PrimFloat.is_nan (JSNumber.rem 5 0) = true
  /\ JSNumber.or_else PrimFloat.nan 0 = 0%float
  /\ JSNumber.or_else 2 0 = 2%float.
Proof. vm_compute. repeat split. Qed.

(** The floor of [m * 2^e], [e < 0], is the integer [r] with
    [r <= m * 2^e < r + 1]. *)
Lemma floor_spec (x : number) (s : bool) (m : positive) (e : Z) :
  Prim2SF x = S754_finite s m e -> e < 0 ->
  exists r,
    JSNumber.floor x = JSNumber.of_Z r
    /\ r * 2 ^ (- e) <= JSNumber.signed s m < (r + 1) * 2 ^ (- e).
Proof.
  intros Hx He. exists (Z.shiftr (JSNumber.signed s m) (- e)). split.
  - unfold JSNumber.floor. rewrite Hx.
    destruct (0 <=? e) eqn:E; [apply Z.leb_le in E; lia | reflexivity].
  - rewrite Z.shiftr_div_pow2 by lia.
    assert (Hp : 0 < 2 ^ (- e)) by (apply Z.pow_pos_nonneg; lia).
    pose proof (Z.mul_div_le (JSNumber.signed s m) _ Hp).
    pose proof (Z.mul_succ_div_gt (JSNumber.signed s m) _ Hp).
    lia.
Qed.

(** The rounding of [m * 2^e], [e < 0], is the integer [r] with
    [r - 1/2 <= m * 2^e < r + 1/2]: the nearest integer, the upper one at
    a tie. *)
Lemma round_spec (x : number) (s : bool) (m : positive) (e : Z) :
  Prim2SF x = S754_finite s m e -> e < 0 ->
  exists r,
    JSNumber.round x = (if r =? 0 then JSNumber.zero_of_sign s else JSNumber.of_Z r)
    /\ (2 * r - 1) * 2 ^ (- e) <= 2 * JSNumber.signed s m < (2 * r + 1) * 2 ^ (- e).
Proof.
  intros Hx He.
  exists (Z.shiftr (2 * JSNumber.signed s m + Z.shiftl 1 (- e)) (1 - e)). split.
  - unfold JSNumber.round. rewrite Hx.
    destruct (0 <=? e) eqn:E; [apply Z.leb_le in E; lia | reflexivity].
  - rewrite Z.shiftr_div_pow2, Z.shiftl_1_l by lia.
    replace (1 - e) with (Z.succ (- e)) by lia. rewrite Z.pow_succ_r by lia.
    assert (Hp : 0 < 2 * 2 ^ (- e)) by (assert (0 < 2 ^ (- e)) by (apply Z.pow_pos_nonneg; lia); lia).
    pose proof (Z.mul_div_le (2 * JSNumber.signed s m + 2 ^ (- e)) _ Hp).
    pose proof (Z.mul_succ_div_gt (2 * JSNumber.signed s m + 2 ^ (- e)) _ Hp).
    lia.
Qed.

End NumberFacts.

(* ================================================================== *)
(** * Facts about clock times and hours *)
(* ================================================================== *)

Module TimeFacts.

Import JSDate TimeUtils NumberSpec NumberFacts.

Lemma digit_bounds (c : ascii) (d : Z) : digit c = Some d -> 0 <= d <= 9.
Proof.
  unfold digit. destruct (_ && _) eqn:E; [|discriminate].
  apply andb_true_iff in E. destruct E as [E1 E2].
  apply Z.leb_le in E1, E2. intros [= <-]. lia.
Qed.

Lemma two_digits_bounds (a b : ascii) (n : Z) :
  two_digits a b = Some n -> 0 <= n <= 99.
Proof.
  unfold two_digits.
  destruct (digit a) as [x|] eqn:Ha; [|discriminate].
  destruct (digit b) as [y|] eqn:Hb; [|discriminate].
  pose proof (digit_bounds _ _ Ha). pose proof (digit_bounds _ _ Hb).
  intros Heq. assert (n = 10 * x + y) by congruence. lia.
Qed.

Lemma three_digits_bounds (a b c : ascii) (n : Z) :
  three_digits a b c = Some n -> 0 <= n <= 999.
Proof.
  unfold three_digits.
  destruct (digit a) as [x|] eqn:Ha; [|discriminate].
  destruct (digit b) as [y|] eqn:Hb; [|discriminate].
  destruct (digit c) as [z|] eqn:Hc; [|discriminate].
  pose proof (digit_bounds _ _ Ha). pose proof (digit_bounds _ _ Hb).
  pose proof (digit_bounds _ _ Hc).
  intros Heq. assert (n = 100 * x + 10 * y + z) by congruence. lia.
Qed.

Lemma time_of_fields_bounds (h m sec ms t : Z) :
  0 <= h -> 0 <= m -> 0 <= sec -> 0 <= ms <= 999 ->
  time_of_fields h m sec ms = Some t -> 0 <= t <= 24 * 60 * 60 * 1000.
Proof.
  intros Hh Hm Hs Hms. unfold time_of_fields.
  destruct (_ || _) eqn:E; [|discriminate]. intros Heq.
  assert (Ht : t = ((h * 60 + m) * 60 + sec) * 1000 + ms) by congruence.
  clear Heq. apply orb_true_iff in E. destruct E as [E|E].
  - apply andb_true_iff in E. destruct E as [E E3].
    apply andb_true_iff in E. destruct E as [E1 E2].
    apply Z.leb_le in E1, E2, E3. lia.
  - apply andb_true_iff in E. destruct E as [E E4].
    apply andb_true_iff in E. destruct E as [E E3].
    apply andb_true_iff in E. destruct E as [E1 E2].
    apply Z.eqb_eq in E1, E2, E3, E4. subst. lia.
Qed.

(** A clock time lies within the day. *)
Lemma parse_time_bounds (s : string) (t : Z) :
  parse_time s = Some t -> 0 <= t <= 24 * 60 * 60 * 1000.
Proof.
  unfold parse_time.
  destruct (list_ascii_of_string s)
    as [|h1 [|h2 [|c1 [|m1 [|m2 [|c2 [|s1 [|s2 [|c3 [|f1 [|f2 [|f3 [|? ?]]]]]]]]]]]]];
    try discriminate.
  - destruct (two_digits h1 h2) as [h|] eqn:Hh; [|discriminate].
    destruct (two_digits m1 m2) as [m|] eqn:Hm; [|discriminate].
    destruct (is_colon c1); [|discriminate].
    pose proof (two_digits_bounds _ _ _ Hh). pose proof (two_digits_bounds _ _ _ Hm).
    apply time_of_fields_bounds; lia.
  - destruct (two_digits h1 h2) as [h|] eqn:Hh; [|discriminate].
    destruct (two_digits m1 m2) as [m|] eqn:Hm; [|discriminate].
    destruct (two_digits s1 s2) as [sec|] eqn:Hs; [|discriminate].
    destruct (_ && _); [|discriminate].
    pose proof (two_digits_bounds _ _ _ Hh). pose proof (two_digits_bounds _ _ _ Hm).
    pose proof (two_digits_bounds _ _ _ Hs).
    apply time_of_fields_bounds; lia.
  - destruct (two_digits h1 h2) as [h|] eqn:Hh; [|discriminate].
    destruct (two_digits m1 m2) as [m|] eqn:Hm; [|discriminate].
    destruct (two_digits s1 s2) as [sec|] eqn:Hs; [|discriminate].
    destruct (three_digits f1 f2 f3) as [ms|] eqn:Hf; [|discriminate].
    destruct (_ && _); [|discriminate].
    pose proof (two_digits_bounds _ _ _ Hh). pose proof (two_digits_bounds _ _ _ Hm).
    pose proof (two_digits_bounds _ _ _ Hs). pose proof (three_digits_bounds _ _ _ _ Hf).
    apply time_of_fields_bounds; lia.
Qed.

(** A string that is a clock time is not empty. *)
Lemma parse_time_not_empty (s : string) (t : Z) :
  parse_time s = Some t -> String.eqb s "" = false.
Proof.
  destruct s; [discriminate | reflexivity].
Qed.


Section LocalTime.

Variable localMidnight : Z.
Variable dateParse : string -> JSDate.t.

(** The hours before rounding are the length of the shift over the
    milliseconds in an hour. *)
Lemma rawHours_parsed (clockIn clockOut : string) (tin tout : Z) :
  parse_time clockIn = Some tin -> parse_time clockOut = Some tout ->
  rawHours localMidnight dateParse clockIn clockOut
  = (JSNumber.of_Z (shiftLength tin tout) / msPerHour)%float.
Proof.
  intros Hin Hout. unfold rawHours, of_clock. rewrite Hin, Hout.
  unfold shiftLength. cbn [JSDate.lt].
  replace (localMidnight + tout <? localMidnight + tin) with (tout <? tin).
  2:{ destruct (tout <? tin) eqn:E; symmetry;
      [apply Z.ltb_lt; apply Z.ltb_lt in E | apply Z.ltb_ge; apply Z.ltb_ge in E]; lia. }
  destruct (tout <? tin); cbn [plus_ms diff]; do 2 f_equal; lia.
Qed.

Lemma calculateHoursWorked_parsed (clockIn clockOut : string) (tin tout : Z)
    (roundingMinutes : option number) :
  parse_time clockIn = Some tin -> parse_time clockOut = Some tout ->
  calculateHoursWorked localMidnight dateParse clockIn clockOut roundingMinutes
  = applyRounding
      match roundingMinutes with Some g => g | None => defaultRoundingMinutes end
      (JSNumber.of_Z (shiftLength tin tout) / msPerHour)%float.
Proof.
  intros Hin Hout. unfold calculateHoursWorked.
  rewrite (parse_time_not_empty _ _ Hin), (parse_time_not_empty _ _ Hout).
  cbn [orb]. now rewrite (rawHours_parsed _ _ _ _ Hin Hout).
Qed.

End LocalTime.

(** The sum and the difference of time values as doubles are those of the
    integers: here for 02:00 moved a day later and 22:00, on the UTC day. *)
Lemma time_values_exact_example :
  (JSNumber.of_Z (Sample.utcMidnight + 7200000) + JSNumber.of_Z (24 * 60 * 60 * 1000)
   - JSNumber.of_Z (Sample.utcMidnight + 79200000))%float
  = JSNumber.of_Z (7200000 + 24 * 60 * 60 * 1000 - 79200000).
Proof. vm_compute. reflexivity. Qed.

Lemma msPerHour_SF : Prim2SF msPerHour = S754_finite false 7730941132800000 (-31).
Proof. reflexivity. Qed.

(** The hours of a shift, before rounding, are zero or above. *)
Lemma hours_zeroOrAbove (d : Z) :
  0 <= d -> zeroOrAbove (JSNumber.of_Z d / msPerHour) = true.
Proof.
  intros Hd. eapply div_zeroOrAbove; [now apply of_Z_zeroOrAbove | exact msPerHour_SF].
Qed.

(** Rounding keeps hours that are not negative so, whatever the
    granularity. *)
Lemma applyRounding_notNegative (g h : number) :
  notNegative h = true -> notNegative (applyRounding g h) = true.
Proof.
  intros Hh. unfold applyRounding.
  destruct (JSNumber.gt g PrimFloat.zero) eqn:Hg; [|exact Hh].
  apply gt_zero_notNegative in Hg.
  assert (H60 : notNegative (JSNumber.of_Z 60) = true) by reflexivity.
  apply add_notNegative; [now apply floor_notNegative|].
  apply div_notNegative; [|exact H60].
  apply mul_notNegative; [|exact Hg].
  apply round_half_up_notNegative, div_notNegative; [|exact Hg].
  apply mul_notNegative; [|exact H60].
  now apply rem_notNegative.
Qed.



(** Every even granularity below an hour other than 30 rounds some
    whole-minute length otherwise. *)
Lemma inexact_granularities_checked :
  forallb
    (fun n =>
       existsb
         (fun k =>
            negb (PrimFloat.eqb
                    (applyRounding (JSNumber.of_Z n)
                       (JSNumber.of_Z (60000 * k) / msPerHour)%float)
                    (roundedHours n k)))
         wholeMinutes)
    inexactGranularities = true.
Proof. vm_compute. reflexivity. Qed.

End TimeFacts.

(* ================================================================== *)
(** * Rounding: how far a result is from the exact one *)
(* ================================================================== *)

Module RoundingFacts.

Import FloatValue AllocationSpec.

(** ** Digits and shifts of the mantissa *)

Lemma digits2_pos_bounds (p : positive) :
  2 ^ (Zpos (digits2_pos p) - 1) <= Zpos p < 2 ^ Zpos (digits2_pos p).
Proof.
  induction p as [p IH|p IH|]; cbn [digits2_pos].
  - rewrite Pos2Z.inj_succ, (Pos2Z.inj_xI p).
    replace (Z.succ (Zpos (digits2_pos p)) - 1) with (Z.succ (Zpos (digits2_pos p) - 1)) by lia.
    rewrite !Z.pow_succ_r by lia.
    destruct IH as [IH1 IH2]. revert IH1 IH2.
    generalize (2 ^ (Zpos (digits2_pos p) - 1)), (2 ^ Zpos (digits2_pos p)). lia.
  - rewrite Pos2Z.inj_succ, (Pos2Z.inj_xO p).
    replace (Z.succ (Zpos (digits2_pos p)) - 1) with (Z.succ (Zpos (digits2_pos p) - 1)) by lia.
    rewrite !Z.pow_succ_r by lia.
    destruct IH as [IH1 IH2]. revert IH1 IH2.
    generalize (2 ^ (Zpos (digits2_pos p) - 1)), (2 ^ Zpos (digits2_pos p)). lia.
  - simpl. lia.
Qed.

Lemma shr_1_half (mrs : shr_record) :
  0 <= shr_m mrs -> shr_m (shr_1 mrs) = shr_m mrs / 2.
Proof.
  destruct mrs as [m r s]. cbn [shr_m]. intros Hm.
  destruct m as [|[p|p|]|p]; cbn [shr_1 shr_m]; try lia.
  - reflexivity.
  - rewrite (Pos2Z.inj_xI p). apply Z.div_unique with (r := 1); lia.
  - rewrite (Pos2Z.inj_xO p). apply Z.div_unique with (r := 0); lia.
  - reflexivity.
Qed.

Lemma iter_shr_1 (p : positive) (mrs : shr_record) :
  0 <= shr_m mrs ->
  shr_m (iter_pos shr_1 p mrs) = shr_m mrs / 2 ^ Zpos p.
Proof.
  revert mrs. induction p as [p IH|p IH|]; intros mrs Hm; cbn [iter_pos].
  - assert (H1 : 0 <= shr_m (shr_1 mrs)) by (rewrite shr_1_half by exact Hm; now apply Z.div_pos).
    assert (H2 : 0 <= shr_m (iter_pos shr_1 p (shr_1 mrs))).
    { rewrite IH by exact H1. apply Z.div_pos; [exact H1|]. apply Z.pow_pos_nonneg; lia. }
    rewrite IH by exact H2. rewrite IH by exact H1. rewrite shr_1_half by exact Hm.
    rewrite !Z.div_div by (try apply Z.pow_pos_nonneg; lia).
    f_equal. rewrite (Pos2Z.inj_xI p).
    replace (2 * Zpos p + 1) with (1 + Zpos p + Zpos p) by lia.
    rewrite !Z.pow_add_r by lia. lia.
  - assert (H2 : 0 <= shr_m (iter_pos shr_1 p mrs)).
    { rewrite IH by exact Hm. apply Z.div_pos; [exact Hm|]. apply Z.pow_pos_nonneg; lia. }
    rewrite IH by exact H2. rewrite IH by exact Hm.
    rewrite !Z.div_div by (try apply Z.pow_pos_nonneg; lia).
    f_equal. rewrite (Pos2Z.inj_xO p).
    replace (2 * Zpos p) with (Zpos p + Zpos p) by lia.
    rewrite !Z.pow_add_r by lia. lia.
  - rewrite shr_1_half by exact Hm. reflexivity.
Qed.

(** [shr_fexp] with a shift that is not negative: the mantissa is divided
    by the power of two, the exponent moved to [fexp]. *)
Lemma shr_fexp_shift (m e : Z) (l : location) :
  0 <= m ->
  e <= fexp prec emax (Zdigits2 m + e) ->
  shr_m (fst (shr_fexp prec emax m e l))
  = m / 2 ^ (fexp prec emax (Zdigits2 m + e) - e)
  /\ snd (shr_fexp prec emax m e l) = fexp prec emax (Zdigits2 m + e).
Proof.
  intros Hm He. unfold shr_fexp, shr.
  assert (H0 : shr_m (shr_record_of_loc m l) = m) by (destruct l as [|[| |]]; reflexivity).
  destruct (fexp prec emax (Zdigits2 m + e) - e) as [|p|p] eqn:En; cbn [fst snd].
  - rewrite H0, Z.pow_0_r, Z.div_1_r. split; [reflexivity|lia].
  - rewrite iter_shr_1 by (rewrite H0; exact Hm). rewrite H0. split; [reflexivity|lia].
  - lia.
Qed.

(** [shr_fexp] with a shift that is not positive leaves the mantissa. *)
Lemma shr_fexp_keep (m e : Z) (l : location) :
  fexp prec emax (Zdigits2 m + e) <= e ->
  shr_fexp prec emax m e l = (shr_record_of_loc m l, e).
Proof.
  intros He. unfold shr_fexp, shr.
  destruct (fexp prec emax (Zdigits2 m + e) - e) as [|p|p] eqn:En; try reflexivity. lia.
Qed.

Lemma round_nearest_even_cases (m : Z) (l : location) :
  round_nearest_even m l = m \/ round_nearest_even m l = m + 1.
Proof.
  destruct l as [|[| |]]; cbn [round_nearest_even]; auto.
  destruct (Z.even m); auto.
Qed.

Lemma fexp_eq (x : Z) : fexp prec emax x = Z.max (x - 53) (-1074).
Proof. reflexivity. Qed.

Lemma Zdigits2_bounds (m : Z) :
  0 < m -> 2 ^ (Zdigits2 m - 1) <= m < 2 ^ Zdigits2 m.
Proof.
  destruct m as [|p|p]; try lia. intros _. apply digits2_pos_bounds.
Qed.

Lemma Zdigits2_pos (m : Z) : 0 < m -> 0 < Zdigits2 m.
Proof. destruct m; simpl; lia. Qed.

(** Digits from bounds. *)
Lemma Zdigits2_ge (m k : Z) : 0 <= k -> 2 ^ k <= m -> k + 1 <= Zdigits2 m.
Proof.
  intros Hk Hm.
  assert (0 < m) by (pose proof (Z.pow_pos_nonneg 2 k); lia).
  destruct (Zdigits2_bounds m H) as [_ Hlt].
  destruct (Z_lt_le_dec (Zdigits2 m) (k + 1)) as [Hc|Hc]; [|exact Hc].
  exfalso. assert (2 ^ Zdigits2 m <= 2 ^ k) by (apply Z.pow_le_mono_r; lia). lia.
Qed.

Lemma Zdigits2_le (m k : Z) : 0 <= k -> 0 < m -> m < 2 ^ k -> Zdigits2 m <= k.
Proof.
  intros Hk Hm Hlt.
  destruct (Zdigits2_bounds m Hm) as [Hge _].
  destruct (Z_lt_le_dec k (Zdigits2 m)) as [Hc|Hc]; [|exact Hc].
  exfalso. assert (2 ^ k <= 2 ^ (Zdigits2 m - 1)) by (apply Z.pow_le_mono_r; lia). lia.
Qed.

Lemma valid_digits (s : bool) (m : positive) (e : Z) :
  SpecFloat.valid_binary prec emax (S754_finite s m e) = true ->
  -1074 <= e <= 971 /\ 1 <= Zdigits2 (Zpos m) <= 53
  /\ (Zdigits2 (Zpos m) = 53 \/ e = -1074).
Proof.
  cbn [SpecFloat.valid_binary]. unfold bounded, canonical_mantissa.
  intros H. apply andb_true_iff in H. destruct H as [H1 H2].
  apply Z.eqb_eq in H1. apply Z.leb_le in H2.
  change (emax - prec) with 971 in H2.
  change (Zpos (digits2_pos m)) with (Zdigits2 (Zpos m)) in H1.
  rewrite fexp_eq in H1. pose proof (Zdigits2_pos (Zpos m) ltac:(lia)). lia.
Qed.

(** The digits of a product and of a multiple of a power of two. *)
Lemma Zdigits2_mul_ge (a b : Z) :
  0 < a -> 0 < b -> Zdigits2 a + Zdigits2 b - 1 <= Zdigits2 (a * b).
Proof.
  intros Ha Hb.
  destruct (Zdigits2_bounds a Ha) as [Ha1 _]. destruct (Zdigits2_bounds b Hb) as [Hb1 _].
  pose proof (Zdigits2_pos a Ha). pose proof (Zdigits2_pos b Hb).
  assert (H2 : 2 ^ (Zdigits2 a - 1 + (Zdigits2 b - 1)) <= a * b).
  { rewrite Z.pow_add_r by lia. apply Z.mul_le_mono_nonneg; try lia;
      apply Z.pow_nonneg; lia. }
  pose proof (Zdigits2_ge (a * b) (Zdigits2 a - 1 + (Zdigits2 b - 1)) ltac:(lia) H2). lia.
Qed.

Lemma Zdigits2_shift (a k : Z) :
  0 < a -> 0 <= k -> Zdigits2 (a * 2 ^ k) = Zdigits2 a + k.
Proof.
  intros Ha Hk. destruct (Zdigits2_bounds a Ha) as [Ha1 Ha2].
  pose proof (Zdigits2_pos a Ha) as Hd.
  assert (Hp : 0 < 2 ^ k) by (apply Z.pow_pos_nonneg; lia).
  assert (H1 : 2 ^ (Zdigits2 a - 1 + k) <= a * 2 ^ k).
  { rewrite Z.pow_add_r by lia. apply Z.mul_le_mono_nonneg_r; lia. }
  assert (H2 : a * 2 ^ k < 2 ^ (Zdigits2 a + k)).
  { rewrite Z.pow_add_r by lia. apply Z.mul_lt_mono_pos_r; lia. }
  pose proof (Zdigits2_ge (a * 2 ^ k) (Zdigits2 a - 1 + k) ltac:(lia) H1).
  assert (H0 : 0 < a * 2 ^ k) by (apply Z.mul_pos_pos; lia).
  pose proof (Zdigits2_le (a * 2 ^ k) (Zdigits2 a + k) ltac:(lia) H0 H2). lia.
Qed.

Lemma iter_xO (m d : positive) :
  Zpos (Pos.iter xO m d) = Zpos m * 2 ^ Zpos d.
Proof.
  induction d as [|d IH] using Pos.peano_ind.
  - simpl. lia.
  - rewrite Pos.iter_succ, Pos2Z.inj_xO, IH, Pos2Z.inj_succ, Z.pow_succ_r by lia. lia.
Qed.

Lemma shl_align_spec (m : positive) (e e' : Z) :
  e' <= e ->
  Zpos (fst (shl_align m e e')) = Zpos m * 2 ^ (e - e')
  /\ snd (shl_align m e e') = e'.
Proof.
  intros H. unfold shl_align.
  destruct (e' - e) as [|d|d] eqn:Ed; cbn [fst snd].
  - replace (e - e') with 0 by lia. rewrite Z.pow_0_r. lia.
  - lia.
  - rewrite iter_xO. replace (e - e') with (Zpos d) by lia. split; [reflexivity|lia].
Qed.

Lemma shl_align_keep (m : positive) (e e' : Z) :
  e <= e' -> shl_align m e e' = (m, e).
Proof.
  intros H. unfold shl_align. destruct (e' - e) as [|d|d] eqn:Ed; try reflexivity. lia.
Qed.

(** A shift to [fexp] leaves a mantissa above zero so, when the exponent
    is within the format. *)
Lemma shr_fexp_above (m e : Z) (l : location) :
  0 < m -> -1074 <= e ->
  0 < shr_m (fst (shr_fexp prec emax m e l))
  /\ -1074 <= snd (shr_fexp prec emax m e l).
Proof.
  intros Hm He.
  assert (H0 : shr_m (shr_record_of_loc m l) = m) by (destruct l as [|[| |]]; reflexivity).
  destruct (Z_le_gt_dec (fexp prec emax (Zdigits2 m + e)) e) as [Hk|Hs].
  - rewrite (shr_fexp_keep m e l Hk). cbn [fst snd]. rewrite H0. lia.
  - destruct (shr_fexp_shift m e l ltac:(lia) ltac:(lia)) as [HM HE].
    rewrite HM, HE. rewrite fexp_eq in *. split; [|lia].
    assert (Hn : fexp prec emax (Zdigits2 m + e) - e = Zdigits2 m - 53)
      by (rewrite fexp_eq; lia).
    rewrite <- fexp_eq, Hn.
    destruct (Zdigits2_bounds m Hm) as [Hge _].
    assert (Hd : 53 < Zdigits2 m) by lia.
    apply Z.lt_le_trans with (2 ^ 52); [reflexivity|].
    apply Z.div_le_lower_bound; [apply Z.pow_pos_nonneg; lia|].
    rewrite <- Z.pow_add_r by lia.
    replace (Zdigits2 m - 53 + 52) with (Zdigits2 m - 1) by lia. exact Hge.
Qed.

Lemma round_nearest_even_above (m : Z) (l : location) :
  0 < m -> 0 < round_nearest_even m l.
Proof. intros H. destruct (round_nearest_even_cases m l) as [-> | ->]; lia. Qed.

(** Rounding a number other than zero does not give a zero. *)
Lemma round_aux_not_zero (s s' : bool) (m e : Z) (l : location) :
  0 < m -> -1074 <= e ->
  binary_round_aux prec emax s m e l <> S754_zero s'.
Proof.
  intros Hm He. unfold binary_round_aux.
  destruct (shr_fexp_above m e l Hm He) as [H1 H1e].
  destruct (shr_fexp prec emax m e l) as [mrs' e']. cbn [fst snd] in H1, H1e.
  pose proof (round_nearest_even_above _ (loc_of_shr_record mrs') H1) as H2.
  destruct (shr_fexp_above _ e' loc_Exact H2 H1e) as [H3 _].
  destruct (shr_fexp prec emax _ e' loc_Exact) as [mrs'' e'']. cbn [fst] in H3.
  destruct (shr_m mrs''); try lia.
  destruct (e'' <=? emax - prec); discriminate.
Qed.

Lemma binary_round_not_zero (s s' : bool) (m : positive) (e : Z) :
  -1074 <= e -> binary_round prec emax s m e <> S754_zero s'.
Proof.
  intros He. unfold binary_round.
  change (Zpos (digits2_pos m)) with (Zdigits2 (Zpos m)).
  destruct (Z_le_gt_dec e (fexp prec emax (Zdigits2 (Zpos m) + e))) as [Hle|Hgt].
  - rewrite (shl_align_keep m e _ Hle). apply round_aux_not_zero; lia.
  - destruct (shl_align_spec m e (fexp prec emax (Zdigits2 (Zpos m) + e)) ltac:(lia))
      as [_ Hez].
    destruct (shl_align m e _) as [mz ez]. cbn [snd] in Hez. subst ez.
    apply round_aux_not_zero; [lia|]. rewrite fexp_eq. lia.
Qed.

(** A sum is [-0] only if both terms are. *)
Lemma SFadd_neg_zero (x y : spec_float) :
  SpecFloat.valid_binary prec emax x = true -> SpecFloat.valid_binary prec emax y = true ->
  SFadd prec emax x y = S754_zero true -> x = S754_zero true.
Proof.
  intros Vx Vy.
  destruct x as [sx|sx| |sx mx ex], y as [sy|sy| |sy my ey]; cbn [SFadd];
    intros H; try discriminate H;
    try (destruct sx, sy; try discriminate H; reflexivity).
  exfalso. apply valid_digits in Vx, Vy.
    set (ez := Z.min ex ey) in *.
    destruct (cond_Zopp sx (Zpos (fst (shl_align mx ex ez)))
              + cond_Zopp sy (Zpos (fst (shl_align my ey ez)))) as [|p|p];
      cbn [binary_normalize] in H; [discriminate H| |];
      revert H; apply binary_round_not_zero; unfold ez; lia.
Qed.

Local Open Scope R_scope.

(** ** The operations on numbers that are not negative *)

Lemma pow2_pos (e : Z) : 0 < pow2 e.
Proof. apply powerRZ_lt. lra. Qed.

Lemma pow2_add (a b : Z) : pow2 (a + b) = pow2 a * pow2 b.
Proof. apply powerRZ_add. lra. Qed.

Lemma pow2_0 : pow2 0 = 1.
Proof. reflexivity. Qed.

Lemma pow2_1 : pow2 1 = 2.
Proof. unfold pow2. simpl. lra. Qed.

Lemma pow2_Z (n : Z) : (0 <= n)%Z -> IZR (2 ^ n) = pow2 n.
Proof.
  intros Hn. unfold pow2. rewrite <- (Z2Nat.id n Hn) at 1 2.
  rewrite <- pow_IZR, <- pow_powerRZ. reflexivity.
Qed.

Lemma pow2_ge_1 (k : Z) : (0 <= k)%Z -> 1 <= pow2 k.
Proof.
  intros Hk. rewrite <- pow2_Z by exact Hk. apply IZR_le.
  pose proof (Z.pow_pos_nonneg 2 k). lia.
Qed.

Lemma pow2_le (a b : Z) : (a <= b)%Z -> pow2 a <= pow2 b.
Proof.
  intros H. replace b with (a + (b - a))%Z by lia. rewrite pow2_add.
  pose proof (pow2_pos a). pose proof (pow2_ge_1 (b - a)). 
  assert (1 <= pow2 (b - a)) by (apply H1; lia). nra.
Qed.

Lemma pow2_lt (a b : Z) : (a < b)%Z -> pow2 a < pow2 b.
Proof.
  intros H. replace b with (a + (1 + (b - a - 1)))%Z by lia.
  rewrite !pow2_add, pow2_1.
  pose proof (pow2_pos a).
  assert (1 <= pow2 (b - a - 1)) by (apply pow2_ge_1; lia).
  nra.
Qed.

Lemma pow2_lt_inv (a b : Z) : pow2 a < pow2 b -> (a < b)%Z.
Proof.
  intros H. destruct (Z_lt_le_dec a b) as [Hc|Hc]; [exact Hc|].
  apply pow2_le in Hc. lra.
Qed.

Lemma pow2_opp (n : Z) : pow2 (- n) * pow2 n = 1.
Proof. rewrite <- pow2_add. replace (- n + n)%Z with 0%Z by lia. apply pow2_0. Qed.

Lemma pow2_m52 : pow2 (-52) = / 4503599627370496.
Proof.
  pose proof (pow2_opp 52) as H. rewrite <- (pow2_Z 52) in H by lia.
  change (2 ^ 52)%Z with 4503599627370496%Z in H. change (- (52))%Z with (-52)%Z in H.
  apply Rmult_eq_reg_r with 4503599627370496; [|lra].
  rewrite H. field.
Qed.

(** The floor of a division by a power of two, in the reals. *)
Lemma div_pow2_bounds (m n : Z) (v : R) :
  (0 <= m)%Z -> (0 <= n)%Z ->
  IZR m <= v < IZR m + 1 ->
  IZR (m / 2 ^ n) * pow2 n <= v < (IZR (m / 2 ^ n) + 1) * pow2 n.
Proof.
  intros Hm Hn [Hv1 Hv2].
  assert (Hp : (0 < 2 ^ n)%Z) by (apply Z.pow_pos_nonneg; lia).
  pose proof (Z.mul_div_le m (2 ^ n) Hp) as H1.
  pose proof (Z.mul_succ_div_gt m (2 ^ n) Hp) as H2.
  rewrite <- (pow2_Z n Hn).
  assert (H1' : IZR (m / 2 ^ n) * IZR (2 ^ n) <= IZR m).
  { rewrite <- mult_IZR. apply IZR_le. lia. }
  assert (H2' : IZR m + 1 <= (IZR (m / 2 ^ n) + 1) * IZR (2 ^ n)).
  { rewrite <- (plus_IZR m 1), <- (plus_IZR _ 1), <- mult_IZR. apply IZR_le. lia. }
  lra.
Qed.

(** A mantissa of [d] digits is at least [2^(d-1)]. *)
Lemma digits_pow2 (m e : Z) :
  (0 < m)%Z -> pow2 (Zdigits2 m - 1 + e) <= IZR m * pow2 e.
Proof.
  intros Hm. destruct (Zdigits2_bounds m Hm) as [Hge _].
  pose proof (Zdigits2_pos m Hm) as Hd.
  rewrite pow2_add, <- pow2_Z by lia.
  apply Rmult_le_compat_r; [pose proof (pow2_pos e); lra|].
  now apply IZR_le.
Qed.

(** One unit at the exponent [fexp] is small against the number. *)
Lemma ulp_small (m e : Z) (X : R) :
  (0 <= m)%Z ->
  (e <= fexp prec emax (Zdigits2 m + e))%Z ->
  IZR m * pow2 e <= X ->
  pow2 (fexp prec emax (Zdigits2 m + e)) <= pow2 (-52) * X + pow2 (-1074).
Proof.
  intros Hm He HX. rewrite fexp_eq in *.
  pose proof (pow2_pos (-52)) as Ha. pose proof (pow2_pos (-1074)) as Hh.
  destruct (Z.max_spec (Zdigits2 m + e - 53) (-1074)) as [[Hlt ->]|[Hle ->]].
  - assert (0 <= X).
    { apply Rle_trans with (2 := HX). apply Rmult_le_pos; [now apply IZR_le|].
      pose proof (pow2_pos e). lra. }
    assert (0 <= pow2 (-52) * X) by (apply Rmult_le_pos; lra). lra.
  - assert (Hpos : (0 < m)%Z).
    { destruct (Z.eq_dec m 0) as [->|]; [|lia]. simpl in *. lia. }
    pose proof (digits_pow2 m e Hpos) as Hd.
    replace (Zdigits2 m - 1 + e)%Z with (52 + (Zdigits2 m + e - 53))%Z in Hd by lia.
    rewrite pow2_add in Hd.
    pose proof (pow2_opp 52) as Ho. change (- (52))%Z with (-52)%Z in Ho.
    pose proof (pow2_pos (Zdigits2 m + e - 53)) as Hp.
    assert (pow2 (Zdigits2 m + e - 53) = pow2 (-52) * (pow2 52 * pow2 (Zdigits2 m + e - 53))).
    { rewrite <- Rmult_assoc, Ho. lra. }
    rewrite H.
    assert (pow2 (-52) * (pow2 52 * pow2 (Zdigits2 m + e - 53)) <= pow2 (-52) * X).
    { apply Rmult_le_compat_l; lra. }
    lra.
Qed.

Lemma pow2_m50 : pow2 (-50) = 4 * pow2 (-52).
Proof.
  replace (-50)%Z with (2 + -52)%Z by lia. rewrite pow2_add.
  replace (pow2 2) with 4; [reflexivity|]. unfold pow2. simpl. lra.
Qed.

Lemma pow2_m1072 : pow2 (-1072) = 4 * pow2 (-1074).
Proof.
  replace (-1072)%Z with (2 + -1074)%Z by lia. rewrite pow2_add.
  replace (pow2 2) with 4; [reflexivity|]. unfold pow2. simpl. lra.
Qed.

Lemma pow2_1024 : pow2 1024 = 2 * pow2 1023.
Proof.
  replace 1024%Z with (1 + 1023)%Z by lia. rewrite pow2_add, pow2_1. reflexivity.
Qed.

(** The exponent [fexp] of a number below [2^1024] is within the format. *)
Lemma fexp_no_overflow (m e : Z) (X : R) :
  (0 < m)%Z -> IZR m * pow2 e <= X -> X < pow2 1024 ->
  (fexp prec emax (Zdigits2 m + e) <= 971)%Z.
Proof.
  intros Hm HX Hlt. pose proof (digits_pow2 m e Hm) as Hd.
  assert (H : pow2 (Zdigits2 m - 1 + e) < pow2 1024) by lra.
  apply pow2_lt_inv in H. rewrite fexp_eq. lia.
Qed.


Lemma round_aux_bound (s : bool) (m e : Z) (l : location) (v : R) :
  (0 <= m)%Z ->
  (e <= fexp prec emax (Zdigits2 m + e))%Z ->
  IZR m <= v < IZR m + 1 ->
  v * pow2 e < pow2 1023 ->
  rounded s (binary_round_aux prec emax s m e l) (v * pow2 e).
Proof.
  intros Hm He Hv Hx. set (X := v * pow2 e) in *.
  pose proof (pow2_pos e) as Hpe.
  pose proof (pow2_pos (-1074)) as Hh.
  assert (Hh1 : pow2 (-1074) <= 1).
  { rewrite <- pow2_0. apply pow2_le. lia. }
  assert (HP : 4 <= pow2 1023).
  { replace 4 with (pow2 2) by (unfold pow2; simpl; lra). apply pow2_le. lia. }
  assert (HX0 : 0 <= X).
  { unfold X. apply Rmult_le_pos; [|lra].
    apply Rle_trans with (IZR m); [now apply IZR_le | lra]. }
  assert (HmX : IZR m * pow2 e <= X).
  { unfold X. apply Rmult_le_compat_r; lra. }
  pose proof (ulp_small m e X Hm He HmX) as Hulp1.
  assert (HE1max : (fexp prec emax (Zdigits2 m + e) <= 971)%Z).
  { destruct (Z.eq_dec m 0) as [Hz|Hz].
    - subst m. rewrite fexp_eq in *. simpl in *. lia.
    - apply (fexp_no_overflow m e X); [lia | exact HmX |]. rewrite pow2_1024. lra. }
  destruct (shr_fexp_shift m e l Hm He) as [HM' HE1].
  unfold rounded, binary_round_aux.
  destruct (shr_fexp prec emax m e l) as [mrs' e'] eqn:S1.
  cbn [fst snd] in HM', HE1. subst e'.
  remember (fexp prec emax (Zdigits2 m + e)) as E1 eqn:HeqE1.
  remember (round_nearest_even (shr_m mrs') (loc_of_shr_record mrs')) as M1 eqn:HeqM1.
  assert (HM1 : M1 = shr_m mrs' \/ M1 = (shr_m mrs' + 1)%Z)
    by (subst M1; apply round_nearest_even_cases).
  rewrite HM' in HM1. clear HeqM1 HM' S1 mrs'.
  remember (E1 - e)%Z as n eqn:Heqn.
  assert (Hn : (0 <= n)%Z) by lia.
  destruct (div_pow2_bounds m n v Hm Hn Hv) as [Hd1 Hd2].
  remember (m / 2 ^ n)%Z as M' eqn:HeqM'.
  assert (HM'0 : (0 <= M')%Z).
  { subst M'. apply Z.div_pos; [exact Hm | apply Z.pow_pos_nonneg; lia]. }
  assert (HpE1 : pow2 E1 = pow2 n * pow2 e).
  { rewrite <- pow2_add. f_equal. lia. }
  assert (HW : IZR M' * pow2 E1 <= X < (IZR M' + 1) * pow2 E1).
  { rewrite HpE1. unfold X. rewrite <- !Rmult_assoc. split.
    - apply Rmult_le_compat_r; lra.
    - apply Rmult_lt_compat_r; lra. }
  assert (HM10 : (0 <= M1)%Z) by lia.
  assert (HW1 : - pow2 E1 <= IZR M1 * pow2 E1 - X <= pow2 E1).
  { destruct HM1 as [H1|H1]; rewrite H1; [|rewrite plus_IZR]; lra. }
  assert (HE1min : (-1074 <= E1)%Z) by (subst E1; rewrite fexp_eq; lia).
  clear HeqM' HM1 Hd1 Hd2 HW HM'0 M' Heqn Hn HpE1 n.
  remember (IZR M1 * pow2 E1) as W eqn:HeqW.
  pose proof (pow2_pos E1) as HpE1.
  rewrite pow2_m50, pow2_m1072. rewrite pow2_m52 in Hulp1.
  destruct (Z_le_gt_dec (fexp prec emax (Zdigits2 M1 + E1)) E1) as [Hk|Hs].
  - rewrite (shr_fexp_keep M1 E1 loc_Exact Hk). cbn [shr_record_of_loc shr_m].
    destruct M1 as [|p|p]; [| |lia].
    + split; [now left|]. cbn [SFmag]. rewrite Rmult_0_l in HeqW. rewrite pow2_m52. lra.
    + assert (Hle : (E1 <=? emax - prec)%Z = true) by (apply Z.leb_le; change (emax - prec)%Z with 971%Z; lia).
      rewrite Hle. split; [right; eauto|]. cbn [SFmag]. rewrite <- HeqW, pow2_m52. lra.
  - assert (HM1pos : (0 < M1)%Z).
    { destruct (Z.eq_dec M1 0) as [Hz|Hz]; [|lia].
      subst M1. rewrite fexp_eq in Hs. simpl in Hs. lia. }
    assert (HE2 : (E1 <= fexp prec emax (Zdigits2 M1 + E1))%Z) by lia.
    destruct (shr_fexp_shift M1 E1 loc_Exact HM10 HE2) as [HM2 HE2'].
    assert (HWW : IZR M1 * pow2 E1 <= W) by lra.
    pose proof (ulp_small M1 E1 W HM10 HE2 HWW) as Hulp2. rewrite pow2_m52 in Hulp2.
    assert (HWlt : W < pow2 1024) by (rewrite pow2_1024; lra).
    pose proof (fexp_no_overflow M1 E1 W HM1pos HWW HWlt) as HE2max.
    destruct (shr_fexp prec emax M1 E1 loc_Exact) as [mrs'' e''].
    cbn [fst snd] in HM2, HE2'. subst e''.
    remember (fexp prec emax (Zdigits2 M1 + E1)) as E2 eqn:HeqE2.
    remember (E2 - E1)%Z as k eqn:Heqk.
    assert (Hk : (0 <= k)%Z) by lia.
    assert (Hself : IZR M1 <= IZR M1 < IZR M1 + 1) by lra.
    destruct (div_pow2_bounds M1 k (IZR M1) HM10 Hk Hself) as [Hd1 Hd2].
    rewrite <- HM2 in Hd1, Hd2.
    assert (HM20 : (0 <= shr_m mrs'')%Z).
    { rewrite HM2. apply Z.div_pos; [exact HM10 | apply Z.pow_pos_nonneg; lia]. }
    assert (HpE2 : pow2 E2 = pow2 k * pow2 E1).
    { rewrite <- pow2_add. f_equal. lia. }
    assert (HF : IZR (shr_m mrs'') * pow2 E2 <= W < IZR (shr_m mrs'') * pow2 E2 + pow2 E2).
    { rewrite HpE2, HeqW. rewrite <- !Rmult_assoc. split.
      - apply Rmult_le_compat_r; lra.
      - replace (IZR (shr_m mrs'') * pow2 k * pow2 E1 + pow2 k * pow2 E1)
          with ((IZR (shr_m mrs'') + 1) * pow2 k * pow2 E1) by ring.
        apply Rmult_lt_compat_r; lra. }
    destruct (shr_m mrs'') as [|p|p]; [| |lia].
    + split; [now left|]. cbn [SFmag]. rewrite Rmult_0_l in HF. rewrite pow2_m52. lra.
    + assert (Hle : (E2 <=? emax - prec)%Z = true) by (apply Z.leb_le; change (emax - prec)%Z with 971%Z; lia).
      rewrite Hle. split; [right; eauto|]. cbn [SFmag]. rewrite pow2_m52. lra.
Qed.

Lemma SFmag_nonneg (F : spec_float) : 0 <= SFmag F.
Proof.
  destruct F as [s|s| |s m e]; cbn [SFmag]; try lra.
  apply Rmult_le_pos; [apply IZR_le; lia | pose proof (pow2_pos e); lra].
Qed.

Lemma SFnn_nonneg (F : spec_float) : SFnn F = true -> 0 <= SFR F.
Proof.
  destruct F as [s|s| |s m e]; cbn [SFnn SFR]; try lra; try discriminate.
  destruct s; [discriminate|]. intros _.
  apply Rmult_le_pos; [apply IZR_le; lia | pose proof (pow2_pos e); lra].
Qed.

Lemma SFnn_fin (F : spec_float) : SFnn F = true -> SFfinite F = true.
Proof. destruct F as [s|s| |s m e]; cbn; congruence. Qed.

Lemma rounded_false (F : spec_float) (X : R) :
  rounded false F X -> SFnn F = true /\ near (SFR F) X.
Proof.
  intros [Hform Hb].
  destruct Hform as [->|(M & E & ->)]; (split; [reflexivity|]); exact Hb.
Qed.

Lemma rounded_true (F : spec_float) (X : R) :
  rounded true F X -> SFfinite F = true /\ near (- SFR F) X.
Proof.
  intros [Hform Hb].
  destruct Hform as [->|(M & E & ->)]; (split; [reflexivity|]); unfold near;
    cbn [SFR SFmag] in *; lra.
Qed.

(** Rounding an integer times a power of two. *)
Lemma binary_round_bound (s : bool) (m : positive) (e : Z) :
  IZR (Zpos m) * pow2 e < pow2 1023 ->
  rounded s (binary_round prec emax s m e) (IZR (Zpos m) * pow2 e).
Proof.
  intros Hx. unfold binary_round.
  change (Zpos (digits2_pos m)) with (Zdigits2 (Zpos m)).
  destruct (Z_le_gt_dec e (fexp prec emax (Zdigits2 (Zpos m) + e))) as [Hle|Hgt].
  - rewrite (shl_align_keep m e _ Hle).
    apply (round_aux_bound s (Zpos m) e loc_Exact (IZR (Zpos m))); try lia; try lra.
  - destruct (shl_align_spec m e (fexp prec emax (Zdigits2 (Zpos m) + e)) ltac:(lia))
      as [Hm He].
    destruct (shl_align m e (fexp prec emax (Zdigits2 (Zpos m) + e))) as [mz ez].
    cbn [fst snd] in Hm, He. subst ez.
    set (f := fexp prec emax (Zdigits2 (Zpos m) + e)) in *.
    assert (Hval : IZR (Zpos mz) * pow2 f = IZR (Zpos m) * pow2 e).
    { rewrite Hm, mult_IZR, pow2_Z by lia. rewrite Rmult_assoc, <- pow2_add.
      do 2 f_equal. lia. }
    rewrite <- Hval.
    apply (round_aux_bound s (Zpos mz) f loc_Exact (IZR (Zpos mz))); try lia; try lra.
    rewrite Hm, Zdigits2_shift by lia.
    replace (Zdigits2 (Zpos m) + (e - f) + f)%Z with (Zdigits2 (Zpos m) + e)%Z by lia.
    fold f. lia.
Qed.

(** The product of two finite numbers above zero. *)
Lemma SFmul_bound (mx my : positive) (ex ey : Z) :
  SpecFloat.valid_binary prec emax (S754_finite false mx ex) = true ->
  SpecFloat.valid_binary prec emax (S754_finite false my ey) = true ->
  IZR (Zpos mx) * pow2 ex * (IZR (Zpos my) * pow2 ey) < pow2 1023 ->
  rounded false
    (SFmul prec emax (S754_finite false mx ex) (S754_finite false my ey))
    (IZR (Zpos mx) * pow2 ex * (IZR (Zpos my) * pow2 ey)).
Proof.
  intros Vx Vy Hx. cbn [SFmul xorb].
  apply valid_digits in Vx, Vy.
  assert (Hval : IZR (Zpos mx) * pow2 ex * (IZR (Zpos my) * pow2 ey)
                 = IZR (Zpos (mx * my)) * pow2 (ex + ey)).
  { rewrite Pos2Z.inj_mul, mult_IZR, pow2_add. ring. }
  rewrite Hval in *.
  apply (round_aux_bound false (Zpos (mx * my)) (ex + ey) loc_Exact (IZR (Zpos (mx * my))));
    try lia; try lra.
  pose proof (Zdigits2_mul_ge (Zpos mx) (Zpos my) ltac:(lia) ltac:(lia)) as Hd.
  rewrite <- Pos2Z.inj_mul in Hd. rewrite fexp_eq. lia.
Qed.

Lemma IZR_pos_gt (p : positive) : 0 < IZR (Zpos p).
Proof. apply IZR_lt. lia. Qed.

(** The quotient of two finite numbers above zero. *)
Lemma SFdiv_bound (mx my : positive) (ex ey : Z) :
  SpecFloat.valid_binary prec emax (S754_finite false mx ex) = true ->
  SpecFloat.valid_binary prec emax (S754_finite false my ey) = true ->
  IZR (Zpos mx) * pow2 ex / (IZR (Zpos my) * pow2 ey) < pow2 1023 ->
  rounded false
    (SFdiv prec emax (S754_finite false mx ex) (S754_finite false my ey))
    (IZR (Zpos mx) * pow2 ex / (IZR (Zpos my) * pow2 ey)).
Proof.
  intros Vx Vy Hx. cbn [SFdiv xorb]. unfold SFdiv_core_binary.
  apply valid_digits in Vx, Vy.
  set (d1 := Zdigits2 (Zpos mx)) in *. set (d2 := Zdigits2 (Zpos my)) in *.
  set (e' := Z.min (fexp prec emax (d1 + ex - (d2 + ey))) (ex - ey)).
  set (s := (ex - ey - e')%Z).
  assert (Hs : (0 <= s)%Z) by (unfold s, e'; lia).
  set (m' := match s with
             | 0%Z => Zpos mx
             | Zpos _ => Z.shiftl (Zpos mx) s
             | Zneg _ => 0%Z
             end).
  assert (Hm' : m' = (Zpos mx * 2 ^ s)%Z).
  { unfold m'. destruct s as [|p|p] eqn:Es; [rewrite Z.pow_0_r; lia | | lia].
    apply Z.shiftl_mul_pow2. lia. }
  pose proof (Z_div_mod m' (Zpos my) ltac:(lia)) as Hdm.
  destruct (Z.div_eucl m' (Zpos my)) as [q r]. destruct Hdm as [Hq Hr].
  pose proof (pow2_pos ex) as Hpex. pose proof (pow2_pos ey) as Hpey.
  pose proof (pow2_pos e') as Hpe'. pose proof (pow2_pos s) as Hps.
  pose proof (IZR_pos_gt mx) as Hmx. pose proof (IZR_pos_gt my) as Hmy.
  assert (Hp2s : (0 < 2 ^ s)%Z) by (apply Z.pow_pos_nonneg; lia).
  assert (Hq0 : (0 <= q)%Z) by nia.
  assert (Hval : IZR (Zpos mx) * pow2 ex / (IZR (Zpos my) * pow2 ey)
                 = IZR m' / IZR (Zpos my) * pow2 e').
  { rewrite Hm', mult_IZR, pow2_Z by exact Hs.
    assert (Hex : pow2 ex = pow2 s * pow2 e' * pow2 ey).
    { rewrite <- !pow2_add. f_equal. unfold s. lia. }
    rewrite Hex. field. lra. }
  rewrite Hval in *.
  apply (round_aux_bound false q e' (new_location (Zpos my) r) (IZR m' / IZR (Zpos my)));
    [exact Hq0 | | | exact Hx].
  - (* the exponent is at or below [fexp] *)
    rewrite fexp_eq.
    destruct (Z_le_gt_dec e' (-1074)) as [Hlow|Hhigh]; [lia|].
    assert (He' : e' = (d1 + ex - (d2 + ey) - 53)%Z).
    { unfold e' in *. rewrite fexp_eq in *. lia. }
    assert (Hsv : s = (53 - d1 + d2)%Z) by (unfold s; lia).
    destruct (Zdigits2_bounds (Zpos mx) ltac:(lia)) as [Hmx1 _].
    destruct (Zdigits2_bounds (Zpos my) ltac:(lia)) as [_ Hmy2].
    fold d1 in Hmx1. fold d2 in Hmy2.
    assert (Hbig : (2 ^ 52 * Zpos my <= m')%Z).
    { rewrite Hm'.
      assert (H1 : (2 ^ (d1 - 1) * 2 ^ s <= Zpos mx * 2 ^ s)%Z)
        by (apply Z.mul_le_mono_nonneg_r; lia).
      rewrite <- Z.pow_add_r in H1 by lia.
      replace (d1 - 1 + s)%Z with (52 + d2)%Z in H1 by lia.
      rewrite Z.pow_add_r in H1 by lia.
      assert (H2 : (2 ^ 52 * Zpos my <= 2 ^ 52 * 2 ^ d2)%Z)
        by (apply Z.mul_le_mono_nonneg_l; lia).
      lia. }
    assert (Hq52 : (2 ^ 52 <= q)%Z).
    { destruct (Z_le_gt_dec (2 ^ 52) q) as [Hc|Hc]; [exact Hc|]. exfalso.
      assert ((q + 1) * Zpos my <= 2 ^ 52 * Zpos my)%Z
        by (apply Z.mul_le_mono_nonneg_r; lia).
      lia. }
    pose proof (Zdigits2_ge q 52 ltac:(lia) Hq52). lia.
  - (* the quotient is between [q] and [q + 1] *)
    assert (HmR : IZR m' = IZR (Zpos my) * IZR q + IZR r).
    { rewrite Hq, plus_IZR, mult_IZR. reflexivity. }
    assert (Hr0 : 0 <= IZR r) by (apply IZR_le; lia).
    assert (Hr1 : IZR r < IZR (Zpos my)) by (apply IZR_lt; lia).
    rewrite HmR. split.
    + apply Rmult_le_reg_r with (IZR (Zpos my)); [exact Hmy|].
      unfold Rdiv. rewrite Rmult_assoc, Rinv_l by lra. lra.
    + apply Rmult_lt_reg_r with (IZR (Zpos my)); [exact Hmy|].
      unfold Rdiv. rewrite Rmult_assoc, Rinv_l by lra. lra.
Qed.

(** The aligned mantissas of a sum. *)
Lemma aligned_value (m : positive) (e ez : Z) :
  (ez <= e)%Z ->
  IZR (Zpos (fst (shl_align m e ez))) * pow2 ez = IZR (Zpos m) * pow2 e.
Proof.
  intros H. destruct (shl_align_spec m e ez H) as [-> _].
  rewrite mult_IZR, pow2_Z by lia. rewrite Rmult_assoc, <- pow2_add.
  do 2 f_equal. lia.
Qed.

(** The sum of two finite numbers above zero. *)
Lemma SFadd_bound (mx my : positive) (ex ey : Z) :
  IZR (Zpos mx) * pow2 ex + IZR (Zpos my) * pow2 ey < pow2 1023 ->
  rounded false
    (SFadd prec emax (S754_finite false mx ex) (S754_finite false my ey))
    (IZR (Zpos mx) * pow2 ex + IZR (Zpos my) * pow2 ey).
Proof.
  intros Hx. cbn [SFadd cond_Zopp].
  set (ez := Z.min ex ey).
  rewrite <- (aligned_value mx ex ez), <- (aligned_value my ey ez) in * by (unfold ez; lia).
  set (a := fst (shl_align mx ex ez)) in *. set (b := fst (shl_align my ey ez)) in *.
  change (Zpos a + Zpos b)%Z with (Zpos (a + b)). cbn [binary_normalize].
  replace (IZR (Zpos a) * pow2 ez + IZR (Zpos b) * pow2 ez)
    with (IZR (Zpos (a + b)) * pow2 ez) in *
    by (rewrite Pos2Z.inj_add, plus_IZR; ring).
  now apply binary_round_bound.
Qed.

(** The difference of two finite numbers above zero: a finite number
    within the rounding error. *)
Lemma SFsub_bound (mx my : positive) (ex ey : Z) :
  let X := IZR (Zpos mx) * pow2 ex - IZR (Zpos my) * pow2 ey in
  Rabs X < pow2 1023 ->
  let F := SFsub prec emax (S754_finite false mx ex) (S754_finite false my ey) in
  SFfinite F = true
  /\ Rabs (SFR F - X) <= pow2 (-50) * Rabs X + pow2 (-1072).
Proof.
  intros X Hx F. unfold F, X in *. clear F X. cbn [SFsub cond_Zopp].
  set (ez := Z.min ex ey).
  rewrite <- (aligned_value mx ex ez), <- (aligned_value my ey ez) in * by (unfold ez; lia).
  set (a := fst (shl_align mx ex ez)) in *. set (b := fst (shl_align my ey ez)) in *.
  replace (IZR (Zpos a) * pow2 ez - IZR (Zpos b) * pow2 ez)
    with (IZR (Zpos a - Zpos b) * pow2 ez) in *
    by (rewrite minus_IZR; ring).
  pose proof (pow2_pos ez) as Hez. pose proof (pow2_pos (-1072)) as Hh.
  destruct (Zpos a - Zpos b)%Z as [|p|p]; cbn [binary_normalize].
  - split; [reflexivity|]. cbn [SFR]. rewrite Rmult_0_l, Rminus_diag, Rabs_R0. lra.
  - assert (H0 : 0 < IZR (Zpos p) * pow2 ez)
      by (apply Rmult_lt_0_compat; [apply IZR_pos_gt | exact Hez]).
    rewrite (Rabs_pos_eq _ (Rlt_le _ _ H0)) in Hx |- *.
    destruct (rounded_false _ _ (binary_round_bound false p ez Hx)) as [Hnn Hnear].
    split; [now apply SFnn_fin|]. apply Rabs_le. exact Hnear.
  - assert (H0 : 0 < IZR (Zpos p) * pow2 ez)
      by (apply Rmult_lt_0_compat; [apply IZR_pos_gt | exact Hez]).
    assert (Hneg : IZR (Zneg p) * pow2 ez = - (IZR (Zpos p) * pow2 ez)).
    { change (Zneg p) with (- Zpos p)%Z. rewrite opp_IZR. ring. }
    rewrite Hneg in Hx |- *.
    rewrite Rabs_Ropp, (Rabs_pos_eq _ (Rlt_le _ _ H0)) in Hx |- *.
    destruct (rounded_true _ _ (binary_round_bound true p ez Hx)) as [Hfin Hnear].
    split; [exact Hfin|]. apply Rabs_le. unfold near in Hnear. lra.
Qed.

Lemma near_refl (X : R) : 0 <= X -> near X X.
Proof.
  intros HX. unfold near. pose proof (pow2_pos (-50)). pose proof (pow2_pos (-1072)).
  assert (0 <= pow2 (-50) * X) by (apply Rmult_le_pos; lra). lra.
Qed.

Lemma valid_SF (x : float) : SpecFloat.valid_binary prec emax (Prim2SF x) = true.
Proof. exact (FloatAxioms.Prim2SF_valid x). Qed.

Lemma finite_value_pos (m : positive) (e : Z) : 0 < IZR (Zpos m) * pow2 e.
Proof. apply Rmult_lt_0_compat; [apply IZR_pos_gt | apply pow2_pos]. Qed.

Lemma value_nonneg (x : float) : nonneg x -> 0 <= value x.
Proof. apply SFnn_nonneg. Qed.

Lemma mul_near (x y : float) :
  nonneg x -> nonneg y -> value x * value y < pow2 1023 ->
  nonneg (x * y) /\ near (value (x * y)) (value x * value y).
Proof.
  unfold nonneg, value. rewrite FloatAxioms.mul_spec. unfold SF64mul.
  pose proof (valid_SF x) as Vx. pose proof (valid_SF y) as Vy.
  destruct (Prim2SF x) as [sx|sx| |sx mx ex], (Prim2SF y) as [sy|sy| |sy my ey];
    cbn [SFnn]; try discriminate; intros Hx Hy Hb.
  - cbn [SFmul SFR SFnn]. split; [reflexivity|]. rewrite Rmult_0_l. apply near_refl; lra.
  - cbn [SFmul SFR SFnn]. split; [reflexivity|]. rewrite Rmult_0_l. apply near_refl; lra.
  - cbn [SFmul SFR SFnn]. split; [reflexivity|]. rewrite Rmult_0_r. apply near_refl; lra.
  - destruct sx, sy; try discriminate. cbn [SFR] in *.
    apply rounded_false. now apply SFmul_bound.
Qed.

Lemma div_near (x y : float) :
  nonneg x -> nonneg y -> 0 < value y -> value x / value y < pow2 1023 ->
  nonneg (x / y) /\ near (value (x / y)) (value x / value y).
Proof.
  unfold nonneg, value. rewrite FloatAxioms.div_spec. unfold SF64div.
  pose proof (valid_SF x) as Vx. pose proof (valid_SF y) as Vy.
  destruct (Prim2SF x) as [sx|sx| |sx mx ex], (Prim2SF y) as [sy|sy| |sy my ey];
    cbn [SFnn]; try discriminate; intros Hx Hy Hpos Hb; cbn [SFR] in Hpos; try lra.
  - cbn [SFdiv SFR SFnn]. split; [reflexivity|].
    unfold Rdiv. rewrite Rmult_0_l. apply near_refl; lra.
  - destruct sx, sy; try discriminate. cbn [SFR] in *.
    apply rounded_false. now apply SFdiv_bound.
Qed.

Lemma add_near (x y : float) :
  nonneg x -> nonneg y -> value x + value y < pow2 1023 ->
  nonneg (x + y) /\ near (value (x + y)) (value x + value y).
Proof.
  unfold nonneg, value. rewrite FloatAxioms.add_spec. unfold SF64add.
  pose proof (valid_SF x) as Vx. pose proof (valid_SF y) as Vy.
  destruct (Prim2SF x) as [sx|sx| |sx mx ex], (Prim2SF y) as [sy|sy| |sy my ey];
    cbn [SFnn]; try discriminate; intros Hx Hy Hb.
  - split; [destruct sx, sy; reflexivity|].
    replace (SFR (SFadd prec emax (S754_zero sx) (S754_zero sy))) with 0
      by (destruct sx, sy; reflexivity).
    cbn [SFR]. rewrite Rplus_0_l. apply near_refl; lra.
  - destruct sy; try discriminate. cbn [SFadd SFnn SFR negb].
    split; [reflexivity|]. rewrite Rplus_0_l. apply near_refl.
    pose proof (finite_value_pos my ey). lra.
  - destruct sx; try discriminate. cbn [SFadd SFnn SFR negb].
    split; [reflexivity|]. rewrite Rplus_0_r. apply near_refl.
    pose proof (finite_value_pos mx ex). lra.
  - destruct sx, sy; try discriminate. cbn [SFR] in *.
    apply rounded_false. now apply SFadd_bound.
Qed.

Lemma sub_near (x y : float) :
  nonneg x -> nonneg y -> Rabs (value x - value y) < pow2 1023 ->
  SFfinite (Prim2SF (x - y)) = true
  /\ Rabs (value (x - y) - (value x - value y))
     <= pow2 (-50) * Rabs (value x - value y) + pow2 (-1072).
Proof.
  unfold nonneg, value. rewrite FloatAxioms.sub_spec. unfold SF64sub.
  pose proof (valid_SF x) as Vx. pose proof (valid_SF y) as Vy.
  pose proof (pow2_pos (-50)) as Hu. pose proof (pow2_pos (-1072)) as Hh.
  assert (Hzero : forall X, Rabs (X - X) <= pow2 (-50) * Rabs X + pow2 (-1072)).
  { intros X. rewrite Rminus_diag, Rabs_R0.
    pose proof (Rabs_pos X). assert (0 <= pow2 (-50) * Rabs X) by (apply Rmult_le_pos; lra).
    lra. }
  destruct (Prim2SF x) as [sx|sx| |sx mx ex], (Prim2SF y) as [sy|sy| |sy my ey];
    cbn [SFnn]; try discriminate; intros Hx Hy Hb.
  - split; [destruct sx, sy; reflexivity|].
    replace (SFR (SFsub prec emax (S754_zero sx) (S754_zero sy))) with 0
      by (destruct sx, sy; reflexivity).
    cbn [SFR]. replace (0 - 0) with 0 by lra. apply (Hzero 0).
  - destruct sy; try discriminate. cbn [SFsub SFfinite SFR negb].
    split; [reflexivity|].
    replace (0 - IZR (Zpos my) * pow2 ey) with (- (IZR (Zpos my) * pow2 ey)) by lra.
    apply Hzero.
  - destruct sx; try discriminate. cbn [SFsub SFfinite SFR negb].
    split; [reflexivity|].
    replace (IZR (Zpos mx) * pow2 ex - 0) with (IZR (Zpos mx) * pow2 ex) by lra.
    apply Hzero.
  - destruct sx, sy; try discriminate. cbn [SFR] in *.
    now apply SFsub_bound.
Qed.

Lemma abs_value (x : float) :
  SFfinite (Prim2SF x) = true ->
  nonneg (PrimFloat.abs x) /\ value (PrimFloat.abs x) = Rabs (value x).
Proof.
  unfold nonneg, value. rewrite FloatAxioms.abs_spec.
  destruct (Prim2SF x) as [s|s| |s m e]; cbn [SFfinite SFabs SFnn SFR negb];
    try discriminate; intros _.
  - split; [reflexivity|]. now rewrite Rabs_R0.
  - split; [reflexivity|]. pose proof (finite_value_pos m e).
    destruct s; [rewrite Rabs_Ropp|]; now rewrite Rabs_pos_eq by lra.
Qed.

(** A smaller exponent is a smaller number. *)
Lemma lower_exponent (m1 m2 : positive) (e1 e2 : Z) :
  SpecFloat.valid_binary prec emax (S754_finite false m1 e1) = true ->
  SpecFloat.valid_binary prec emax (S754_finite false m2 e2) = true ->
  (e1 < e2)%Z ->
  IZR (Zpos m1) * pow2 e1 < IZR (Zpos m2) * pow2 e2.
Proof.
  intros V1 V2 He. apply valid_digits in V1, V2.
  destruct (Zdigits2_bounds (Zpos m1) ltac:(lia)) as [_ H1].
  destruct (Zdigits2_bounds (Zpos m2) ltac:(lia)) as [H2 _].
  assert (Hd2 : Zdigits2 (Zpos m2) = 53%Z) by lia. rewrite Hd2 in H2.
  assert (H1' : (Zpos m1 < 2 ^ 53)%Z).
  { apply Z.lt_le_trans with (1 := H1). apply Z.pow_le_mono_r; lia. }
  apply IZR_lt in H1'. apply IZR_le in H2.
  rewrite pow2_Z in H1', H2 by lia.
  pose proof (pow2_pos e1). pose proof (pow2_pos e2).
  apply Rlt_le_trans with (pow2 53 * pow2 e1); [apply Rmult_lt_compat_r; lra|].
  apply Rle_trans with (pow2 (53 - 1) * pow2 e2); [|apply Rmult_le_compat_r; lra].
  rewrite <- !pow2_add. apply pow2_le. lia.
Qed.

Lemma SFcompare_nn (x y : spec_float) :
  SFnn x = true -> SFnn y = true ->
  SpecFloat.valid_binary prec emax x = true -> SpecFloat.valid_binary prec emax y = true ->
  match SFcompare x y with
  | Some Lt => SFR x < SFR y
  | Some Eq => SFR x = SFR y
  | Some Gt => SFR y < SFR x
  | None => False
  end.
Proof.
  destruct x as [sx|sx| |sx mx ex], y as [sy|sy| |sy my ey];
    cbn [SFnn]; try discriminate; intros Hx Hy Vx Vy.
  - reflexivity.
  - destruct sy; [discriminate|]. cbn [SFcompare SFR]. apply finite_value_pos.
  - destruct sx; [discriminate|]. cbn [SFcompare SFR]. apply finite_value_pos.
  - destruct sx, sy; try discriminate. cbn [SFcompare SFR].
    destruct (Z.compare_spec ex ey) as [He|He|He].
    + subst ey. change (Pos.compare_cont Eq mx my) with (Pos.compare mx my).
      pose proof (pow2_pos ex).
      destruct (Pos.compare_spec mx my) as [Hm|Hm|Hm].
      * now subst.
      * apply Rmult_lt_compat_r; [lra|]. apply IZR_lt. lia.
      * apply Rmult_lt_compat_r; [lra|]. apply IZR_lt. lia.
    + now apply lower_exponent.
    + now apply lower_exponent.
Qed.

Lemma ltb_intro (x y : float) :
  nonneg x -> nonneg y -> value x < value y -> PrimFloat.ltb x y = true.
Proof.
  unfold nonneg, value. intros Hx Hy Hlt. rewrite FloatAxioms.ltb_spec. unfold SFltb.
  pose proof (SFcompare_nn _ _ Hx Hy (valid_SF x) (valid_SF y)) as H.
  destruct (SFcompare (Prim2SF x) (Prim2SF y)) as [[| |]|]; try reflexivity; try lra.
Qed.

Lemma leb_elim (x y : float) :
  nonneg x -> nonneg y -> PrimFloat.leb x y = true -> value x <= value y.
Proof.
  unfold nonneg, value. intros Hx Hy. rewrite FloatAxioms.leb_spec. unfold SFleb.
  pose proof (SFcompare_nn _ _ Hx Hy (valid_SF x) (valid_SF y)) as H.
  destruct (SFcompare (Prim2SF x) (Prim2SF y)) as [[| |]|]; try discriminate; lra.
Qed.

(** A number between zero and a finite number is a zero or a finite number
    above zero. *)
Lemma nonneg_between (x c : float) :
  PrimFloat.leb PrimFloat.zero x = true -> PrimFloat.leb x c = true ->
  nonneg c -> nonneg x.
Proof.
  unfold nonneg. rewrite !FloatAxioms.leb_spec. unfold SFleb.
  change (Prim2SF PrimFloat.zero) with (S754_zero false).
  destruct (Prim2SF x) as [sx|sx| |sx mx ex], (Prim2SF c) as [sc|sc| |sc mc ec];
    cbn [SFcompare SFnn]; try discriminate; try reflexivity;
    destruct sx; try discriminate; try reflexivity; destruct sc; discriminate.
Qed.

End RoundingFacts.

(* ================================================================== *)
(** * The total of the points and the sums of the shares *)
(* ================================================================== *)

Module AllocationSums.

Import FloatValue AllocationSpec RoundingFacts CalculationUtils.

Lemma truthy_SF (x : number) :
  JSNumber.truthy x
  = match Prim2SF x with
    | S754_zero _ | S754_nan => false
    | _ => true
    end.
Proof.
  unfold JSNumber.truthy, PrimFloat.is_zero, PrimFloat.is_nan.
  rewrite !FloatAxioms.eqb_spec. change (Prim2SF PrimFloat.zero) with (S754_zero false).
  unfold SFeqb.
  destruct (Prim2SF x) as [s|s| |s m e]; cbn [SFcompare]; try reflexivity.
  - destruct s; reflexivity.
  - destruct s; rewrite Z.compare_refl;
      change (Pos.compare_cont Eq m m) with (Pos.compare m m);
      rewrite Pos.compare_refl; reflexivity.
Qed.

(** Adding a zero of either sign to a number other than [-0] gives the
    same. *)
Lemma add_zero_sign (acc x : number) (s : bool) :
  Prim2SF acc <> S754_zero true ->
  Prim2SF x = S754_zero s ->
  (acc + x)%float = (acc + PrimFloat.zero)%float.
Proof.
  intros Hacc Hx. apply Prim2SF_inj. rewrite !FloatAxioms.add_spec, Hx.
  change (Prim2SF PrimFloat.zero) with (S754_zero false). unfold SF64add.
  destruct (Prim2SF acc) as [sa|sa| |sa ma ea]; cbn [SFadd]; try reflexivity.
  destruct sa; [congruence|]. destruct s; reflexivity.
Qed.

Lemma add_not_neg_zero (acc x : number) :
  Prim2SF acc <> S754_zero true -> Prim2SF (acc + x) <> S754_zero true.
Proof.
  intros Hacc H. apply Hacc. rewrite FloatAxioms.add_spec in H.
  exact (SFadd_neg_zero _ _ (FloatAxioms.Prim2SF_valid acc) (FloatAxioms.Prim2SF_valid x) H).
Qed.

Lemma sum_of_nan (l : list ShiftEmployeeInput.t) (acc : number) :
  Prim2SF acc = S754_nan ->
  Prim2SF (fold_left (fun sum employee => (sum + ShiftEmployeeInput.points employee)%float)
                     l acc) = S754_nan.
Proof.
  revert acc. induction l as [|e l IH]; intros acc Hacc; [exact Hacc|].
  cbn [fold_left]. apply IH. rewrite FloatAxioms.add_spec, Hacc. reflexivity.
Qed.

Lemma add_nan (acc x : number) :
  Prim2SF x = S754_nan -> Prim2SF (acc + x) = S754_nan.
Proof.
  intros Hx. rewrite FloatAxioms.add_spec, Hx. unfold SF64add.
  destruct (Prim2SF acc) as [sa|sa| |sa ma ea]; reflexivity.
Qed.

(** When the sum of the points is above zero, it is the total the
    allocator computes: [points || 0] differs from [points] for [NaN],
    which makes the sum [NaN], and for [-0], which adds nothing to a sum
    that is never [-0]. *)
Lemma total_is_sum_from (l : list ShiftEmployeeInput.t) (acc : number) :
  Prim2SF acc <> S754_zero true ->
  PrimFloat.ltb PrimFloat.zero
    (fold_left (fun sum employee => (sum + ShiftEmployeeInput.points employee)%float)
               l acc) = true ->
  fold_left
    (fun sum employee =>
       (sum + JSNumber.or_else (ShiftEmployeeInput.points employee) PrimFloat.zero)%float)
    l acc
  = fold_left (fun sum employee => (sum + ShiftEmployeeInput.points employee)%float) l acc.
Proof.
  revert acc. induction l as [|e l IH]; intros acc Hacc Hpos; [reflexivity|].
  cbn [fold_left] in *.
  assert (Hstep : (acc + JSNumber.or_else (ShiftEmployeeInput.points e) PrimFloat.zero)%float
                  = (acc + ShiftEmployeeInput.points e)%float).
  { unfold JSNumber.or_else. rewrite truthy_SF.
    destruct (Prim2SF (ShiftEmployeeInput.points e)) as [s|s| |s m ex] eqn:Ep;
      try reflexivity.
    - symmetry. exact (add_zero_sign acc _ s Hacc Ep).
    - exfalso.
      rewrite FloatAxioms.ltb_spec, (sum_of_nan l _ (add_nan acc _ Ep)) in Hpos.
      discriminate Hpos. }
  rewrite Hstep. apply IH; [|exact Hpos]. now apply add_not_neg_zero.
Qed.

Lemma total_is_sum (employees : list ShiftEmployeeInput.t) :
  PrimFloat.ltb PrimFloat.zero (pointsSum employees) = true ->
  calculateTotalPoints employees = pointsSum employees.
Proof.
  intros Hpos. apply total_is_sum_from; [|exact Hpos]. discriminate.
Qed.

Local Open Scope R_scope.

Lemma pow2_neg (n : Z) : (0 <= n)%Z -> pow2 (- n) = / IZR (2 ^ n).
Proof.
  intros Hn. pose proof (pow2_opp n) as H. rewrite <- (pow2_Z n) in H by exact Hn.
  assert (Hp : 0 < IZR (2 ^ n)) by (apply IZR_lt, Z.pow_pos_nonneg; lia).
  apply Rmult_eq_reg_r with (IZR (2 ^ n)); [|lra]. rewrite H. field. lra.
Qed.

Lemma rounding_unit : pow2 (-50) <= 1e-15.
Proof.
  change (-50)%Z with (- (50))%Z. rewrite pow2_neg by lia.
  change (2 ^ 50)%Z with 1125899906842624%Z. lra.
Qed.

Lemma rounding_floor : pow2 (-1072) <= 1e-30.
Proof.
  apply Rle_trans with (pow2 (- (100))); [apply pow2_le; lia|].
  rewrite pow2_neg by lia.
  change (2 ^ 100)%Z with 1267650600228229401496703205376%Z. lra.
Qed.

Lemma range_large : 1e30 < pow2 1023.
Proof.
  apply Rlt_le_trans with (pow2 100); [|apply pow2_le; lia].
  rewrite <- pow2_Z by lia.
  change (2 ^ 100)%Z with 1267650600228229401496703205376%Z. lra.
Qed.

Lemma near_numeric (x X : R) :
  0 <= X -> near x X ->
  X - (X * 1e-15 + 1e-30) <= x <= X + (X * 1e-15 + 1e-30).
Proof.
  unfold near. intros HX H.
  pose proof rounding_unit as Hu. pose proof rounding_floor as Hc.
  assert (pow2 (-50) * X <= 1e-15 * X) by (apply Rmult_le_compat_r; lra).
  lra.
Qed.

Lemma literal_value (c : float) (m : positive) (n : Z) :
  Prim2SF c = S754_finite false m (- n) -> (0 <= n)%Z ->
  value c = IZR (Zpos m) / IZR (2 ^ n).
Proof.
  intros Hc Hn. unfold value. rewrite Hc. cbn [SFR]. rewrite pow2_neg by exact Hn.
  reflexivity.
Qed.

Lemma value_zero : value PrimFloat.zero = 0.
Proof. reflexivity. Qed.

Lemma value_million : value 1e6%float = 1e6.
Proof.
  rewrite (literal_value _ 8589934592000000 33) by (reflexivity || lia).
  change (2 ^ 33)%Z with 8589934592%Z. lra.
Qed.

Lemma value_billion : value 1e9%float = 1e9.
Proof.
  rewrite (literal_value _ 8388608000000000 23) by (reflexivity || lia).
  change (2 ^ 23)%Z with 8388608%Z. lra.
Qed.

Lemma value_millionth : 9e-7 <= value 1e-6%float.
Proof.
  rewrite (literal_value _ 4722366482869645 72) by (reflexivity || lia).
  change (2 ^ 72)%Z with 4722366482869645213696%Z. lra.
Qed.

Lemma value_tolerance : 0.0199 <= value tolerance.
Proof.
  unfold tolerance.
  rewrite (literal_value _ 5764607523034235 58) by (reflexivity || lia).
  change (2 ^ 58)%Z with 288230376151711744%Z. lra.
Qed.

Lemma Rsum_nonneg (l : list R) : Forall (fun x => 0 <= x) l -> 0 <= Rsum l.
Proof.
  induction 1 as [|x l Hx _ IH]; cbn [Rsum fold_right]; [lra|].
  fold (Rsum l). lra.
Qed.

Lemma or_else_value (p : float) :
  nonneg p ->
  nonneg (JSNumber.or_else p PrimFloat.zero)
  /\ value (JSNumber.or_else p PrimFloat.zero) = value p.
Proof.
  unfold nonneg, value, JSNumber.or_else. rewrite truthy_SF.
  destruct (Prim2SF p) as [s|s| |s m e] eqn:Ep; cbn [SFnn]; try discriminate; intros H.
  - split; reflexivity.
  - rewrite Ep. split; [exact H | reflexivity].
Qed.

(** A sum of numbers that are not negative, taken from the left: the
    result is within [2 n] rounding errors of the sum of the reals. *)
Lemma fold_near (A : Type) (f : A -> float) (l : list A) :
  forall acc,
  nonneg acc -> Forall (fun a => nonneg (f a)) l ->
  (List.length l <= 1000)%nat ->
  value acc + Rsum (map (fun a => value (f a)) l) + INR (List.length l) <= 1e12 ->
  nonneg (fold_left (fun s a => (s + f a)%float) l acc)
  /\ (value acc + Rsum (map (fun a => value (f a)) l))
     - INR (List.length l) * (2 * ((value acc + Rsum (map (fun a => value (f a)) l)) * 1e-15
                              + 1e-30))
     <= value (fold_left (fun s a => (s + f a)%float) l acc)
     <= (value acc + Rsum (map (fun a => value (f a)) l))
        + INR (List.length l) * (2 * ((value acc + Rsum (map (fun a => value (f a)) l)) * 1e-15
                                 + 1e-30)).
Proof.
  induction l as [|a l IH]; intros acc Hacc Hall Hlen Hbound.
  - cbn [fold_left map Rsum fold_right List.length INR]. split; [exact Hacc|]. lra.
  - inversion Hall as [|? ? Ha Hl]; subst.
    cbn [fold_left map Rsum fold_right List.length] in *. fold (Rsum (map (fun a => value (f a)) l)) in *.
    rewrite S_INR in *.
    set (S0 := Rsum (map (fun a => value (f a)) l)) in *.
    assert (HS0 : 0 <= S0).
    { apply Rsum_nonneg. rewrite Forall_map. 
      eapply Forall_impl; [|exact Hl]. intros x Hx. now apply value_nonneg. }
    pose proof (value_nonneg _ Hacc) as Hva. pose proof (value_nonneg _ Ha) as Hx.
    pose proof (pos_INR (List.length l)) as HK.
    assert (HK1 : INR (List.length l) <= 999).
    { replace 999 with (INR 999) by (simpl; lra). apply le_INR. lia. }
    pose proof range_large as Hbig.
    destruct (add_near acc (f a) Hacc Ha ltac:(lra)) as [Hacc' Hnear].
    apply near_numeric in Hnear; [|lra].
    destruct (IH (acc + f a)%float Hacc' Hl ltac:(lia) ltac:(fold S0; lra)) as [Hr Hb].
    fold S0 in Hb. split; [exact Hr|].
    set (vr := value (fold_left (fun s a0 => (s + f a0)%float) l (acc + f a)%float)) in *.
    set (va' := value (acc + f a)%float) in *.
    set (total := value acc + (value (f a) + S0)).
    set (E := total * 1e-15 + 1e-30).
    assert (HE : 0 <= E) by (unfold E, total; lra).
    assert (Hin : (va' + S0) * 1e-15 + 1e-30 <= E * (1 + 1e-15)) by (unfold E, total; lra).
    assert (HP : INR (List.length l) * (2 * ((va' + S0) * 1e-15 + 1e-30))
                 <= INR (List.length l) * (2 * (E * (1 + 1e-15)))).
    { apply Rmult_le_compat_l; lra. }
    assert (HP2 : INR (List.length l) * E <= 999 * E) by (apply Rmult_le_compat_r; lra).
    assert (HP0 : 0 <= INR (List.length l) * E) by (apply Rmult_le_pos; lra).
    replace (INR (List.length l) * (2 * (E * (1 + 1e-15))))
      with (2 * (1 + 1e-15) * (INR (List.length l) * E)) in HP by ring.
    replace ((INR (List.length l) + 1) * (2 * E))
      with (2 * (INR (List.length l) * E) + 2 * E) by ring.
    set (P := INR (List.length l) * E) in *.
    set (Q0 := INR (List.length l) * (2 * ((va' + S0) * 1e-15 + 1e-30))) in *.
    unfold total in *. lra.
Qed.

Lemma div_le_bound (p t b : R) : 0 < t -> p <= b * t -> p / t <= b.
Proof.
  intros Ht H. apply Rmult_le_reg_r with t; [exact Ht|].
  unfold Rdiv. rewrite Rmult_assoc, Rinv_l by lra. lra.
Qed.

Lemma div_ge_bound (p t b : R) : 0 < t -> b * t <= p -> b <= p / t.
Proof.
  intros Ht H. apply Rmult_le_reg_r with t; [exact Ht|].
  unfold Rdiv. rewrite Rmult_assoc, Rinv_l by lra. lra.
Qed.

(** The share of one line: the pool times the points over the total, within
    three rounding errors. *)
Lemma share_near (pool total points : float) :
  nonneg pool -> value pool <= 1e9 ->
  nonneg total -> 9e-7 <= value total ->
  nonneg points -> value points <= 1e6 ->
  nonneg (pool * (points / total))
  /\ value pool * (value points / value total)
     - (value pool * (value points / value total) * 3e-15 + 1e-20)
     <= value (pool * (points / total))
     <= value pool * (value points / value total)
        + (value pool * (value points / value total) * 3e-15 + 1e-20).
Proof.
  intros Hpool Hpool9 Htotal Htotal6 Hpoints Hpoints6.
  pose proof (value_nonneg _ Hpool) as Hd0. pose proof (value_nonneg _ Hpoints) as Hp0.
  pose proof range_large as Hbig.
  set (Q0 := value points / value total).
  assert (HQ0 : 0 <= Q0) by (apply div_ge_bound; lra).
  assert (HQ1 : Q0 <= 1.2e12) by (apply div_le_bound; lra).
  destruct (div_near points total Hpoints Htotal ltac:(lra) ltac:(fold Q0; lra))
    as [Hq Hqnear].
  fold Q0 in Hqnear. apply near_numeric in Hqnear; [|exact HQ0].
  set (vq := value (points / total)) in *.
  assert (Hvq0 : 0 <= vq) by (apply value_nonneg; exact Hq).
  assert (Hprod : value pool * vq <= 1e9 * 1.3e12).
  { apply Rmult_le_compat; lra. }
  destruct (mul_near pool (points / total) Hpool Hq ltac:(fold vq; lra)) as [Ha Hanear].
  fold vq in Hanear.
  assert (HM0 : 0 <= value pool * vq) by (apply Rmult_le_pos; lra).
  apply near_numeric in Hanear; [|exact HM0].
  split; [exact Ha|].
  assert (HR0 : 0 <= value pool * Q0) by (apply Rmult_le_pos; lra).
  assert (Hup : value pool * vq <= value pool * (Q0 + (Q0 * 1e-15 + 1e-30)))
    by (apply Rmult_le_compat_l; lra).
  assert (Hlo : value pool * (Q0 - (Q0 * 1e-15 + 1e-30)) <= value pool * vq)
    by (apply Rmult_le_compat_l; lra).
  replace (value pool * (Q0 + (Q0 * 1e-15 + 1e-30)))
    with (value pool * Q0 * (1 + 1e-15) + value pool * 1e-30) in Hup by ring.
  replace (value pool * (Q0 - (Q0 * 1e-15 + 1e-30)))
    with (value pool * Q0 * (1 - 1e-15) - value pool * 1e-30) in Hlo by ring.
  set (R0 := value pool * Q0) in *. set (M := value pool * vq) in *.
  lra.
Qed.

Lemma Rsum_scale (A : Type) (g : A -> R) (d t : R) (l : list A) :
  Rsum (map (fun a => d * (g a / t)) l) = d * (Rsum (map g l) / t).
Proof.
  induction l as [|a l IH]; cbn [map Rsum fold_right].
  - unfold Rdiv. ring.
  - fold (Rsum (map (fun a => d * (g a / t)) l)). fold (Rsum (map g l)).
    rewrite IH. unfold Rdiv. ring.
Qed.

(** A sum of terms each near its own: the sums are near. *)
Lemma Rsum_near (A : Type) (f g : A -> R) (l : list A) :
  Forall (fun a => g a - (g a * 3e-15 + 1e-20) <= f a <= g a + (g a * 3e-15 + 1e-20)) l ->
  Rsum (map g l) - (Rsum (map g l) * 3e-15 + INR (List.length l) * 1e-20)
  <= Rsum (map f l)
  <= Rsum (map g l) + (Rsum (map g l) * 3e-15 + INR (List.length l) * 1e-20).
Proof.
  induction 1 as [|a l Ha _ IH]; cbn [map Rsum fold_right List.length].
  - simpl. lra.
  - fold (Rsum (map f l)). fold (Rsum (map g l)). rewrite S_INR. lra.
Qed.

Lemma fold_left_map_add (A : Type) (g : A -> float) (l : list A) (acc : float) :
  fold_left (fun s x => (s + x)%float) (map g l) acc
  = fold_left (fun s a => (s + g a)%float) l acc.
Proof.
  revert acc. induction l as [|a l IH]; intros acc; [reflexivity|].
  cbn [map fold_left]. apply IH.
Qed.


Lemma pointsInRange_value (employee : ShiftEmployeeInput.t) :
  pointsInRange employee ->
  nonneg (ShiftEmployeeInput.points employee)
  /\ value (ShiftEmployeeInput.points employee) <= 1e6.
Proof.
  intros [H0 H1].
  assert (Hc : nonneg 1e6%float) by reflexivity.
  pose proof (nonneg_between _ _ H0 H1 Hc) as Hnn.
  split; [exact Hnn|]. rewrite <- value_million. now apply leb_elim.
Qed.

(** The sum of the shares of a pool is within 0.006 of the pool. *)
Lemma shares_sum_near (employees : list ShiftEmployeeInput.t) (pool : float) :
  (List.length employees <= 1000)%nat ->
  Forall pointsInRange employees ->
  PrimFloat.leb 1e-6 (calculateTotalPoints employees) = true ->
  PrimFloat.leb PrimFloat.zero pool = true ->
  PrimFloat.leb pool 1e9 = true ->
  let shares :=
    fold_left
      (fun sum employee =>
         (sum + pool * (ShiftEmployeeInput.points employee
                        / calculateTotalPoints employees))%float)
      employees PrimFloat.zero in
  nonneg pool /\ nonneg shares /\ Rabs (value pool - value shares) <= 6e-3.
Proof.
  intros Hlen Hall Htot Hp0 Hp9 shares.
  assert (Hall' : Forall (fun e => nonneg (ShiftEmployeeInput.points e)
                                   /\ value (ShiftEmployeeInput.points e) <= 1e6)
                         employees).
  { eapply Forall_impl; [|exact Hall]. intros e. apply pointsInRange_value. }
  (* the pool *)
  assert (Hb9 : nonneg 1e9%float) by reflexivity.
  pose proof (nonneg_between _ _ Hp0 Hp9 Hb9) as Hpool.
  pose proof (leb_elim _ _ Hpool Hb9 Hp9) as Hpool9. rewrite value_billion in Hpool9.
  pose proof (value_nonneg _ Hpool) as Hd0.
  (* the total *)
  set (P := Rsum (map (fun e => value (ShiftEmployeeInput.points e)) employees)).
  assert (HP0 : 0 <= P).
  { apply Rsum_nonneg. rewrite Forall_map.
    eapply Forall_impl; [|exact Hall']. intros e [He _]. now apply value_nonneg. }
  assert (HPmax : P <= INR (List.length employees) * 1e6).
  { unfold P. clear -Hall'. induction Hall' as [|e l [_ He] _ IH];
      cbn [map Rsum fold_right List.length]; [simpl; lra|].
    fold (Rsum (map (fun e => value (ShiftEmployeeInput.points e)) l)).
    rewrite S_INR. lra. }
  assert (HK : INR (List.length employees) <= 1000).
  { replace 1000 with (INR 1000) by (simpl; lra). now apply le_INR. }
  pose proof (pos_INR (List.length employees)) as HK0.
  assert (Htotal :
            nonneg (calculateTotalPoints employees)
            /\ P - INR (List.length employees) * (2 * (P * 1e-15 + 1e-30))
               <= value (calculateTotalPoints employees)
               <= P + INR (List.length employees) * (2 * (P * 1e-15 + 1e-30))).
  { unfold calculateTotalPoints.
    pose proof (fold_near _
                  (fun e => JSNumber.or_else (ShiftEmployeeInput.points e) PrimFloat.zero)
                  employees PrimFloat.zero) as H.
    assert (Hmap : map (fun e => value (JSNumber.or_else (ShiftEmployeeInput.points e)
                                          PrimFloat.zero)) employees
                   = map (fun e => value (ShiftEmployeeInput.points e)) employees).
    { apply map_ext_in. intros e He. rewrite Forall_forall in Hall'.
      now apply or_else_value, Hall'. }
    cbv beta in H. rewrite Hmap, value_zero in H. fold P in H. rewrite !Rplus_0_l in H.
    apply H; [reflexivity | | exact Hlen | lra].
    eapply Forall_impl; [|exact Hall']. intros e [He _]. now apply or_else_value. }
  destruct Htotal as [HT Htb].
  set (T := calculateTotalPoints employees) in *.
  assert (Htiny : nonneg 1e-6%float) by reflexivity.
  pose proof (leb_elim _ _ Htiny HT Htot) as HT6.
  pose proof value_millionth as Hm.
  assert (HTmin : 9e-7 <= value T) by lra.
  assert (HKP : INR (List.length employees) * (2 * (P * 1e-15 + 1e-30))
                <= 1000 * (2 * (P * 1e-15 + 1e-30)))
    by (apply Rmult_le_compat_r; lra).
  assert (HKP0 : 0 <= INR (List.length employees) * (2 * (P * 1e-15 + 1e-30)))
    by (apply Rmult_le_pos; lra).
  set (KP := INR (List.length employees) * (2 * (P * 1e-15 + 1e-30))) in *.
  (* the ratio of the sum of the points to the total *)
  set (rho := P / value T).
  assert (Hrho1 : rho <= 1 + 3e-12) by (apply div_le_bound; lra).
  assert (Hrho0 : 1 - 3e-12 <= rho) by (apply div_ge_bound; lra).
  (* the shares *)
  pose (share := fun e : ShiftEmployeeInput.t =>
                   (pool * (ShiftEmployeeInput.points e / T))%float).
  assert (Hshare : Forall (fun e =>
                     nonneg (share e)
                     /\ value pool * (value (ShiftEmployeeInput.points e) / value T)
                        - (value pool * (value (ShiftEmployeeInput.points e) / value T)
                           * 3e-15 + 1e-20)
                        <= value (share e)
                        <= value pool * (value (ShiftEmployeeInput.points e) / value T)
                           + (value pool * (value (ShiftEmployeeInput.points e) / value T)
                              * 3e-15 + 1e-20)) employees).
  { eapply Forall_impl; [|exact Hall']. intros e [He He6].
    now apply share_near. }
  set (A0 := Rsum (map (fun e => value (share e)) employees)).
  assert (HA : value pool * rho - (value pool * rho * 3e-15
                                   + INR (List.length employees) * 1e-20)
               <= A0
               <= value pool * rho + (value pool * rho * 3e-15
                                      + INR (List.length employees) * 1e-20)).
  { unfold rho, P.
    rewrite <- (Rsum_scale _ (fun e => value (ShiftEmployeeInput.points e))
                  (value pool) (value T) employees).
    apply (Rsum_near _ (fun e => value (share e))
             (fun e => value pool * (value (ShiftEmployeeInput.points e) / value T))).
    eapply Forall_impl; [|exact Hshare]. intros e [_ He]. exact He. }
  assert (Hdr : value pool * (rho - 1) <= value pool * 3e-12)
    by (apply Rmult_le_compat_l; lra).
  assert (Hdr' : value pool * (- 3e-12) <= value pool * (rho - 1))
    by (apply Rmult_le_compat_l; lra).
  replace (value pool * (rho - 1)) with (value pool * rho - value pool) in Hdr, Hdr' by ring.
  set (DR := value pool * rho) in *.
  assert (HA0 : 0 <= A0).
  { apply Rsum_nonneg. rewrite Forall_map.
    eapply Forall_impl; [|exact Hshare]. intros e [He _]. now apply value_nonneg. }
  assert (HKc : INR (List.length employees) * 1e-20 <= 1000 * 1e-20)
    by (apply Rmult_le_compat_r; lra).
  set (Kc := INR (List.length employees) * 1e-20) in *.
  destruct (fold_near _ share employees PrimFloat.zero) as [HS HSb];
    [reflexivity | | exact Hlen | | ].
  - eapply Forall_impl; [|exact Hshare]. intros e [He _]. exact He.
  - rewrite value_zero. fold A0. lra.
  - rewrite value_zero, !Rplus_0_l in HSb. fold A0 in HSb.
    change (fold_left (fun s a => (s + share a)%float) employees PrimFloat.zero)
      with shares in HS, HSb.
    assert (HKA : INR (List.length employees) * (2 * (A0 * 1e-15 + 1e-30))
                  <= 1000 * (2 * (A0 * 1e-15 + 1e-30)))
      by (apply Rmult_le_compat_r; lra).
    assert (HKA0 : 0 <= INR (List.length employees) * (2 * (A0 * 1e-15 + 1e-30)))
      by (apply Rmult_le_pos; lra).
    set (KA := INR (List.length employees) * (2 * (A0 * 1e-15 + 1e-30))) in *.
    split; [exact Hpool|]. split; [exact HS|].
    apply Rabs_le. lra.
Qed.

(** A pool whose shares add up to within 0.006 of it passes the
    validation. *)
Lemma within_tolerance (pool shares : float) :
  nonneg pool -> nonneg shares -> Rabs (value pool - value shares) <= 6e-3 ->
  withinTolerance pool shares = true.
Proof.
  intros Hpool Hshares Hdiff. unfold withinTolerance, JSNumber.lt.
  pose proof range_large as Hbig.
  destruct (sub_near pool shares Hpool Hshares ltac:(lra)) as [Hfin Hnear].
  destruct (abs_value (pool - shares)%float Hfin) as [Hnn Habs].
  apply ltb_intro; [exact Hnn | reflexivity |].
  rewrite Habs. pose proof value_tolerance as Htol.
  pose proof rounding_unit as Hu. pose proof rounding_floor as Hc.
  pose proof (Rabs_pos (value pool - value shares)) as H0.
  assert (Hprod : pow2 (-50) * Rabs (value pool - value shares)
                  <= 1e-15 * Rabs (value pool - value shares))
    by (apply Rmult_le_compat_r; lra).
  pose proof (Rabs_triang_inv (value (pool - shares)%float) (value pool - value shares)) as Ht.
  lra.
Qed.

Lemma distributed_shares (field : TipLine.t -> number)
    (line : ShiftEmployeeInput.t -> TipLine.t) (employees : list ShiftEmployeeInput.t) :
  distributed field (map line employees)
  = fold_left (fun sum employee => (sum + field (line employee))%float)
              employees PrimFloat.zero.
Proof.
  unfold distributed. generalize PrimFloat.zero.
  induction employees as [|e l IH]; intros acc; [reflexivity|].
  cbn [map fold_left]. apply IH.
Qed.

End AllocationSums.

(* ================================================================== *)
(** * The shift store: deletion, update and what an update leaves alone *)
(* ================================================================== *)

Import MemStorage StoreSpec.

(** C9.  [deleteShift(id)] removes the shift record and every line whose
    [shiftId] is [id]: afterwards [getShift(id)] finds nothing,
    [getShiftEmployees(id)] is the empty list, and no entry of the line map
    refers to the shift.  This holds in every store and for every [id]. *)
Theorem deleteShift_removes_shift_and_lines (st : MemStorage.t) (id : Z) :
  getShift (deleteShift st id) id = None
  /\ getShiftEmployees (deleteShift st id) id = []
  /\ (forall e, In e (shiftEmployees (deleteShift st id)) ->
       ShiftEmployee.shiftId (snd e) <> id).
Proof.
  destruct (ShiftLifecycle.deleteShift_store st id) as (_ & Hs & Hse & _).
  assert (Hnone : forall e, In e (shiftEmployees (deleteShift st id)) ->
                            ShiftEmployee.shiftId (snd e) <> id).
  { intros e He. rewrite Hse in He.
    exact (MemStorageFacts.deleteKeys_none_left id _ e He). }
  split; [|split].
  - unfold getShift. rewrite Hs. apply JSMapFacts.get_delete_same.
  - unfold getShiftEmployees, JSMap.values. revert Hnone.
    generalize (shiftEmployees (deleteShift st id)). intros l.
    induction l as [|e m IH]; intros Hnone; [reflexivity|].
    simpl. destruct (ShiftEmployee.shiftId (snd e) =? id) eqn:E.
    + apply Z.eqb_eq in E. exfalso. apply (Hnone e); [now left | exact E].
    + apply IH. intros e' He'. apply Hnone. now right.
  - exact Hnone.
Qed.

(** The other shifts and their lines are not touched by a deletion. *)
Lemma deleteShift_frame (st : MemStorage.t) (id k : Z) :
  wf st -> k <> id ->
  getShift (deleteShift st id) k = getShift st k
  /\ getShiftEmployees (deleteShift st id) k = getShiftEmployees st k.
Proof.
  intros Hwf Hne.
  destruct (ShiftLifecycle.deleteShift_store st id) as (_ & Hs & Hse & _).
  split.
  - unfold getShift. rewrite Hs. now apply JSMapFacts.get_delete_other.
  - unfold getShiftEmployees. rewrite Hse.
    rewrite MemStorageFacts.deleteKeys_of_shift by apply Hwf.
    now apply ShiftLifecycle.lines_kept.
Qed.

(** Reading the lines of a shift after its update. *)
Lemma updateShift_replaces_lines_of
    (st : MemStorage.t) (id : Z) (existingShift : Shift.t)
    (shiftData : PartialInsertShift.t) (lines : list InsertShiftEmployee.t) :
  reachable st ->
  getShift st id = Some existingShift ->
  exists st' result,
    updateShift st id shiftData lines = Returned (st', result)
    /\ getShiftEmployees st' id = numbered (shiftEmployee (ids st)) id lines.
Proof.
  intros Hr Hget. pose proof (ShiftLifecycle.reachable_wf st Hr) as Hwf.
  destruct (ShiftLifecycle.updateShift_store st id existingShift shiftData lines Hwf Hget)
    as (st' & results & Heq & _ & _ & Hse & _ & _).
  exists st', (ShiftResult.mk (mergeShift existingShift shiftData) results).
  split; [exact Heq|].
  unfold getShiftEmployees. rewrite Hse, ShiftLifecycle.values_app, filter_app.
  fold (ofShift id).
  now rewrite ShiftLifecycle.lines_removed, ShiftLifecycle.lines_numbered.
Qed.

(** C4.  In every state of the store in which shift [id] is saved, whatever
    the number of its lines, [updateShift] with the lines [lines] returns,
    and [getShiftEmployees(id)] then gives exactly the new lines: one per
    submitted line and in their order, each saying what the submitted line
    says, under shift [id] and under consecutive fresh identifiers; no line
    the shift had before the update is among them. *)
Theorem updateShift_replaces_all_lines
    (st : MemStorage.t) (id : Z) (existingShift : Shift.t)
    (shiftData : PartialInsertShift.t) (lines : list InsertShiftEmployee.t) :
  reachable st ->
  getShift st id = Some existingShift ->
  exists st' result,
    updateShift st id shiftData lines = Returned (st', result)
    /\ getShiftEmployees st' id = numbered (shiftEmployee (ids st)) id lines
    /\ List.length (getShiftEmployees st' id) = List.length lines
    /\ (forall se, In se (getShiftEmployees st id) ->
                   ~ In se (getShiftEmployees st' id))
    /\ map storedFields (getShiftEmployees st' id) = map submittedFields lines
    /\ map ShiftEmployee.shiftId (getShiftEmployees st' id)
       = repeat id (List.length lines)
    /\ map ShiftEmployee.id (getShiftEmployees st' id)
       = identifiers (shiftEmployee (ids st)) (List.length lines)
    /\ (forall se, In se (getShiftEmployees st id) ->
                   ~ In (ShiftEmployee.id se)
                        (identifiers (shiftEmployee (ids st)) (List.length lines))).
Proof.
  intros Hr Hget. pose proof (ShiftLifecycle.reachable_wf st Hr) as Hwf.
  destruct (updateShift_replaces_lines_of st id existingShift shiftData lines Hr Hget)
    as (st' & result & Heq & Hread).
  assert (Hold : forall se, In se (getShiftEmployees st id) ->
                            ShiftEmployee.id se < shiftEmployee (ids st)).
  { intros se Hse. unfold getShiftEmployees in Hse.
    apply filter_In in Hse. destruct Hse as [Hse _].
    unfold JSMap.values in Hse. apply in_map_iff in Hse.
    destruct Hse as (e & <- & He).
    destruct Hwf as [Hall _]. rewrite Forall_forall in Hall.
    specialize (Hall e He). lia. }
  exists st', result.
  split; [exact Heq|]. split; [exact Hread|]. split; [|split; [|split; [|split; [|split]]]].
  - rewrite Hread. apply ShiftLifecycle.numbered_length.
  - intros se Hse Hnew. rewrite Hread in Hnew.
    apply ShiftLifecycle.numbered_shiftId in Hnew. destruct Hnew as [_ Hge].
    specialize (Hold se Hse). lia.
  - rewrite Hread. apply ShiftLifecycle.numbered_fields.
  - rewrite Hread. apply ShiftLifecycle.numbered_shiftIds.
  - rewrite Hread. apply ShiftLifecycle.numbered_ids.
  - intros se Hse Hin. specialize (Hold se Hse).
    apply ShiftLifecycle.identifiers_from in Hin. lia.
Qed.

(** A shift saved with two lines and updated with one line has one line,
    which says what was submitted. *)
Lemma updateShift_replaces_all_lines_witness :
  List.length (getShiftEmployees Sample.saved 1) = 2%nat
  /\ exists st' result,
       updateShift Sample.saved 1 Sample.newDate
         [Sample.line 15 "17:00" "21:00" 4 4 0 0] = Returned (st', result)
       /\ getShiftEmployees st' 1
          = [ShiftEmployee.mk 3 1 15 "Server" 1 "17:00" "21:00" 4 4 0 0]
       /\ (forall se, In se (getShiftEmployees Sample.saved 1) ->
                      ~ In se (getShiftEmployees st' 1)).
Proof.
  split; [reflexivity|].
  destruct (updateShift_replaces_all_lines Sample.saved 1
              (Shift.mk 1 "2024-05-01" "Dinner" 80 20 20 1700000000000)
              Sample.newDate [Sample.line 15 "17:00" "21:00" 4 4 0 0])
    as (st' & result & Heq & _ & Hlen & Hnone & Hfields & Hshift & Hids & _).
  - unfold Sample.saved, Sample.staffed.
    apply reach_addShift, reach_addEmployee, reach_addEmployee, reach_empty.
  - reflexivity.
  - exists st', result. split; [exact Heq|]. split; [|exact Hnone].
    destruct (getShiftEmployees st' 1) as [|se [|se' rest]]; try discriminate Hlen.
    cbn in Hfields, Hshift, Hids.
    destruct se as [i sh e p pv ci co h pt d c].
    unfold storedFields, submittedFields, Sample.line in Hfields.
    cbn in Hfields, Hshift, Hids.
    apply (f_equal (@hd _ (0, EmptyString, PrimFloat.zero, EmptyString, EmptyString,
                           PrimFloat.zero, PrimFloat.zero, PrimFloat.zero,
                           PrimFloat.zero))) in Hfields.
    cbn [hd] in Hfields.
    repeat (apply pair_equal_spec in Hfields; destruct Hfields as [Hfields ?]).
    assert (Hi : i = 3) by (apply (f_equal (@hd _ 0)) in Hids; exact Hids).
    assert (Hs : sh = 1) by (apply (f_equal (@hd _ 0)) in Hshift; exact Hshift).
    subst. reflexivity.
Defined.

(** C10.  [updateShift] on an existing shift returns and keeps the shift's
    [id] and [createdAt]; each metadata field is the supplied value, or the
    old one where none is supplied; the employees, the other shifts and the
    lines of the other shifts are as before. *)
Theorem updateShift_keeps_id_and_createdAt
    (st : MemStorage.t) (id : Z) (existingShift : Shift.t)
    (shiftData : PartialInsertShift.t) (lines : list InsertShiftEmployee.t) :
  reachable st ->
  getShift st id = Some existingShift ->
  exists st' result,
    updateShift st id shiftData lines = Returned (st', result)
    /\ getShift st' id = Some (ShiftResult.shift result)
    /\ Shift.id (ShiftResult.shift result) = Shift.id existingShift
    /\ Shift.createdAt (ShiftResult.shift result) = Shift.createdAt existingShift
    /\ Shift.date (ShiftResult.shift result)
       = spread (Shift.date existingShift) (PartialInsertShift.date shiftData)
    /\ Shift.type (ShiftResult.shift result)
       = spread (Shift.type existingShift) (PartialInsertShift.type shiftData)
    /\ Shift.creditCardTips (ShiftResult.shift result)
       = spread (Shift.creditCardTips existingShift)
                (PartialInsertShift.creditCardTips shiftData)
    /\ Shift.houseTips (ShiftResult.shift result)
       = spread (Shift.houseTips existingShift) (PartialInsertShift.houseTips shiftData)
    /\ Shift.cashTips (ShiftResult.shift result)
       = spread (Shift.cashTips existingShift) (PartialInsertShift.cashTips shiftData)
    /\ employees st' = employees st
    /\ (forall k, k <> id ->
          getShift st' k = getShift st k
          /\ getShiftEmployees st' k = getShiftEmployees st k).
Proof.
  intros Hr Hget. pose proof (ShiftLifecycle.reachable_wf st Hr) as Hwf.
  destruct (ShiftLifecycle.updateShift_store st id existingShift shiftData lines Hwf Hget)
    as (st' & results & Heq & He & Hs & Hse & _ & _).
  exists st', (ShiftResult.mk (mergeShift existingShift shiftData) results).
  cbn [ShiftResult.shift].
  split; [exact Heq|].
  split; [unfold getShift; rewrite Hs; apply JSMapFacts.get_set_same|].
  do 7 (split; [reflexivity|]).
  split; [exact He|].
  intros k Hk. split.
  - unfold getShift. rewrite Hs. now apply JSMapFacts.get_set_other.
  - unfold getShiftEmployees. rewrite Hse, ShiftLifecycle.values_app, filter_app.
    fold (ofShift k).
    rewrite ShiftLifecycle.lines_kept, ShiftLifecycle.lines_numbered_other by assumption.
    apply app_nil_r.
Qed.

(** The update of the sample shift keeps identifier [1] and the creation
    time, takes the new date and cash pool, and keeps the other pools. *)
Lemma updateShift_keeps_id_and_createdAt_witness :
  exists st' result,
    updateShift Sample.saved 1 Sample.newDate [] = Returned (st', result)
    /\ ShiftResult.shift result
       = Shift.mk 1 "2024-05-02" "Dinner" 80 20 40 1700000000000.
Proof.
  destruct (updateShift_keeps_id_and_createdAt Sample.saved 1
              (Shift.mk 1 "2024-05-01" "Dinner" 80 20 20 1700000000000)
              Sample.newDate [])
    as (st' & result & Heq & _ & Hid & Hc & Hd & Ht & Hcc & Hh & Hca & _).
  - unfold Sample.saved, Sample.staffed.
    apply reach_addShift, reach_addEmployee, reach_addEmployee, reach_empty.
  - reflexivity.
  - exists st', result. split; [exact Heq|].
    destruct result as [[i d t c h ca cr] rs]. simpl in *. congruence.
Defined.

(* ================================================================== *)
(** * Hours worked: no rounding, overnight shifts, rounding *)
(* ================================================================== *)

Import TimeUtils NumberSpec.

(** With no third argument the default granularity of 15 minutes applies:
    a shift from 09:00 to 16:07 comes out as 7 hours, not as its raw
    7 hours 7 minutes. *)
Lemma calculateHoursWorked_absent_rounds :
  calculateHoursWorked Sample.utcMidnight Sample.strict "09:00" "16:07" None = 7%float
  /\ rawHours Sample.utcMidnight Sample.strict "09:00" "16:07"
     = 0x1.c777777777777p+2%float
  /\ PrimFloat.eqb
       (calculateHoursWorked Sample.utcMidnight Sample.strict "09:00" "16:07" None)
       (rawHours Sample.utcMidnight Sample.strict "09:00" "16:07") = false.
Proof. vm_compute. repeat split. Qed.

(** C6, as the code has it.  With a granularity of [0] the result is the
    raw hours, unrounded ([0] when a clock time is empty).  With the
    granularity absent the default of 15 minutes applies: the call is the
    call with granularity [15]. *)
Theorem calculateHoursWorked_zero_or_absent
    (localMidnight : Z) (dateParse : string -> JSDate.t) (clockIn clockOut : string) :
  calculateHoursWorked localMidnight dateParse clockIn clockOut (Some PrimFloat.zero)
  = (if (String.eqb clockIn "" || String.eqb clockOut "")%bool then PrimFloat.zero
     else rawHours localMidnight dateParse clockIn clockOut)
  /\ calculateHoursWorked localMidnight dateParse clockIn clockOut None
     = calculateHoursWorked localMidnight dateParse clockIn clockOut (Some 15%float).
Proof.
  split.
  - unfold calculateHoursWorked, applyRounding.
    replace (JSNumber.gt PrimFloat.zero PrimFloat.zero) with false by reflexivity.
    reflexivity.
  - reflexivity.
Qed.

(** C7.  For clock times with the clock-out before the clock-in, the hours
    before rounding are those from the clock-in to the clock-out moved 24
    hours later, and they are zero or above; with any granularity, or none
    given, the result is the rounding of these hours and is not negative.
    From 22:00 to 02:00 with granularity [0] the result is 4. *)
Theorem calculateHoursWorked_overnight
    (localMidnight : Z) (dateParse : string -> JSDate.t)
    (clockIn clockOut : string) (tin tout : Z)
    (roundingMinutes : option number) :
  JSDate.parse_time clockIn = Some tin ->
  JSDate.parse_time clockOut = Some tout ->
  tout < tin ->
  rawHours localMidnight dateParse clockIn clockOut
  = (JSNumber.of_Z (tout + 24 * 60 * 60 * 1000 - tin) / msPerHour)%float
  /\ PrimFloat.leb PrimFloat.zero (rawHours localMidnight dateParse clockIn clockOut) = true
  /\ calculateHoursWorked localMidnight dateParse clockIn clockOut roundingMinutes
     = applyRounding
         match roundingMinutes with Some g => g | None => defaultRoundingMinutes end
         (rawHours localMidnight dateParse clockIn clockOut)
  /\ PrimFloat.ltb
       (calculateHoursWorked localMidnight dateParse clockIn clockOut roundingMinutes)
       PrimFloat.zero = false
  /\ calculateHoursWorked localMidnight dateParse "22:00" "02:00" (Some PrimFloat.zero)
     = 4%float.
Proof.
  intros Hin Hout Hlt.
  pose proof (TimeFacts.parse_time_bounds _ _ Hin) as Bin.
  pose proof (TimeFacts.parse_time_bounds _ _ Hout) as Bout.
  pose proof (TimeFacts.rawHours_parsed localMidnight dateParse _ _ _ _ Hin Hout) as Hraw.
  assert (Hlen : shiftLength tin tout = tout + 24 * 60 * 60 * 1000 - tin).
  { unfold shiftLength. apply Z.ltb_lt in Hlt. now rewrite Hlt. }
  rewrite Hlen in Hraw.
  assert (Habove : zeroOrAbove (rawHours localMidnight dateParse clockIn clockOut) = true).
  { rewrite Hraw. apply TimeFacts.hours_zeroOrAbove. lia. }
  assert (Hcalc : calculateHoursWorked localMidnight dateParse clockIn clockOut
                    roundingMinutes
                  = applyRounding
                      match roundingMinutes with
                      | Some g => g
                      | None => defaultRoundingMinutes
                      end
                      (rawHours localMidnight dateParse clockIn clockOut)).
  { unfold calculateHoursWorked.
    now rewrite (TimeFacts.parse_time_not_empty _ _ Hin),
                (TimeFacts.parse_time_not_empty _ _ Hout). }
  split; [exact Hraw|].
  split; [now apply NumberFacts.zeroOrAbove_le|].
  split; [exact Hcalc|].
  split.
  - rewrite Hcalc. apply NumberFacts.notNegative_not_lt.
    apply TimeFacts.applyRounding_notNegative.
    now apply NumberFacts.zeroOrAbove_notNegative.
  - rewrite (TimeFacts.calculateHoursWorked_parsed localMidnight dateParse "22:00" "02:00"
               79200000 7200000 (Some PrimFloat.zero)) by reflexivity.
    reflexivity.
Qed.

(** From 22:00 to 02:00, on the UTC day, with granularity [0]. *)
Lemma calculateHoursWorked_overnight_witness :
  calculateHoursWorked Sample.utcMidnight Sample.strict "22:00" "02:00"
    (Some PrimFloat.zero) = 4%float
  /\ PrimFloat.ltb
       (calculateHoursWorked Sample.utcMidnight Sample.strict "22:00" "02:00"
          (Some PrimFloat.zero))
       PrimFloat.zero = false.
Proof.
  destruct (calculateHoursWorked_overnight Sample.utcMidnight Sample.strict
              "22:00" "02:00" 79200000 7200000 (Some PrimFloat.zero))
    as (_ & _ & _ & Hnot & Hfour).
  - reflexivity.
  - reflexivity.
  - lia.
  - split; [exact Hfour | exact Hnot].
Defined.




(* ================================================================== *)
(** * The tip allocator: zero points, shares, validation *)
(* ================================================================== *)

Import CalculationUtils.

(** Two lines without points: the allocator returns no lines, and both
    validation flags are [true]. *)
Lemma calculateEmployeeTips_zero_points_valid :
  let employees := [Sample.input 3 0; Sample.input 15 0] in
  JSNumber.strict_eq (calculateTotalPoints employees) PrimFloat.zero = true
  /\ results (calculateEmployeeTips employees 100 20) = []
  /\ digital (validationOf (calculateEmployeeTips employees 100 20)) = true
  /\ cash (validationOf (calculateEmployeeTips employees 100 20)) = true.
Proof. vm_compute. repeat split. Qed.

(** C1, as the code has it.  When the points sum to zero,
    [calculateEmployeeTips] returns no line at all, so no [NaN] or infinite
    allocation, with both validation flags [true]; the calculate-tips route
    answers 400, "Total points cannot be zero". *)
Theorem zero_total_points_rejected
    (st : MemStorage.t) (shiftData : ShiftInput.t) (digitalTipsTotal cashTipsTotal : number) :
  (JSNumber.strict_eq (calculateTotalPoints (ShiftInput.employees shiftData))
                      PrimFloat.zero = true ->
   calculateEmployeeTips (ShiftInput.employees shiftData) digitalTipsTotal cashTipsTotal
   = mkAllocation [] (mkValidation true true))
  /\ (JSNumber.strict_eq
        (fold_left (fun sum emp => (sum + ShiftEmployeeInput.points emp)%float)
                   (ShiftInput.employees shiftData) PrimFloat.zero)
        PrimFloat.zero = true ->
      Routes.calculateTips st shiftData
      = Routes.mkResponse 400 (Routes.Message "Total points cannot be zero")).
Proof.
  split.
  - intros Hutil. unfold calculateEmployeeTips. now rewrite Hutil.
  - intros Hroute. unfold Routes.calculateTips. now rewrite Hroute.
Qed.

Lemma zero_total_points_rejected_witness :
  calculateEmployeeTips [Sample.input 3 0; Sample.input 15 0] 100 20
  = mkAllocation [] (mkValidation true true)
  /\ Routes.calculateTips Sample.staffed
       (ShiftInput.mk "2024-05-01" "Dinner" 80 20 20
          [Sample.input 3 0; Sample.input 15 0])
     = Routes.mkResponse 400 (Routes.Message "Total points cannot be zero").
Proof.
  destruct (zero_total_points_rejected Sample.staffed
              (ShiftInput.mk "2024-05-01" "Dinner" 80 20 20
                 [Sample.input 3 0; Sample.input 15 0]) 100 20)
    as [Hutil Hroute].
  split.
  - apply Hutil. reflexivity.
  - apply Hroute. reflexivity.
Defined.

(** C2.  When the sum of the points of the lines is above zero, it is the
    total the allocator divides by, and the allocator returns one line per
    input line, in the order of the input; the line at each position
    carries the employee, position, hours and points of the input line at
    that position, and its tips are the pools times the line's points over
    the sum of the points.  For points 3 and 1 with pools 100 and 20 the
    lines get 75 and 15, and 25 and 5. *)
Theorem calculateEmployeeTips_shares
    (employees : list ShiftEmployeeInput.t) (digitalTipsTotal cashTipsTotal : number) :
  PrimFloat.ltb PrimFloat.zero (AllocationSpec.pointsSum employees) = true ->
  let totalPoints := AllocationSpec.pointsSum employees in
  let allocated := results (calculateEmployeeTips employees digitalTipsTotal cashTipsTotal) in
  calculateTotalPoints employees = totalPoints
  /\ List.length allocated = List.length employees
  /\ (forall i employee,
        nth_error employees i = Some employee ->
        exists line,
          nth_error allocated i = Some line
          /\ TipLine.employeeId line = ShiftEmployeeInput.employeeId employee
          /\ TipLine.position line = ShiftEmployeeInput.position employee
          /\ TipLine.hours line = ShiftEmployeeInput.hoursWorked employee
          /\ TipLine.points line = ShiftEmployeeInput.points employee
          /\ TipLine.digitalTips line
             = share digitalTipsTotal (ShiftEmployeeInput.points employee) totalPoints
          /\ TipLine.cashTips line
             = share cashTipsTotal (ShiftEmployeeInput.points employee) totalPoints)
  /\ map (fun line => (TipLine.employeeId line, TipLine.digitalTips line, TipLine.cashTips line))
         (results (calculateEmployeeTips [Sample.input 3 3; Sample.input 15 1] 100 20))
     = [(3, 75%float, 15%float); (15, 25%float, 5%float)].
Proof.
  intros Hpos totalPoints allocated.
  pose proof (AllocationSums.total_is_sum employees Hpos) as Htotal.
  fold totalPoints in Htotal.
  assert (Hres : allocated
                 = map (tipLine digitalTipsTotal cashTipsTotal totalPoints) employees).
  { unfold allocated, calculateEmployeeTips, JSNumber.strict_eq. rewrite Htotal.
    unfold totalPoints. now rewrite (NumberFacts.gt_zero_not_eq _ Hpos). }
  split; [exact Htotal|]. split; [|split].
  - rewrite Hres. apply length_map.
  - intros i employee Hi.
    exists (tipLine digitalTipsTotal cashTipsTotal totalPoints employee).
    split; [rewrite Hres; now apply map_nth_error|].
    repeat split.
  - reflexivity.
Qed.

(** Points 3 and 1: the sum 4 is the total, and the second line gets a
    quarter of each pool. *)
Lemma calculateEmployeeTips_shares_witness :
  calculateTotalPoints [Sample.input 3 3; Sample.input 15 1] = 4%float
  /\ List.length (results (calculateEmployeeTips [Sample.input 3 3; Sample.input 15 1] 100 20))
     = 2%nat
  /\ exists line,
       nth_error (results (calculateEmployeeTips [Sample.input 3 3; Sample.input 15 1] 100 20)) 1
       = Some line
       /\ TipLine.employeeId line = 15
       /\ TipLine.digitalTips line = 25%float
       /\ TipLine.cashTips line = 5%float.
Proof.
  destruct (calculateEmployeeTips_shares [Sample.input 3 3; Sample.input 15 1] 100 20)
    as (Htotal & Hlen & Hnth & _).
  - reflexivity.
  - split; [rewrite Htotal; reflexivity|]. split; [exact Hlen|].
    destruct (Hnth 1%nat (Sample.input 15 1) eq_refl)
      as (line & Hline & Hid & _ & _ & _ & Hd & Hc).
    exists line. repeat split; assumption.
Defined.

(** With a digital pool of [1e15] and points 2, 3 and 1 the total is above
    zero, yet the allocated digital tips add up to 999999999999999.875: the
    difference from the pool is 0.125, and the digital flag is [false]. *)
Lemma calculateEmployeeTips_sum_outside_tolerance :
  let employees := [Sample.input 3 2; Sample.input 15 3; Sample.input 30 1] in
  let allocation := calculateEmployeeTips employees 1e15 20 in
  PrimFloat.ltb PrimFloat.zero (calculateTotalPoints employees) = true
  /\ distributed TipLine.digitalTips (results allocation) = 999999999999999.875%float
  /\ PrimFloat.abs (1e15 - distributed TipLine.digitalTips (results allocation)) = 0.125%float
  /\ PrimFloat.ltb 0.125 tolerance = false
  /\ digital (validationOf allocation) = false.
Proof. vm_compute. repeat split. Qed.

(** Points that overflow the total: the shares are zero, nothing is
    allocated, and both flags are [false]. *)
Lemma calculateEmployeeTips_overflowing_points :
  let employees := [Sample.input 3 0x1p+1023; Sample.input 15 0x1p+1023] in
  let allocation := calculateEmployeeTips employees 100 20 in
  calculateTotalPoints employees = PrimFloat.infinity
  /\ map TipLine.digitalTips (results allocation) = [0%float; 0%float]
  /\ validationOf allocation = mkValidation false false.
Proof. vm_compute. repeat split. Qed.

(** C3, as the code has it.  When the total of the points is above zero,
    the allocator returns (it never throws), and its two validation flags
    are exactly the comparisons of the pools with the sums of the allocated
    tips: a flag is [true] if and only if the absolute difference is below
    the tolerance 0.02.  For at most a thousand lines with points between 0
    and a million, a total of at least a millionth and pools between 0 and
    a billion, the sum of the allocated tips is within 0.006 of its pool,
    for both pools, and both flags are [true]. *)
Theorem calculateEmployeeTips_validation
    (employees : list ShiftEmployeeInput.t) (digitalTipsTotal cashTipsTotal : number) :
  PrimFloat.ltb PrimFloat.zero (calculateTotalPoints employees) = true ->
  let allocation := calculateEmployeeTips employees digitalTipsTotal cashTipsTotal in
  let distributedDigital := distributed TipLine.digitalTips (results allocation) in
  let distributedCash := distributed TipLine.cashTips (results allocation) in
  tolerance = 0.02%float
  /\ digital (validationOf allocation)
     = PrimFloat.ltb (PrimFloat.abs (digitalTipsTotal - distributedDigital)) tolerance
  /\ cash (validationOf allocation)
     = PrimFloat.ltb (PrimFloat.abs (cashTipsTotal - distributedCash)) tolerance
  /\ (digital (validationOf allocation) = true <->
      PrimFloat.ltb (PrimFloat.abs (digitalTipsTotal - distributedDigital)) 0.02 = true)
  /\ (cash (validationOf allocation) = true <->
      PrimFloat.ltb (PrimFloat.abs (cashTipsTotal - distributedCash)) 0.02 = true)
  /\ ((List.length employees <= 1000)%nat ->
      Forall AllocationSpec.pointsInRange employees ->
      PrimFloat.leb 1e-6 (calculateTotalPoints employees) = true ->
      PrimFloat.leb PrimFloat.zero digitalTipsTotal = true ->
      PrimFloat.leb digitalTipsTotal 1e9 = true ->
      PrimFloat.leb PrimFloat.zero cashTipsTotal = true ->
      PrimFloat.leb cashTipsTotal 1e9 = true ->
      (Rabs (FloatValue.value digitalTipsTotal - FloatValue.value distributedDigital)
       <= 6 / 1000)%R
      /\ (Rabs (FloatValue.value cashTipsTotal - FloatValue.value distributedCash)
          <= 6 / 1000)%R
      /\ validationOf allocation = mkValidation true true).
Proof.
  intros Hpos allocation distributedDigital distributedCash.
  assert (Halloc : allocation
                   = mkAllocation
                       (map (tipLine digitalTipsTotal cashTipsTotal
                               (calculateTotalPoints employees)) employees)
                       (mkValidation
                          (withinTolerance digitalTipsTotal
                             (distributed TipLine.digitalTips
                                (map (tipLine digitalTipsTotal cashTipsTotal
                                        (calculateTotalPoints employees)) employees)))
                          (withinTolerance cashTipsTotal
                             (distributed TipLine.cashTips
                                (map (tipLine digitalTipsTotal cashTipsTotal
                                        (calculateTotalPoints employees)) employees))))).
  { unfold allocation, calculateEmployeeTips, JSNumber.strict_eq.
    now rewrite (NumberFacts.gt_zero_not_eq _ Hpos). }
  assert (Hd : digital (validationOf allocation)
               = PrimFloat.ltb (PrimFloat.abs (digitalTipsTotal - distributedDigital))
                               tolerance).
  { unfold distributedDigital. rewrite Halloc. reflexivity. }
  assert (Hc : cash (validationOf allocation)
               = PrimFloat.ltb (PrimFloat.abs (cashTipsTotal - distributedCash)) tolerance).
  { unfold distributedCash. rewrite Halloc. reflexivity. }
  split; [reflexivity|]. split; [exact Hd|]. split; [exact Hc|].
  split; [rewrite Hd; split; intros H; exact H|].
  split; [rewrite Hc; split; intros H; exact H|].
  intros Hlen Hall Hmin Hd0 Hd9 Hc0 Hc9.
  destruct (AllocationSums.shares_sum_near employees digitalTipsTotal
              Hlen Hall Hmin Hd0 Hd9) as (Hdpool & Hdsum & Hdnear).
  destruct (AllocationSums.shares_sum_near employees cashTipsTotal
              Hlen Hall Hmin Hc0 Hc9) as (Hcpool & Hcsum & Hcnear).
  assert (Hdd : distributedDigital
                = fold_left
                    (fun sum employee =>
                       (sum + digitalTipsTotal
                              * (ShiftEmployeeInput.points employee
                                 / calculateTotalPoints employees))%float)
                    employees PrimFloat.zero).
  { unfold distributedDigital. rewrite Halloc. cbn [results].
    apply AllocationSums.distributed_shares. }
  assert (Hdc : distributedCash
                = fold_left
                    (fun sum employee =>
                       (sum + cashTipsTotal
                              * (ShiftEmployeeInput.points employee
                                 / calculateTotalPoints employees))%float)
                    employees PrimFloat.zero).
  { unfold distributedCash. rewrite Halloc. cbn [results].
    apply AllocationSums.distributed_shares. }
  rewrite <- Hdd in Hdsum, Hdnear. rewrite <- Hdc in Hcsum, Hcnear.
  assert (Hsix : (6e-3 = 6 / 1000)%R) by lra.
  rewrite Hsix in Hdnear, Hcnear.
  split; [exact Hdnear|]. split; [exact Hcnear|].
  rewrite <- Hsix in Hdnear, Hcnear.
  pose proof (AllocationSums.within_tolerance _ _ Hdpool Hdsum Hdnear) as Hdflag.
  pose proof (AllocationSums.within_tolerance _ _ Hcpool Hcsum Hcnear) as Hcflag.
  unfold withinTolerance, JSNumber.lt in Hdflag, Hcflag.
  rewrite <- Hd in Hdflag. rewrite <- Hc in Hcflag.
  destruct (validationOf allocation) as [d c]. cbn [digital cash] in Hdflag, Hcflag.
  now rewrite Hdflag, Hcflag.
Qed.

(** Points 3 and 1 with pools 100 and 20 are within the ranges: the sums
    are within 0.006 of the pools and both flags are [true]. *)
Lemma calculateEmployeeTips_validation_witness :
  validationOf (calculateEmployeeTips [Sample.input 3 3; Sample.input 15 1] 100 20)
  = mkValidation true true
  /\ (Rabs (FloatValue.value 100
            - FloatValue.value
                (distributed TipLine.digitalTips
                   (results (calculateEmployeeTips
                               [Sample.input 3 3; Sample.input 15 1] 100 20))))
      <= 6 / 1000)%R.
Proof.
  destruct (calculateEmployeeTips_validation [Sample.input 3 3; Sample.input 15 1] 100 20)
    as (_ & _ & _ & _ & _ & Hsums).
  - reflexivity.
  - destruct Hsums as (Hdigital & _ & Hflags).
    + simpl. lia.
    + repeat constructor.
    + reflexivity.
    + reflexivity.
    + reflexivity.
    + reflexivity.
    + reflexivity.
    + split; [exact Hflags | exact Hdigital].
Defined.

(* ================================================================== *)
(** * The update route stores the tips it is given *)
(* ================================================================== *)

(** The lines the update route hands to the store carry zero tips. *)
Lemma updateLine_zero_tips (employee : ShiftEmployeeInput.t) :
  InsertShiftEmployee.digitalTips (Routes.updateLine employee) = PrimFloat.zero
  /\ InsertShiftEmployee.cashTips (Routes.updateLine employee) = PrimFloat.zero.
Proof. split; reflexivity. Qed.

Lemma numbered_tips (c id : Z) (lines : list InsertShiftEmployee.t) (se : ShiftEmployee.t) :
  In se (numbered c id lines) ->
  exists line,
    In line lines
    /\ ShiftEmployee.digitalTips se = InsertShiftEmployee.digitalTips line
    /\ ShiftEmployee.cashTips se = InsertShiftEmployee.cashTips line.
Proof.
  revert c. induction lines as [|x lines IH]; intros c; simpl; [tauto|].
  intros [<-|H].
  - exists x. simpl. auto.
  - destruct (IH _ H) as (line & Hin & Hd & Hc). exists line. auto.
Qed.

(** In every state of the store, after [PUT /api/shifts/:id] on a saved
    shift every line of the shift is stored with zero digital and cash
    tips, whatever the points and the pools of the request: the store keeps
    the placeholders of the route. *)
Lemma putShift_lines_zero_tips
    (st : MemStorage.t) (id : Z) (existingShift : Shift.t) (req : Routes.updateRequest)
    (se : ShiftEmployee.t) :
  reachable st ->
  getShift st id = Some existingShift ->
  In se (getShiftEmployees (fst (Routes.putShift st id req)) id) ->
  ShiftEmployee.digitalTips se = PrimFloat.zero
  /\ ShiftEmployee.cashTips se = PrimFloat.zero.
Proof.
  intros Hr Hget. unfold Routes.putShift. rewrite Hget.
  match goal with
  | |- context [updateShift st id ?sd ?ls] =>
      destruct (updateShift_replaces_lines_of st id existingShift sd ls Hr Hget)
        as (st' & result & Heq & Hread)
  end.
  rewrite Heq. cbn [fst]. rewrite Hread. intros Hin.
  apply numbered_tips in Hin. destruct Hin as (line & Hline & -> & ->).
  apply in_map_iff in Hline. destruct Hline as (employee & <- & _).
  apply updateLine_zero_tips.
Qed.

(** C5 fails on the update route.  The sample shift (pools 80 + 20 digital
    and 20 cash) is updated with two lines of 6 and 2 points: the route
    answers 200 and the store then holds the two lines with digital and cash
    tips [0], while the allocation for these points is 75 and 25 of the
    digital pool and 15 and 5 of the cash pool. *)
Theorem putShift_persists_zero_placeholders :
  let req :=
    Routes.mkUpdateRequest Sample.dinner [Sample.input 3 6; Sample.input 15 2] in
  let st' := fst (Routes.putShift Sample.saved 1 req) in
  Routes.status (snd (Routes.putShift Sample.saved 1 req)) = 200
  /\ map (fun se => (ShiftEmployee.employeeId se, ShiftEmployee.points se,
                     ShiftEmployee.digitalTips se, ShiftEmployee.cashTips se))
         (getShiftEmployees st' 1)
     = [(3, 6%float, 0%float, 0%float); (15, 2%float, 0%float, 0%float)]
  /\ map (fun line => (TipLine.employeeId line, TipLine.digitalTips line,
                       TipLine.cashTips line))
         (results (calculateEmployeeTips (Routes.employees req) (80 + 20) 20))
     = [(3, 75%float, 15%float); (15, 25%float, 5%float)].
Proof. vm_compute. repeat split. Qed.

(** The save route stores the tips of the request as they are: a request
    whose result lines claim 1 and 2 for points 6 and 2 is stored so. *)
Lemma postShift_persists_submitted_tips :
  let lines := [Sample.input 3 6; Sample.input 15 2] in
  let req :=
    Routes.mkSaveRequest
      (ShiftInput.mk "2024-05-03" "Lunch" 80 20 20 lines)
      [TipDistributionResult.mk 3 "Johnny M" "Server" 6 6 1 2;
       TipDistributionResult.mk 15 "Harold Z" "Server" 2 2 1 2] in
  let st' := fst (Routes.postShift 1700000100000 Sample.saved req) in
  map (fun se => (ShiftEmployee.employeeId se, ShiftEmployee.digitalTips se,
                  ShiftEmployee.cashTips se))
      (getShiftEmployees st' 2)
  = [(3, 1%float, 2%float); (15, 1%float, 2%float)].
Proof. vm_compute. reflexivity. Qed.

(* ================================================================== *)
(** * More facts about [JSMap] and the records of the store *)
(* ================================================================== *)

Module RecordFacts.

Import RecordSpec.

Section Values.

Variable V : Type.
Implicit Types (m : JSMap.t V) (k : Z) (v : V).

(** A key the map holds has a first entry. *)
Lemma get_split m k v :
  JSMap.get k m = Some v ->
  exists m1 m2, m = m1 ++ (k, v) :: m2 /\ ~ In k (JSMap.keys m1).
Proof.
  induction m as [|[k' v'] m IH]; simpl; [discriminate|].
  destruct (k' =? k) eqn:E.
  - apply Z.eqb_eq in E. subst k'. intros [= ->]. exists [], m. simpl. auto.
  - intros H. destruct (IH H) as (m1 & m2 & -> & Hk).
    exists ((k', v') :: m1), m2. split; [reflexivity|].
    simpl. apply Z.eqb_neq in E. tauto.
Qed.

(** [set] on a key the map holds replaces the value of its first entry. *)
Lemma set_split m1 m2 k v0 v :
  ~ In k (JSMap.keys m1) ->
  JSMap.set k v (m1 ++ (k, v0) :: m2) = m1 ++ (k, v) :: m2.
Proof.
  induction m1 as [|[k' v'] m1 IH]; simpl; intros Hk.
  - now rewrite Z.eqb_refl.
  - destruct (k' =? k) eqn:E; [apply Z.eqb_eq in E; tauto|].
    f_equal. apply IH. tauto.
Qed.

Lemma get_none m k : JSMap.get k m = None -> ~ In k (JSMap.keys m).
Proof.
  induction m as [|[k' v'] m IH]; simpl; [tauto|].
  destruct (k' =? k) eqn:E; [discriminate|].
  apply Z.eqb_neq in E. intros H [?|?]; [congruence | now apply IH].
Qed.

Lemma In_get m k v : NoDup (JSMap.keys m) -> In (k, v) m -> JSMap.get k m = Some v.
Proof.
  induction m as [|[k' v'] m IH]; simpl; [tauto|].
  intros Hnd [Heq|Hin]; inversion Hnd as [|? ? Hk Hm]; subst.
  - injection Heq as -> ->. now rewrite Z.eqb_refl.
  - destruct (k' =? k) eqn:E; [|auto].
    apply Z.eqb_eq in E. subst k'. exfalso. apply Hk.
    change k with (fst (k, v)). now apply in_map.
Qed.

Variable idOf : V -> Z.

Lemma recordsOk_fresh c m : recordsOk idOf c m -> ~ In c (JSMap.keys m).
Proof.
  intros [Hall _] Hin. unfold JSMap.keys in Hin.
  apply in_map_iff in Hin. destruct Hin as (e & Hfst & He).
  rewrite Forall_forall in Hall. apply Hall in He. lia.
Qed.

Lemma recordsOk_get c m k v : recordsOk idOf c m -> JSMap.get k m = Some v -> idOf v = k /\ k < c.
Proof.
  intros [Hall _] Hget. apply JSMapFacts.get_In in Hget.
  rewrite Forall_forall in Hall. exact (Hall _ Hget).
Qed.

(** A new record under the counter. *)
Lemma recordsOk_set_new c m v :
  recordsOk idOf c m -> idOf v = c ->
  JSMap.set c v m = m ++ [(c, v)] /\ recordsOk idOf (c + 1) (m ++ [(c, v)]).
Proof.
  intros Hok Hid. pose proof (recordsOk_fresh c m Hok) as Hfresh.
  split; [now apply JSMapFacts.set_fresh|].
  destruct Hok as [Hall Hnd]. split.
  - apply Forall_app. split.
    + eapply Forall_impl; [|exact Hall]. simpl. intros e [? ?]. split; [assumption|lia].
    + constructor; [|constructor]. simpl. split; [assumption|lia].
  - unfold JSMap.keys in *. rewrite map_app. simpl.
    apply NoDup_app; [assumption| constructor; [intros []|constructor] |].
    intros k Hk [<-|[]]. exact (Hfresh Hk).
Qed.

(** A record replaced under its key. *)
Lemma recordsOk_set_same c m k v0 v :
  recordsOk idOf c m -> JSMap.get k m = Some v0 -> idOf v = k ->
  recordsOk idOf c (JSMap.set k v m).
Proof.
  intros Hok Hget Hid. destruct (recordsOk_get c m k v0 Hok Hget) as [_ Hlt].
  destruct (get_split m k v0 Hget) as (m1 & m2 & -> & Hk).
  rewrite set_split by assumption. destruct Hok as [Hall Hnd]. split.
  - apply Forall_app in Hall. destruct Hall as [H1 H2].
    inversion H2 as [|? ? _ H3]; subst.
    apply Forall_app. split; [assumption|]. constructor; [|assumption]. simpl. auto.
  - unfold JSMap.keys in *. rewrite map_app in *. exact Hnd.
Qed.

Lemma recordsOk_delete c m k : recordsOk idOf c m -> recordsOk idOf c (JSMap.delete k m).
Proof.
  intros [Hall Hnd]. split.
  - apply Forall_forall. intros e He. apply JSMapFacts.In_delete in He.
    rewrite Forall_forall in Hall. apply Hall. tauto.
  - now apply JSMapFacts.NoDup_keys_delete.
Qed.

(** The values after a deletion are the values whose identifier is not the
    deleted key. *)
Lemma values_delete c m k :
  recordsOk idOf c m ->
  JSMap.values (JSMap.delete k m)
  = filter (fun v => negb (idOf v =? k)) (JSMap.values m).
Proof.
  intros [Hall _]. unfold JSMap.values, JSMap.delete.
  induction Hall as [|e m [He _] _ IH]; simpl; [reflexivity|].
  rewrite He. destruct (fst e =? k); simpl; congruence.
Qed.

End Values.

Import MemStorage StoreSpec.

(** ** The invariants of the employees and of the shifts hold in every
    state of the store *)

Lemma updateEmployee_store st id employee st' updated :
  updateEmployee st id employee = Returned (st', updated) ->
  exists existingEmployee,
    getEmployee st id = Some existingEmployee
    /\ Employee.id updated = Employee.id existingEmployee
    /\ employees st' = JSMap.set id updated (employees st)
    /\ shifts st' = shifts st
    /\ shiftEmployees st' = shiftEmployees st
    /\ ids st' = ids st.
Proof.
  unfold updateEmployee, getEmployee.
  destruct (JSMap.get id (employees st)) as [existing|]; [|discriminate].
  intros [= <- <-]. exists existing. simpl. repeat split.
Qed.

Lemma reachable_employeesOk st : reachable st -> employeesOk st.
Proof.
  induction 1 as [| st eid f l p _ IH | st id e st' u _ IH Hup | st id _ IH
                  | st ts sd lines Hr IH
                  | st id sd lines st' result Hr IH Hup | st id _ IH].
  - split; constructor.
  - unfold employeesOk. simpl.
    destruct (recordsOk_set_new _ Employee.id _ _
                (Employee.mk (employee (ids st)) eid f l p) IH eq_refl) as [-> Hok].
    exact Hok.
  - destruct (updateEmployee_store _ _ _ _ _ Hup) as (ex & Hget & Hid & He & _ & _ & Hids).
    unfold employeesOk. rewrite He, Hids.
    apply (recordsOk_set_same _ Employee.id _ _ _ ex); [exact IH | exact Hget |].
    rewrite Hid. exact (proj1 (recordsOk_get _ Employee.id _ _ _ _ IH Hget)).
  - now apply recordsOk_delete.
  - pose proof (ShiftLifecycle.reachable_wf st Hr) as Hwf.
    destruct (ShiftLifecycle.addShift_store ts st sd lines Hwf) as (_ & He & _ & _ & Hids & _).
    unfold employeesOk. rewrite He, Hids. exact IH.
  - pose proof (ShiftLifecycle.reachable_wf st Hr) as Hwf.
    destruct (getShift st id) as [existing|] eqn:Hget.
    + destruct (ShiftLifecycle.updateShift_store st id existing sd lines Hwf Hget)
        as (st2 & results & Heq & He & _ & _ & Hids & _).
      rewrite Heq in Hup. injection Hup as <- _.
      unfold employeesOk. rewrite He, Hids. exact IH.
    + destruct (ShiftLifecycle.updateShift_missing st id sd lines Hget) as (message & Heq).
      rewrite Heq in Hup. discriminate.
  - exact IH.
Qed.

Lemma reachable_shiftsOk st : reachable st -> shiftsOk st.
Proof.
  induction 1 as [| st eid f l p _ IH | st id e st' u _ IH Hup | st id _ IH
                  | st ts sd lines Hr IH
                  | st id sd lines st' result Hr IH Hup | st id _ IH].
  - split; constructor.
  - exact IH.
  - destruct (updateEmployee_store _ _ _ _ _ Hup) as (ex & _ & _ & _ & Hs & _ & Hids).
    unfold shiftsOk. rewrite Hs, Hids. exact IH.
  - exact IH.
  - pose proof (ShiftLifecycle.reachable_wf st Hr) as Hwf.
    destruct (ShiftLifecycle.addShift_store ts st sd lines Hwf) as (_ & _ & Hs & _ & Hids & _).
    unfold shiftsOk. rewrite Hs, Hids. cbn [shift].
    match goal with
    | |- context [JSMap.set _ ?v _] =>
        destruct (recordsOk_set_new _ Shift.id _ _ v IH eq_refl) as [-> Hok]
    end.
    exact Hok.
  - pose proof (ShiftLifecycle.reachable_wf st Hr) as Hwf.
    destruct (getShift st id) as [existing|] eqn:Hget.
    + destruct (ShiftLifecycle.updateShift_store st id existing sd lines Hwf Hget)
        as (st2 & results & Heq & _ & Hs & _ & Hids & _).
      rewrite Heq in Hup. injection Hup as <- _.
      unfold shiftsOk. rewrite Hs, Hids. cbn [shift].
      apply (recordsOk_set_same _ Shift.id _ _ _ existing); [exact IH | exact Hget |].
      exact (proj1 (recordsOk_get _ Shift.id _ _ _ _ IH Hget)).
    + destruct (ShiftLifecycle.updateShift_missing st id sd lines Hget) as (message & Heq).
      rewrite Heq in Hup. discriminate.
  - unfold shiftsOk.
    destruct (ShiftLifecycle.deleteShift_store st id) as (_ & -> & _ & ->).
    now apply recordsOk_delete.
Qed.

End RecordFacts.

(* ================================================================== *)
(** * Employees: adding, updating, deleting, looking up *)
(* ================================================================== *)

Module EmployeeFacts.

Import MemStorage StoreSpec RecordSpec RecordFacts.

Lemma get_fresh (V : Type) (m : JSMap.t V) (k : Z) :
  ~ In k (JSMap.keys m) -> JSMap.get k m = None.
Proof.
  induction m as [|[k' v'] m IH]; simpl; [reflexivity|].
  intros Hk. destruct (k' =? k) eqn:E; [apply Z.eqb_eq in E; tauto|].
  apply IH. tauto.
Qed.

Lemma NoDup_map_inj (A B : Type) (f : A -> B) (l : list A) (a b : A) :
  NoDup (map f l) -> In a l -> In b l -> f a = f b -> a = b.
Proof.
  induction l as [|x l IH]; simpl; [tauto|].
  intros Hnd Ha Hb Hf. inversion Hnd as [|? ? Hx Hl]; subst.
  destruct Ha as [->|Ha], Hb as [->|Hb]; auto.
  - exfalso. apply Hx. rewrite Hf. now apply in_map.
  - exfalso. apply Hx. rewrite <- Hf. now apply in_map.
Qed.

(** Removing employees keeps the employee numbers of the rest distinct. *)
Lemma employeeIds_filter (keep : Employee.t -> bool) (stored : list Employee.t) :
  NoDup (map Employee.employeeId stored) ->
  NoDup (map Employee.employeeId (filter keep stored)).
Proof.
  induction stored as [|e stored IH]; intros Hnd; [exact Hnd|].
  cbn [map] in Hnd. apply NoDup_cons_iff in Hnd as [Hfresh Hrest].
  cbn [filter]. destruct (keep e); [|exact (IH Hrest)].
  cbn [map]. apply NoDup_cons; [|exact (IH Hrest)].
  intros Hin. apply Hfresh.
  apply in_map_iff in Hin as (other & Heq & Hother).
  apply filter_In in Hother as [Hother _].
  rewrite <- Heq. now apply in_map.
Qed.

Lemma find_filter (A : Type) (p q : A -> bool) (l : list A) :
  (forall x, In x l -> p x = true -> q x = true) ->
  find p (filter q l) = find p l.
Proof.
  induction l as [|x l IH]; simpl; [reflexivity|]. intros H.
  destruct (q x) eqn:Q; simpl.
  - destruct (p x); [reflexivity|]. apply IH. auto.
  - destruct (p x) eqn:P.
    + rewrite (H x (or_introl eq_refl) P) in Q. discriminate.
    + apply IH. auto.
Qed.

(** The employee found for an employee number carries it and is stored. *)
Lemma getEmployeeByEmployeeId_found st employeeId employee :
  getEmployeeByEmployeeId st employeeId = Some employee ->
  Employee.employeeId employee = employeeId /\ In employee (getEmployees st).
Proof.
  unfold getEmployeeByEmployeeId. intros H. apply find_some in H.
  destruct H as [Hin Heq]. apply Z.eqb_eq in Heq. auto.
Qed.

Lemma getEmployeeByEmployeeId_none st employeeId :
  getEmployeeByEmployeeId st employeeId = None <-> ~ In employeeId (employeeIds st).
Proof.
  unfold getEmployeeByEmployeeId, employeeIds, getEmployees. split.
  - intros H Hin. apply in_map_iff in Hin. destruct Hin as (e & He & Hin).
    pose proof (find_none _ _ H e Hin) as Hf. simpl in Hf.
    apply Z.eqb_neq in Hf. contradiction.
  - intros Hn. destruct (find _ _) as [e|] eqn:Hf; [|reflexivity].
    apply find_some in Hf. destruct Hf as [Hin Heq]. apply Z.eqb_eq in Heq.
    exfalso. apply Hn. rewrite <- Heq. now apply in_map.
Qed.

(** A stored employee is stored under its identifier. *)
Lemma stored_employee st employee :
  employeesOk st -> In employee (getEmployees st) ->
  getEmployee st (Employee.id employee) = Some employee.
Proof.
  intros [Hall Hnd] Hin. unfold getEmployees, JSMap.values in Hin.
  apply in_map_iff in Hin. destruct Hin as ([k v] & Hv & Hin). simpl in Hv. subst v.
  rewrite Forall_forall in Hall. destruct (Hall _ Hin) as [Hid _]. simpl in Hid.
  rewrite Hid. unfold getEmployee. now apply In_get.
Qed.

Lemma getEmployee_stored st id employee :
  getEmployee st id = Some employee -> In employee (getEmployees st).
Proof.
  intros H. apply JSMapFacts.get_In in H. unfold getEmployees, JSMap.values.
  change employee with (snd (id, employee)). now apply in_map.
Qed.

(** With distinct employee numbers, the look-up by number finds the stored
    employee. *)
Lemma lookup_by_number st employee :
  uniqueEmployeeIds st -> In employee (getEmployees st) ->
  getEmployeeByEmployeeId st (Employee.employeeId employee) = Some employee.
Proof.
  intros Hu Hin.
  destruct (getEmployeeByEmployeeId st (Employee.employeeId employee)) as [e|] eqn:Hf.
  - destruct (getEmployeeByEmployeeId_found _ _ _ Hf) as [Heq He].
    f_equal. exact (NoDup_map_inj _ _ _ _ _ _ Hu He Hin Heq).
  - apply getEmployeeByEmployeeId_none in Hf. exfalso. apply Hf.
    unfold employeeIds. now apply in_map.
Qed.

(** The look-up by number after the deletion of an employee. *)
Lemma lookup_after_delete st id employee employeeId :
  employeesOk st -> uniqueEmployeeIds st -> getEmployee st id = Some employee ->
  getEmployeeByEmployeeId (deleteEmployee st id) employeeId
  = if employeeId =? Employee.employeeId employee then None
    else getEmployeeByEmployeeId st employeeId.
Proof.
  intros Hok Hu Hget.
  pose proof (getEmployee_stored _ _ _ Hget) as Hin.
  destruct (recordsOk_get _ Employee.id _ _ _ _ Hok Hget) as [Hid _].
  unfold getEmployeeByEmployeeId at 1. cbn [deleteEmployee employees].
  rewrite (values_delete _ Employee.id _ _ id Hok).
  destruct (employeeId =? Employee.employeeId employee) eqn:E.
  - apply Z.eqb_eq in E. subst employeeId.
    destruct (find _ _) as [e|] eqn:Hf; [|reflexivity].
    apply find_some in Hf. destruct Hf as [He Heq]. apply Z.eqb_eq in Heq.
    apply filter_In in He. destruct He as [He Hne].
    apply negb_true_iff, Z.eqb_neq in Hne.
    rewrite (NoDup_map_inj _ _ _ _ _ _ Hu He Hin Heq) in Hne. congruence.
  - apply Z.eqb_neq in E. apply find_filter.
    intros x Hx Hp. apply Z.eqb_eq in Hp. apply negb_true_iff, Z.eqb_neq.
    intros Hxid. apply E. rewrite <- Hp.
    pose proof (stored_employee _ _ Hok Hx) as Hgx. rewrite Hxid, Hget in Hgx.
    now injection Hgx as ->.
Qed.

(** ** The rows of the results *)

Lemma fold_rows (L : Type) st (employeeIdOf : L -> Z)
    (row : Employee.t -> L -> TipDistributionResult.t) (items : list L) :
  forall acc,
    fold_left
      (fun results item =>
         match getEmployeeByEmployeeId st (employeeIdOf item) with
         | Some employee => results ++ [row employee item]
         | None => results
         end)
      items acc
    = acc ++ rowsFor st employeeIdOf row items.
Proof.
  unfold rowsFor.
  induction items as [|item items IH]; intros acc; simpl; [now rewrite app_nil_r|].
  rewrite IH. destruct (getEmployeeByEmployeeId st (employeeIdOf item)); simpl.
  - now rewrite <- app_assoc.
  - reflexivity.
Qed.

Lemma getShiftResults_rows st shiftId :
  getShiftResults st shiftId
  = rowsFor st ShiftEmployee.employeeId storedResult (getShiftEmployees st shiftId).
Proof. unfold getShiftResults. now rewrite fold_rows. Qed.

Lemma rowsFor_same_employees (L : Type) st1 st2 (employeeIdOf : L -> Z)
    (row : Employee.t -> L -> TipDistributionResult.t) (items : list L) :
  employees st1 = employees st2 ->
  rowsFor st1 employeeIdOf row items = rowsFor st2 employeeIdOf row items.
Proof.
  intros He. unfold rowsFor, getEmployeeByEmployeeId. now rewrite He.
Qed.

Lemma rowsFor_numbered st c id lines :
  rowsFor st ShiftEmployee.employeeId storedResult (numbered c id lines)
  = rowsFor st InsertShiftEmployee.employeeId toResult lines.
Proof.
  unfold rowsFor. revert c.
  induction lines as [|line lines IH]; intros c; simpl; [reflexivity|].
  rewrite IH. reflexivity.
Qed.

(** The results of the save loop are the rows of the submitted lines. *)
Lemma saveShiftEmployees_results id lines : forall st acc,
  snd (fold_left (saveShiftEmployee id) lines (st, acc))
  = acc ++ rowsFor st InsertShiftEmployee.employeeId toResult lines.
Proof.
  induction lines as [|line lines IH]; intros st acc.
  - simpl. now rewrite app_nil_r.
  - cbn [fold_left].
    pose proof (ShiftLifecycle.saveShiftEmployee_store id st acc line) as Hstep.
    assert (Hres : snd (saveShiftEmployee id (st, acc) line)
                   = acc ++ rowsFor st InsertShiftEmployee.employeeId toResult [line]).
    { unfold saveShiftEmployee, rowsFor, getEmployeeByEmployeeId. cbn [employees flat_map].
      destruct (find _ _); simpl; [reflexivity | now rewrite app_nil_r]. }
    destruct (saveShiftEmployee id (st, acc) line) as [st1 acc1].
    cbn [fst snd] in *. destruct Hstep as (He & _).
    rewrite IH, Hres, (rowsFor_same_employees _ st1 st _ _ _ He), <- app_assoc.
    f_equal. unfold rowsFor. cbn [flat_map]. now rewrite app_nil_r.
Qed.

End EmployeeFacts.

Import RecordSpec.

(** [addEmployee] stores the employee under the next identifier, which no
    stored employee has; the other employees stay as they are and the new
    one comes last in the list of employees. *)
Theorem addEmployee_stores_under_fresh_id
    (st : MemStorage.t) (employeeId : Z) (firstName lastName : string)
    (positions : list string) :
  reachable st ->
  let st' := fst (addEmployee st employeeId firstName lastName positions) in
  let added := snd (addEmployee st employeeId firstName lastName positions) in
  added = Employee.mk (employee (ids st)) employeeId firstName lastName positions
  /\ getEmployee st (Employee.id added) = None
  /\ getEmployee st' (Employee.id added) = Some added
  /\ (forall k, k <> Employee.id added -> getEmployee st' k = getEmployee st k)
  /\ getEmployees st' = getEmployees st ++ [added]
  /\ employee (ids st') = employee (ids st) + 1.
Proof.
  intros Hr st' added. pose proof (RecordFacts.reachable_employeesOk st Hr) as Hok.
  pose proof (RecordFacts.recordsOk_fresh _ Employee.id _ _ Hok) as Hfresh.
  split; [reflexivity|]. split; [|split; [|split; [|split]]].
  - now apply EmployeeFacts.get_fresh.
  - apply JSMapFacts.get_set_same.
  - intros k Hk. unfold getEmployee. cbn [st' addEmployee fst employees].
    now apply JSMapFacts.get_set_other.
  - unfold getEmployees. cbn [st' addEmployee fst employees].
    rewrite JSMapFacts.set_fresh by assumption.
    unfold JSMap.values. now rewrite map_app.
  - reflexivity.
Qed.

Lemma addEmployee_stores_under_fresh_id_witness :
  getEmployee Sample.staffed 3 = None
  /\ getEmployee (fst (addEmployee Sample.staffed 30 "Andrew" "P" ["Server"%string])) 3
     = Some (Employee.mk 3 30 "Andrew" "P" ["Server"%string]).
Proof.
  destruct (addEmployee_stores_under_fresh_id Sample.staffed 30 "Andrew" "P"
              ["Server"%string])
    as (_ & Hnone & Hsome & _).
  - unfold Sample.staffed. apply reach_addEmployee, reach_addEmployee, reach_empty.
  - split; [exact Hnone | exact Hsome].
Defined.

(** [updateEmployee] on a stored identifier returns the employee with the
    supplied fields over the old ones and the same identifier, and the list
    of employees is the old one with this employee replaced in its place;
    on an identifier that is not stored it throws. *)
Theorem updateEmployee_replaces_in_place
    (st : MemStorage.t) (id : Z) (employee : PartialInsertEmployee.t) :
  reachable st ->
  match getEmployee st id with
  | None => exists message, updateEmployee st id employee = Thrown message
  | Some existingEmployee =>
      exists st' updated,
        updateEmployee st id employee = Returned (st', updated)
        /\ updated
           = Employee.mk id
               (spread (Employee.employeeId existingEmployee)
                       (PartialInsertEmployee.employeeId employee))
               (spread (Employee.firstName existingEmployee)
                       (PartialInsertEmployee.firstName employee))
               (spread (Employee.lastName existingEmployee)
                       (PartialInsertEmployee.lastName employee))
               (spread (Employee.positions existingEmployee)
                       (PartialInsertEmployee.positions employee))
        /\ getEmployee st' id = Some updated
        /\ (forall k, k <> id -> getEmployee st' k = getEmployee st k)
        /\ getEmployees st'
           = map (fun e => if Employee.id e =? id then updated else e) (getEmployees st)
  end.
Proof.
  intros Hr. pose proof (RecordFacts.reachable_employeesOk st Hr) as Hok.
  destruct (getEmployee st id) as [existing|] eqn:Hget.
  - destruct (RecordFacts.recordsOk_get _ Employee.id _ _ _ _ Hok Hget) as [Hid _].
    unfold updateEmployee. unfold getEmployee in Hget. rewrite Hget.
    eexists. eexists. split; [reflexivity|]. rewrite Hid.
    split; [reflexivity|]. split; [|split].
    + apply JSMapFacts.get_set_same.
    + intros k Hk. unfold getEmployee. cbn [employees].
      now apply JSMapFacts.get_set_other.
    + unfold getEmployees. cbn [employees].
      destruct (RecordFacts.get_split _ _ _ _ Hget) as (m1 & m2 & Hm & Hk).
      destruct Hok as [Hall Hnd]. rewrite Hm in *.
      rewrite RecordFacts.set_split by assumption.
      unfold JSMap.values, JSMap.keys in *. rewrite !map_app in *. cbn [map snd fst] in *.
      rewrite Hid, Z.eqb_refl.
      apply Forall_app in Hall. destruct Hall as [H1 H2].
      apply Forall_inv_tail in H2.
      apply NoDup_remove_2 in Hnd.
      assert (Hk2 : ~ In id (map fst m2)) by (intros H; apply Hnd, in_or_app; auto).
      assert (Hsame : forall m : list (Z * Employee.t),
                 Forall (fun e => Employee.id (snd e) = fst e
                                  /\ fst e < MemStorage.employee (ids st)) m ->
                 ~ In id (map fst m) ->
                 map snd m
                 = map (fun e => if Employee.id e =? id
                                 then Employee.mk id
                                        (spread (Employee.employeeId existing)
                                                (PartialInsertEmployee.employeeId employee))
                                        (spread (Employee.firstName existing)
                                                (PartialInsertEmployee.firstName employee))
                                        (spread (Employee.lastName existing)
                                                (PartialInsertEmployee.lastName employee))
                                        (spread (Employee.positions existing)
                                                (PartialInsertEmployee.positions employee))
                                 else e) (map snd m)).
      { induction m as [|e m IH]; simpl; [reflexivity|]. intros Hfa Hnot.
        destruct (Forall_inv Hfa) as [He _]. apply Forall_inv_tail in Hfa.
        rewrite He. destruct (fst e =? id) eqn:E; [apply Z.eqb_eq in E; tauto|].
        f_equal. apply IH; tauto. }
      rewrite <- (Hsame m1 H1 Hk), <- (Hsame m2 H2 Hk2). reflexivity.
  - unfold updateEmployee. unfold getEmployee in Hget. rewrite Hget. eauto.
Qed.

Lemma updateEmployee_replaces_in_place_witness :
  exists st' updated,
    updateEmployee Sample.staffed 2
      (PartialInsertEmployee.mk None None (Some "Q"%string) None)
    = Returned (st', updated)
    /\ updated = Employee.mk 2 15 "Harold" "Q" ["Server"%string]
    /\ getEmployees st'
       = [Employee.mk 1 3 "Johnny" "M" ["Bartender"%string]; updated].
Proof.
  pose proof (updateEmployee_replaces_in_place Sample.staffed 2
                (PartialInsertEmployee.mk None None (Some "Q"%string) None)) as H.
  assert (Hr : reachable Sample.staffed)
    by (unfold Sample.staffed; apply reach_addEmployee, reach_addEmployee, reach_empty).
  specialize (H Hr).
  change (getEmployee Sample.staffed 2)
    with (Some (Employee.mk 2 15 "Harold" "Z" ["Server"%string])) in H.
  destruct H as (st' & updated & Heq & Hu & _ & _ & Hlist).
  exists st', updated. split; [exact Heq|]. split; [exact Hu|].
  rewrite Hlist, Hu. reflexivity.
Defined.

(** In a store in which no two employees have the same employee number,
    deleting an employee removes it from the look-up and from the list;
    shifts and their stored lines are not touched, but the result rows of
    every shift lose the rows of the deleted employee: [getShiftResults]
    returns the rows it returned before, without those of that employee
    number.  (The store itself does not keep employee numbers distinct,
    the routes do; with a second employee of the same number the rows
    would take that employee's name instead.) *)
Theorem deleteEmployee_keeps_lines_drops_rows
    (st : MemStorage.t) (id : Z) (deleted : Employee.t) :
  reachable st ->
  uniqueEmployeeIds st ->
  getEmployee st id = Some deleted ->
  let st' := deleteEmployee st id in
  getEmployee st' id = None
  /\ getEmployees st' = filter (fun e => negb (Employee.id e =? id)) (getEmployees st)
  /\ (forall shiftId,
        getShift st' shiftId = getShift st shiftId
        /\ getShiftEmployees st' shiftId = getShiftEmployees st shiftId
        /\ getShiftResults st' shiftId
           = filter (fun r => negb (TipDistributionResult.employeeId r
                                    =? Employee.employeeId deleted))
                    (getShiftResults st shiftId)).
Proof.
  intros Hr Hu Hget st'. pose proof (RecordFacts.reachable_employeesOk st Hr) as Hok.
  split; [apply JSMapFacts.get_delete_same|].
  split; [apply (RecordFacts.values_delete _ Employee.id _ _ id Hok)|].
  intros shiftId. split; [reflexivity|]. split; [reflexivity|].
  rewrite !EmployeeFacts.getShiftResults_rows.
  change (getShiftEmployees st' shiftId) with (getShiftEmployees st shiftId).
  unfold rowsFor.
  induction (getShiftEmployees st shiftId) as [|se lines IH]; [reflexivity|].
  cbn [flat_map]. rewrite filter_app, <- IH. f_equal.
  unfold st'. rewrite (EmployeeFacts.lookup_after_delete st id deleted _ Hok Hu Hget).
  destruct (getEmployeeByEmployeeId st (ShiftEmployee.employeeId se)) as [e|] eqn:Hf.
  - destruct (EmployeeFacts.getEmployeeByEmployeeId_found _ _ _ Hf) as [He _].
    cbn [filter storedResult TipDistributionResult.employeeId]. rewrite He.
    destruct (_ =? _); reflexivity.
  - destruct (_ =? _); reflexivity.
Qed.

Lemma deleteEmployee_keeps_lines_drops_rows_witness :
  map TipDistributionResult.employeeId (getShiftResults Sample.saved 1) = [3; 15]
  /\ map TipDistributionResult.employeeId
         (getShiftResults (deleteEmployee Sample.saved 1) 1) = [15]
  /\ map ShiftEmployee.employeeId
         (getShiftEmployees (deleteEmployee Sample.saved 1) 1) = [3; 15].
Proof.
  destruct (deleteEmployee_keeps_lines_drops_rows Sample.saved 1
              (Employee.mk 1 3 "Johnny" "M" ["Bartender"%string]))
    as (_ & _ & Hshift).
  - unfold Sample.saved, Sample.staffed.
    apply reach_addShift, reach_addEmployee, reach_addEmployee, reach_empty.
  - unfold uniqueEmployeeIds. cbn.
    constructor; [simpl; intros [H|[]]; discriminate|].
    constructor; [intros []|constructor].
  - reflexivity.
  - destruct (Hshift 1) as (_ & Hlines & Hrows).
    split; [reflexivity|]. split.
    + rewrite Hrows. reflexivity.
    + rewrite Hlines. reflexivity.
Defined.

(* ================================================================== *)
(** * Shifts: results, identifiers, listing *)
(* ================================================================== *)

Module SortFacts.

Section Keys.

Variable A : Type.
Variable key : A -> Z.

(** The comparator of a descending sort by [key]. *)
Let descending (a b : A) : Z := key b - key a.

Lemma insert_perm (x : A) (l : list A) :
  Permutation (JSArray.insert descending x l) (x :: l).
Proof.
  induction l as [|y l IH]; simpl; [reflexivity|].
  destruct (descending x y <=? 0); [reflexivity|].
  rewrite IH. apply perm_swap.
Qed.

Lemma sort_perm (l : list A) : Permutation (JSArray.sort descending l) l.
Proof.
  induction l as [|x l IH]; simpl; [reflexivity|].
  rewrite insert_perm. now constructor.
Qed.

Lemma insert_sorted (x : A) (l : list A) :
  StronglySorted (fun a b => key a >= key b) l ->
  StronglySorted (fun a b => key a >= key b) (JSArray.insert descending x l).
Proof.
  induction 1 as [|y l Hl IH Hy]; simpl; [repeat constructor|].
  unfold descending at 1. destruct (key y - key x <=? 0) eqn:E.
  - apply Z.leb_le in E. constructor; [now constructor|].
    constructor; [lia|]. eapply Forall_impl; [|exact Hy]. simpl. intros; lia.
  - apply Z.leb_gt in E. constructor; [exact IH|].
    eapply Permutation_Forall; [symmetry; apply insert_perm|].
    constructor; [lia | exact Hy].
Qed.

Lemma sort_sorted (l : list A) :
  StronglySorted (fun a b => key a >= key b) (JSArray.sort descending l).
Proof.
  induction l as [|x l IH]; simpl; [constructor | now apply insert_sorted].
Qed.

(** The sort is stable: the elements of one key keep their order. *)
Lemma insert_stable (t : Z) (x : A) (l : list A) :
  filter (fun a => key a =? t) (JSArray.insert descending x l)
  = filter (fun a => key a =? t) (x :: l).
Proof.
  induction l as [|y l IH]; simpl; [reflexivity|].
  unfold descending at 1. destruct (key y - key x <=? 0) eqn:E; [reflexivity|].
  apply Z.leb_gt in E. simpl. rewrite IH. simpl.
  destruct (key x =? t) eqn:Ex, (key y =? t) eqn:Ey; try reflexivity.
  apply Z.eqb_eq in Ex, Ey. lia.
Qed.

Lemma sort_stable (t : Z) (l : list A) :
  filter (fun a => key a =? t) (JSArray.sort descending l)
  = filter (fun a => key a =? t) l.
Proof.
  induction l as [|x l IH]; simpl; [reflexivity|].
  rewrite insert_stable. simpl. now rewrite IH.
Qed.

End Keys.

End SortFacts.

(** [getShifts] returns every stored shift exactly once, the newest first;
    shifts created at the same time keep the order in which they were
    stored. *)
Theorem getShifts_newest_first (st : MemStorage.t) :
  Permutation (getShifts st) (JSMap.values (shifts st))
  /\ StronglySorted (fun a b => Shift.createdAt a >= Shift.createdAt b) (getShifts st)
  /\ (forall t,
        filter (fun s => Shift.createdAt s =? t) (getShifts st)
        = filter (fun s => Shift.createdAt s =? t) (JSMap.values (shifts st))).
Proof.
  split; [|split].
  - apply (SortFacts.sort_perm _ Shift.createdAt).
  - apply (SortFacts.sort_sorted _ Shift.createdAt).
  - intros t. apply (SortFacts.sort_stable _ Shift.createdAt).
Qed.

Module ListingFacts.

Lemma listing_map (st : MemStorage.t) (l : list Shift.t) : forall acc,
  fold_left
    (fun results shift =>
       let employees := getShiftEmployees st (Shift.id shift) in
       results ++ [mkShiftWithEmployeeCount shift (Z.of_nat (List.length employees))])
    l acc
  = acc ++ map (fun shift =>
                  mkShiftWithEmployeeCount shift
                    (Z.of_nat (List.length (getShiftEmployees st (Shift.id shift))))) l.
Proof.
  induction l as [|s l IH]; intros acc; simpl; [now rewrite app_nil_r|].
  rewrite IH, <- app_assoc. reflexivity.
Qed.

Lemma updateShift_results st id existingShift shiftData lines :
  wf st ->
  getShift st id = Some existingShift ->
  exists st',
    updateShift st id shiftData lines
    = Returned (st', ShiftResult.mk (mergeShift existingShift shiftData)
                       (rowsFor st InsertShiftEmployee.employeeId toResult lines)).
Proof.
  intros Hwf Hget. unfold updateShift. unfold getShift in Hget. rewrite Hget.
  match goal with
  | |- context [saveShiftEmployees id ?st2 lines] =>
      pose proof (EmployeeFacts.saveShiftEmployees_results id lines st2 []) as Hres;
      unfold saveShiftEmployees;
      destruct (fold_left (saveShiftEmployee id) lines (st2, [])) as [st3 results]
  end.
  cbn [snd app] in Hres. subst results. exists st3. do 2 f_equal.
Qed.

End ListingFacts.

(** [getShiftWithEmployeeCount] lists the shifts of [getShifts], in that
    order, each with the number of lines stored for it; every stored shift
    is in the list with the number of its lines. *)
Theorem getShiftWithEmployeeCount_counts_lines (st : MemStorage.t) :
  reachable st ->
  map countedShift (getShiftWithEmployeeCount st) = getShifts st
  /\ (forall entry,
        In entry (getShiftWithEmployeeCount st) ->
        employeeCount entry
        = Z.of_nat (List.length (getShiftEmployees st (Shift.id (countedShift entry)))))
  /\ (forall id shift,
        getShift st id = Some shift ->
        In (mkShiftWithEmployeeCount shift
              (Z.of_nat (List.length (getShiftEmployees st id))))
           (getShiftWithEmployeeCount st)).
Proof.
  intros Hr. unfold getShiftWithEmployeeCount. rewrite ListingFacts.listing_map.
  cbn [app]. split; [|split].
  - rewrite map_map. cbn [countedShift]. apply map_id.
  - intros entry He. apply in_map_iff in He. destruct He as (s & <- & _). reflexivity.
  - intros id s Hget.
    destruct (RecordFacts.recordsOk_get _ Shift.id _ _ _ _
                (RecordFacts.reachable_shiftsOk st Hr) Hget) as [Hid _].
    apply in_map_iff. exists s. split; [now rewrite Hid|].
    apply (Permutation_in _ (Permutation_sym (SortFacts.sort_perm _ Shift.createdAt _))).
    apply JSMapFacts.get_In in Hget. unfold JSMap.values.
    change s with (snd (id, s)). now apply in_map.
Qed.

Lemma getShiftWithEmployeeCount_counts_lines_witness :
  map (fun entry => (Shift.id (countedShift entry), employeeCount entry))
      (getShiftWithEmployeeCount Sample.saved) = [(1, 2)].
Proof.
  destruct (getShiftWithEmployeeCount_counts_lines Sample.saved) as (_ & _ & Hin).
  - unfold Sample.saved, Sample.staffed.
    apply reach_addShift, reach_addEmployee, reach_addEmployee, reach_empty.
  - specialize (Hin 1 _ eq_refl).
    destruct (getShiftWithEmployeeCount Sample.saved) as [|entry [|? ?]] eqn:E;
      try (vm_compute in E; discriminate).
    destruct Hin as [Heq|[]]. rewrite Heq. reflexivity.
Defined.

(** The result rows [addShift] returns are the rows [getShiftResults] reads
    back for the new shift: one row for each submitted line whose employee
    number is that of a stored employee, in the order of the lines; a line
    with an unknown employee number is stored but has no row. *)
Theorem addShift_returns_stored_results
    (timestamp : Z) (st : MemStorage.t) (shiftData : InsertShift.t)
    (lines : list InsertShiftEmployee.t) :
  reachable st ->
  let st' := fst (addShift timestamp st shiftData lines) in
  let saved := snd (addShift timestamp st shiftData lines) in
  ShiftResult.results saved = getShiftResults st' (Shift.id (ShiftResult.shift saved))
  /\ ShiftResult.results saved
     = rowsFor st InsertShiftEmployee.employeeId toResult lines
  /\ List.length (getShiftEmployees st' (Shift.id (ShiftResult.shift saved)))
     = List.length lines.
Proof.
  intros Hr st' saved.
  destruct (ShiftLifecycle.addShift_then_read timestamp st shiftData lines Hr)
    as (_ & Hread & Hlen).
  fold st' in Hread, Hlen. fold saved in Hread, Hlen.
  destruct (ShiftLifecycle.addShift_store timestamp st shiftData lines
              (ShiftLifecycle.reachable_wf st Hr)) as (_ & He & _).
  fold st' in He.
  assert (Hrows : ShiftResult.results saved
                  = rowsFor st InsertShiftEmployee.employeeId toResult lines).
  { unfold saved, addShift.
    match goal with
    | |- context [saveShiftEmployees ?id ?st1 lines] =>
        pose proof (EmployeeFacts.saveShiftEmployees_results id lines st1 []) as Hres;
        unfold saveShiftEmployees;
        destruct (fold_left (saveShiftEmployee id) lines (st1, [])) as [st2 results]
    end.
    cbn [snd app ShiftResult.results] in *. rewrite Hres.
    now apply EmployeeFacts.rowsFor_same_employees. }
  split; [|split; [exact Hrows | exact Hlen]].
  rewrite Hrows, EmployeeFacts.getShiftResults_rows, Hread,
    EmployeeFacts.rowsFor_numbered.
  symmetry. now apply EmployeeFacts.rowsFor_same_employees.
Qed.

Lemma addShift_returns_stored_results_witness :
  map TipDistributionResult.name
      (ShiftResult.results
         (snd (addShift 1700000000000 Sample.staffed Sample.dinner
                 [Sample.line 3 "17:00" "23:00" 6 6 75 15;
                  Sample.line 99 "17:00" "19:00" 2 2 25 5])))
  = ["Johnny M"%string]
  /\ List.length
       (getShiftEmployees
          (fst (addShift 1700000000000 Sample.staffed Sample.dinner
                  [Sample.line 3 "17:00" "23:00" 6 6 75 15;
                   Sample.line 99 "17:00" "19:00" 2 2 25 5])) 1) = 2%nat.
Proof.
  destruct (addShift_returns_stored_results 1700000000000 Sample.staffed Sample.dinner
              [Sample.line 3 "17:00" "23:00" 6 6 75 15;
               Sample.line 99 "17:00" "19:00" 2 2 25 5])
    as (_ & Hrows & Hlen).
  - unfold Sample.staffed. apply reach_addEmployee, reach_addEmployee, reach_empty.
  - split; [rewrite Hrows; reflexivity | exact Hlen].
Defined.

(** The result rows [updateShift] returns are the rows [getShiftResults]
    reads back for the shift afterwards. *)
Theorem updateShift_returns_stored_results
    (st : MemStorage.t) (id : Z) (existingShift : Shift.t)
    (shiftData : PartialInsertShift.t) (lines : list InsertShiftEmployee.t) :
  reachable st ->
  getShift st id = Some existingShift ->
  exists st' result,
    updateShift st id shiftData lines = Returned (st', result)
    /\ ShiftResult.results result = getShiftResults st' id
    /\ ShiftResult.results result
       = rowsFor st InsertShiftEmployee.employeeId toResult lines.
Proof.
  intros Hr Hget. pose proof (ShiftLifecycle.reachable_wf st Hr) as Hwf.
  destruct (ListingFacts.updateShift_results st id existingShift shiftData lines Hwf Hget)
    as (st' & Heq).
  destruct (updateShift_replaces_lines_of st id existingShift shiftData lines Hr Hget)
    as (st2 & result2 & Heq2 & Hread).
  destruct (ShiftLifecycle.updateShift_store st id existingShift shiftData lines Hwf Hget)
    as (st3 & results3 & Heq3 & He & _).
  rewrite Heq in Heq2, Heq3. injection Heq2 as <- _. injection Heq3 as <- _.
  eexists. eexists. split; [exact Heq|]. cbn [ShiftResult.results].
  split; [|reflexivity].
  rewrite EmployeeFacts.getShiftResults_rows, Hread, EmployeeFacts.rowsFor_numbered.
  symmetry. now apply EmployeeFacts.rowsFor_same_employees.
Qed.

Lemma updateShift_returns_stored_results_witness :
  exists st' result,
    updateShift Sample.saved 1 Sample.newDate
      [Sample.line 15 "17:00" "21:00" 4 4 0 0] = Returned (st', result)
    /\ map TipDistributionResult.name (ShiftResult.results result) = ["Harold Z"%string]
    /\ getShiftResults st' 1 = ShiftResult.results result.
Proof.
  destruct (updateShift_returns_stored_results Sample.saved 1
              (Shift.mk 1 "2024-05-01" "Dinner" 80 20 20 1700000000000)
              Sample.newDate [Sample.line 15 "17:00" "21:00" 4 4 0 0])
    as (st' & result & Heq & Hread & Hrows).
  - unfold Sample.saved, Sample.staffed.
    apply reach_addShift, reach_addEmployee, reach_addEmployee, reach_empty.
  - reflexivity.
  - exists st', result. split; [exact Heq|]. split; [|now symmetry].
    rewrite Hrows. reflexivity.
Defined.

(** A new shift gets the identifier of the counter, which no stored shift
    has, and the other shifts and their lines stay as they are; this holds
    in every state of the store, the first save included.  The identifier
    of a deleted shift is not given to a later shift. *)
Theorem addShift_never_reuses_id
    (st : MemStorage.t)
    (timestamp : Z) (shiftData : InsertShift.t) (lines : list InsertShiftEmployee.t) :
  reachable st ->
  getShift st (shift (ids st)) = None
  /\ Shift.id (ShiftResult.shift (snd (addShift timestamp st shiftData lines)))
     = shift (ids st)
  /\ getShift (fst (addShift timestamp st shiftData lines)) (shift (ids st))
     = Some (ShiftResult.shift (snd (addShift timestamp st shiftData lines)))
  /\ (forall k, k <> shift (ids st) ->
        getShift (fst (addShift timestamp st shiftData lines)) k = getShift st k
        /\ getShiftEmployees (fst (addShift timestamp st shiftData lines)) k
           = getShiftEmployees st k)
  /\ (forall id existingShift,
        getShift st id = Some existingShift ->
        Shift.id (ShiftResult.shift
                    (snd (addShift timestamp (deleteShift st id) shiftData lines)))
        <> id).
Proof.
  intros Hr.
  pose proof (RecordFacts.reachable_shiftsOk st Hr) as Hok.
  pose proof (ShiftLifecycle.reachable_wf st Hr) as Hwf.
  destruct (ShiftLifecycle.addShift_store timestamp st shiftData lines Hwf)
    as (Hsaved & _ & Hs & Hse & _ & _).
  split; [|split; [|split; [|split]]].
  - apply EmployeeFacts.get_fresh. exact (RecordFacts.recordsOk_fresh _ Shift.id _ _ Hok).
  - now rewrite Hsaved.
  - unfold getShift. rewrite Hs, Hsaved. apply JSMapFacts.get_set_same.
  - intros k Hk. split.
    + unfold getShift. rewrite Hs. now apply JSMapFacts.get_set_other.
    + unfold getShiftEmployees. rewrite Hse, ShiftLifecycle.values_app, filter_app.
      fold (ofShift k). rewrite ShiftLifecycle.lines_numbered_other by assumption.
      apply app_nil_r.
  - intros id existingShift Hget.
    destruct (ShiftLifecycle.addShift_store timestamp (deleteShift st id) shiftData lines
                (ShiftLifecycle.wf_deleteShift st id Hwf)) as (Hsaved' & _).
    rewrite Hsaved'. cbn [Shift.id].
    destruct (ShiftLifecycle.deleteShift_store st id) as (_ & _ & _ & ->).
    destruct (RecordFacts.recordsOk_get _ Shift.id _ _ _ _ Hok Hget) as [_ Hlt]. lia.
Qed.

(** The first shift saved in the store of the constructor gets identifier
    1; in the sample store, which holds shift 1, the next shift gets 2, also
    after shift 1 is deleted. *)
Lemma addShift_never_reuses_id_witness :
  Shift.id (ShiftResult.shift
              (snd (addShift 1700000200000 RecordSpec.constructed Sample.dinner [])))
  = 1
  /\ Shift.id (ShiftResult.shift
                 (snd (addShift 1700000200000 Sample.saved Sample.dinner [])))
     = 2
  /\ Shift.id (ShiftResult.shift
                 (snd (addShift 1700000200000 (deleteShift Sample.saved 1)
                         Sample.dinner [])))
     <> 1.
Proof.
  destruct (addShift_never_reuses_id RecordSpec.constructed
              1700000200000 Sample.dinner [])
    as (_ & Hfirst & _).
  - unfold RecordSpec.constructed, RecordSpec.defaultEmployees. cbn [fold_left].
    repeat apply reach_addEmployee. apply reach_empty.
  - destruct (addShift_never_reuses_id Sample.saved 1700000200000 Sample.dinner [])
      as (_ & Hnext & _ & _ & Hne).
    + unfold Sample.saved, Sample.staffed.
      apply reach_addShift, reach_addEmployee, reach_addEmployee, reach_empty.
    + split; [exact Hfirst|]. split; [exact Hnext|].
      apply (Hne 1 (Shift.mk 1 "2024-05-01" "Dinner" 80 20 20 1700000000000)).
      reflexivity.
Defined.

(** [deleteShift] leaves the employees, the other shifts and the lines of
    the other shifts as they are, and does not move the counters. *)
Theorem deleteShift_leaves_the_rest (st : MemStorage.t) (id : Z) :
  reachable st ->
  getEmployees (deleteShift st id) = getEmployees st
  /\ ids (deleteShift st id) = ids st
  /\ (forall k, k <> id ->
        getShift (deleteShift st id) k = getShift st k
        /\ getShiftEmployees (deleteShift st id) k = getShiftEmployees st k
        /\ getShiftResults (deleteShift st id) k = getShiftResults st k).
Proof.
  intros Hr. split; [reflexivity|]. split; [reflexivity|].
  intros k Hk.
  destruct (deleteShift_frame st id k (ShiftLifecycle.reachable_wf st Hr) Hk) as [Hs Hl].
  split; [exact Hs|]. split; [exact Hl|].
  rewrite !EmployeeFacts.getShiftResults_rows, Hl.
  now apply EmployeeFacts.rowsFor_same_employees.
Qed.

Lemma deleteShift_leaves_the_rest_witness :
  getShift (deleteShift Sample.saved 7) 1 = getShift Sample.saved 1
  /\ getShiftEmployees (deleteShift Sample.saved 7) 1 = getShiftEmployees Sample.saved 1.
Proof.
  destruct (deleteShift_leaves_the_rest Sample.saved 7) as (_ & _ & Hk).
  - unfold Sample.saved, Sample.staffed.
    apply reach_addShift, reach_addEmployee, reach_addEmployee, reach_empty.
  - destruct (Hk 1 ltac:(lia)) as (Hs & Hl & _). split; assumption.
Defined.

(* ================================================================== *)
(** * The employee routes keep the employee numbers distinct *)
(* ================================================================== *)

Module ServedFacts.

Import EmployeeFacts.

Lemma addEmployee_stores_employee st employeeData :
  reachable st ->
  getEmployees (fst (addEmployee st
                       (InsertEmployee.employeeId employeeData)
                       (InsertEmployee.firstName employeeData)
                       (InsertEmployee.lastName employeeData)
                       (InsertEmployee.positions employeeData)))
  = getEmployees st
    ++ [Employee.mk (employee (ids st))
          (InsertEmployee.employeeId employeeData)
          (InsertEmployee.firstName employeeData)
          (InsertEmployee.lastName employeeData)
          (InsertEmployee.positions employeeData)]
  /\ True.
Proof.
  intros Hr. split; [|exact I].
  pose proof (RecordFacts.recordsOk_fresh _ Employee.id _ _
                (RecordFacts.reachable_employeesOk st Hr)) as Hfresh.
  unfold getEmployees. cbn [addEmployee fst employees].
  rewrite JSMapFacts.set_fresh by assumption.
  unfold JSMap.values. now rewrite map_app.
Qed.

Lemma constructed_reachable : reachable constructed.
Proof.
  unfold constructed, defaultEmployees. cbn [fold_left].
  repeat apply reach_addEmployee. apply reach_empty.
Qed.

Lemma constructed_unique : uniqueEmployeeIds constructed.
Proof.
  unfold uniqueEmployeeIds.
  change (employeeIds constructed) with [3; 15; 30; 21; 4; 36; 16; 29; 5].
  repeat (constructor; [simpl; intuition discriminate|]). constructor.
Qed.

Lemma postEmployee_cases st employeeData :
  (In (InsertEmployee.employeeId employeeData) (employeeIds st)
   /\ Api.postEmployee st employeeData = (st, Api.Failure 400 "Employee ID already exists"))
  \/ (~ In (InsertEmployee.employeeId employeeData) (employeeIds st)
      /\ Api.postEmployee st employeeData
         = (fst (addEmployee st
                   (InsertEmployee.employeeId employeeData)
                   (InsertEmployee.firstName employeeData)
                   (InsertEmployee.lastName employeeData)
                   (InsertEmployee.positions employeeData)),
            Api.Json 201
              (Employee.mk (employee (ids st))
                 (InsertEmployee.employeeId employeeData)
                 (InsertEmployee.firstName employeeData)
                 (InsertEmployee.lastName employeeData)
                 (InsertEmployee.positions employeeData)))).
Proof.
  unfold Api.postEmployee.
  destruct (getEmployeeByEmployeeId st (InsertEmployee.employeeId employeeData))
    as [e|] eqn:Hf.
  - left. split; [|reflexivity].
    destruct (getEmployeeByEmployeeId_found _ _ _ Hf) as [<- Hin].
    unfold employeeIds. now apply in_map.
  - right. split; [now apply getEmployeeByEmployeeId_none | reflexivity].
Qed.

(** The three outcomes of the update route. *)
Lemma putEmployee_cases st id employeeData :
  (getEmployee st id = None
   /\ Api.putEmployee st id employeeData = (st, Api.Failure 404 "Employee not found"))
  \/ (exists existingEmployee,
        getEmployee st id = Some existingEmployee
        /\ InsertEmployee.employeeId employeeData <> Employee.employeeId existingEmployee
        /\ In (InsertEmployee.employeeId employeeData) (employeeIds st)
        /\ Api.putEmployee st id employeeData
           = (st, Api.Failure 400 "Employee ID already exists"))
  \/ (exists existingEmployee st' updated,
        getEmployee st id = Some existingEmployee
        /\ (InsertEmployee.employeeId employeeData = Employee.employeeId existingEmployee
            \/ ~ In (InsertEmployee.employeeId employeeData) (employeeIds st))
        /\ updateEmployee st id (Api.allFields employeeData) = Returned (st', updated)
        /\ Employee.employeeId updated = InsertEmployee.employeeId employeeData
        /\ Api.putEmployee st id employeeData = (st', Api.Json 200 updated)).
Proof.
  unfold Api.putEmployee.
  destruct (getEmployee st id) as [existing|] eqn:Hget; [|left; auto].
  right.
  assert (Hup : exists st' updated,
             updateEmployee st id (Api.allFields employeeData) = Returned (st', updated)
             /\ Employee.employeeId updated = InsertEmployee.employeeId employeeData).
  { unfold updateEmployee. unfold getEmployee in Hget. rewrite Hget.
    eexists. eexists. split; reflexivity. }
  destruct Hup as (st' & updated & Hup & Hid).
  destruct (InsertEmployee.employeeId employeeData =? Employee.employeeId existing) eqn:E.
  - right. exists existing, st', updated. rewrite Hup. apply Z.eqb_eq in E. auto 6.
  - apply Z.eqb_neq in E.
    destruct (getEmployeeByEmployeeId st (InsertEmployee.employeeId employeeData))
      as [e|] eqn:Hf.
    + left. exists existing. repeat split; auto.
      destruct (getEmployeeByEmployeeId_found _ _ _ Hf) as [<- Hin].
      unfold employeeIds. now apply in_map.
    + right. exists existing, st', updated. rewrite Hup.
      apply getEmployeeByEmployeeId_none in Hf. auto 6.
Qed.

Lemma served_reachable st : served st -> reachable st.
Proof.
  induction 1 as [| st d _ IH | st id d _ IH | st id _ IH | st ts req _ IH
                  | st id req _ IH | st id _ IH].
  - exact constructed_reachable.
  - destruct (postEmployee_cases st d) as [[_ ->]|[_ ->]]; [exact IH|].
    now apply reach_addEmployee.
  - destruct (putEmployee_cases st id d)
      as [[_ ->]|[(e & _ & _ & _ & ->)|(e & st' & u & _ & _ & Hup & _ & ->)]];
      try exact IH.
    eapply reach_updateEmployee; [exact IH | exact Hup].
  - unfold Api.deleteEmployee. destruct (getEmployee st id); [|exact IH].
    now apply reach_deleteEmployee.
  - unfold Routes.postShift.
    match goal with
    | |- context [addShift ts st ?sd ?ls] =>
        assert (Hr : reachable (fst (addShift ts st sd ls)))
          by (apply reach_addShift; exact IH);
        destruct (addShift ts st sd ls) as [st' saved]
    end.
    exact Hr.
  - unfold Routes.putShift. destruct (getShift st id); [|exact IH].
    match goal with
    | |- context [updateShift st id ?sd ?ls] =>
        destruct (updateShift st id sd ls) as [[st' r]|] eqn:Hup
    end; [|exact IH].
    eapply reach_updateShift; [exact IH | exact Hup].
  - unfold Api.deleteShift. destruct (getShift st id); [|exact IH].
    now apply reach_deleteShift.
Qed.

(** Replacing the number of one employee by a number not in use keeps the
    numbers distinct. *)
Lemma NoDup_replace (l1 l2 : list Z) (old new : Z) :
  NoDup (l1 ++ old :: l2) ->
  new = old \/ ~ In new (l1 ++ old :: l2) ->
  NoDup (l1 ++ new :: l2).
Proof.
  intros Hnd [->|Hnew]; [exact Hnd|].
  pose proof (NoDup_remove_1 _ _ _ Hnd) as H1.
  apply (NoDup_Add (Add_app new l1 l2)).
  split; [exact H1|]. intros Hin. apply Hnew.
  apply in_app_or in Hin. apply in_or_app. simpl. tauto.
Qed.

Lemma updateEmployee_unique st id employeeData existingEmployee st' updated :
  employeesOk st -> uniqueEmployeeIds st ->
  getEmployee st id = Some existingEmployee ->
  InsertEmployee.employeeId employeeData = Employee.employeeId existingEmployee
  \/ ~ In (InsertEmployee.employeeId employeeData) (employeeIds st) ->
  updateEmployee st id (Api.allFields employeeData) = Returned (st', updated) ->
  uniqueEmployeeIds st'.
Proof.
  intros Hok Hu Hget Hnew Hup.
  destruct (RecordFacts.updateEmployee_store _ _ _ _ _ Hup) as (ex & Hget' & _ & He & _).
  assert (Hid : Employee.employeeId updated = InsertEmployee.employeeId employeeData).
  { unfold updateEmployee in Hup. unfold getEmployee in Hget. rewrite Hget in Hup.
    now injection Hup as _ <-. }
  unfold uniqueEmployeeIds, employeeIds, getEmployees in *. rewrite He.
  destruct (RecordFacts.get_split _ _ _ _ Hget) as (m1 & m2 & Hm & Hk).
  rewrite Hm in *. rewrite RecordFacts.set_split by assumption.
  unfold JSMap.values in *. rewrite !map_app in *. cbn [map snd] in *.
  rewrite Hid. eapply NoDup_replace; [exact Hu | exact Hnew].
Qed.

Lemma served_unique st : served st -> uniqueEmployeeIds st.
Proof.
  induction 1 as [| st d Hs IH | st id d Hs IH | st id Hs IH | st ts req Hs IH
                  | st id req Hs IH | st id Hs IH].
  - exact constructed_unique.
  - destruct (postEmployee_cases st d) as [[_ ->]|[Hnew ->]]; [exact IH|].
    cbn [fst]. unfold uniqueEmployeeIds, employeeIds in *.
    destruct (addEmployee_stores_employee st d (served_reachable st Hs)) as [-> _].
    rewrite map_app. cbn [map Employee.employeeId].
    apply NoDup_app; [exact IH | constructor; [intros []|constructor] |].
    intros k Hk [<-|[]]. exact (Hnew Hk).
  - destruct (putEmployee_cases st id d)
      as [[_ ->]|[(e & _ & _ & _ & ->)|(e & st' & u & Hget & Hnew & Hup & _ & ->)]];
      try exact IH.
    exact (updateEmployee_unique st id d e st' u
             (RecordFacts.reachable_employeesOk st (served_reachable st Hs))
             IH Hget Hnew Hup).
  - unfold Api.deleteEmployee. destruct (getEmployee st id); [|exact IH].
    cbn [fst]. unfold uniqueEmployeeIds, employeeIds, getEmployees.
    cbn [deleteEmployee employees].
    rewrite (RecordFacts.values_delete _ Employee.id _ _ id
               (RecordFacts.reachable_employeesOk st (served_reachable st Hs))).
    now apply employeeIds_filter.
  - unfold Routes.postShift.
    match goal with
    | |- context [addShift ts st ?sd ?ls] =>
        destruct (ShiftLifecycle.addShift_store ts st sd ls
                    (ShiftLifecycle.reachable_wf st (served_reachable st Hs)))
          as (_ & He & _);
        destruct (addShift ts st sd ls) as [st' saved]
    end.
    cbn [fst] in *. unfold uniqueEmployeeIds, employeeIds, getEmployees in *.
    now rewrite He.
  - unfold Routes.putShift. destruct (getShift st id) as [existing|] eqn:Hget; [|exact IH].
    match goal with
    | |- context [updateShift st id ?sd ?ls] =>
        destruct (ShiftLifecycle.updateShift_store st id existing sd ls
                    (ShiftLifecycle.reachable_wf st (served_reachable st Hs)) Hget)
          as (st' & results & Heq & He & _)
    end.
    rewrite Heq. cbn [fst]. unfold uniqueEmployeeIds, employeeIds, getEmployees in *.
    now rewrite He.
  - unfold Api.deleteShift. destruct (getShift st id); exact IH.
Qed.

End ServedFacts.

(** In every state the routes can bring the store to, no two employees have
    the same employee number, and the look-ups by identifier and by
    employee number both find each stored employee. *)
Theorem served_employee_numbers_distinct (st : MemStorage.t) :
  served st ->
  NoDup (map Employee.employeeId (getEmployees st))
  /\ (forall e, In e (getEmployees st) ->
        getEmployee st (Employee.id e) = Some e
        /\ getEmployeeByEmployeeId st (Employee.employeeId e) = Some e).
Proof.
  intros Hs. pose proof (ServedFacts.served_unique st Hs) as Hu.
  split; [exact Hu|]. intros e He. split.
  - apply EmployeeFacts.stored_employee; [|exact He].
    apply RecordFacts.reachable_employeesOk, ServedFacts.served_reachable, Hs.
  - now apply EmployeeFacts.lookup_by_number.
Qed.

Lemma served_employee_numbers_distinct_witness :
  NoDup (map Employee.employeeId
           (getEmployees
              (fst (Api.postEmployee constructed
                      (InsertEmployee.mk 40 "Ada" "L" ["Server"%string]))))).
Proof.
  apply (served_employee_numbers_distinct
           (fst (Api.postEmployee constructed
                   (InsertEmployee.mk 40 "Ada" "L" ["Server"%string])))).
  apply served_postEmployee, served_constructed.
Defined.

(** [POST /api/employees] answers 400 and leaves the store as it is exactly
    when the employee number is in use; otherwise it answers 201 with the
    new employee, stored last under a fresh identifier and found by its
    number. *)
Theorem postEmployee_rejects_number_in_use
    (st : MemStorage.t) (employeeData : InsertEmployee.t) :
  served st ->
  (In (InsertEmployee.employeeId employeeData) (map Employee.employeeId (getEmployees st))
   /\ Api.postEmployee st employeeData
      = (st, Api.Failure 400 "Employee ID already exists"))
  \/ (~ In (InsertEmployee.employeeId employeeData)
           (map Employee.employeeId (getEmployees st))
      /\ exists st' added,
           Api.postEmployee st employeeData = (st', Api.Json 201 added)
           /\ added = Employee.mk (employee (ids st))
                        (InsertEmployee.employeeId employeeData)
                        (InsertEmployee.firstName employeeData)
                        (InsertEmployee.lastName employeeData)
                        (InsertEmployee.positions employeeData)
           /\ getEmployees st' = getEmployees st ++ [added]
           /\ getEmployeeByEmployeeId st' (InsertEmployee.employeeId employeeData)
              = Some added).
Proof.
  intros Hs.
  pose proof (served_postEmployee employeeData Hs) as Hs'.
  destruct (ServedFacts.postEmployee_cases st employeeData) as [[Hin Heq]|[Hin Heq]].
  - left. auto.
  - right. split; [exact Hin|]. rewrite Heq in *. cbn [fst] in Hs'.
    eexists. eexists. split; [reflexivity|]. split; [reflexivity|].
    destruct (ServedFacts.addEmployee_stores_employee st employeeData
                (ServedFacts.served_reachable st Hs)) as [Hlist _].
    split; [exact Hlist|].
    match goal with
    | |- getEmployeeByEmployeeId ?s _ = Some ?e =>
        apply (EmployeeFacts.lookup_by_number s e (ServedFacts.served_unique s Hs'))
    end.
    rewrite Hlist. apply in_or_app. right. now left.
Qed.

Lemma postEmployee_rejects_number_in_use_witness :
  Api.statusOf (snd (Api.postEmployee constructed
                       (InsertEmployee.mk 15 "Ada" "L" ["Server"%string]))) = 400
  /\ Api.statusOf (snd (Api.postEmployee constructed
                          (InsertEmployee.mk 40 "Ada" "L" ["Server"%string]))) = 201.
Proof.
  split.
  - destruct (postEmployee_rejects_number_in_use constructed
                (InsertEmployee.mk 15 "Ada" "L" ["Server"%string]) served_constructed)
      as [[_ Heq]|[Hnot _]].
    + rewrite Heq. reflexivity.
    + exfalso. apply Hnot. vm_compute. tauto.
  - destruct (postEmployee_rejects_number_in_use constructed
                (InsertEmployee.mk 40 "Ada" "L" ["Server"%string]) served_constructed)
      as [[Hin _]|[_ (st' & added & Heq & _)]].
    + exfalso. vm_compute in Hin. intuition discriminate.
    + rewrite Heq. reflexivity.
Defined.

(** [PUT /api/employees/:id] answers 404 for an identifier that is not
    stored, and 400 when the body changes the employee number to one in use;
    in both cases the store stays as it is.  Otherwise it answers 200 with
    the employee holding the fields of the body under the same identifier,
    which is what the store then returns for the identifier and for the
    number. *)
Theorem putEmployee_outcomes
    (st : MemStorage.t) (id : Z) (employeeData : InsertEmployee.t) :
  served st ->
  (getEmployee st id = None
   /\ Api.putEmployee st id employeeData = (st, Api.Failure 404 "Employee not found"))
  \/ (exists existingEmployee,
        getEmployee st id = Some existingEmployee
        /\ InsertEmployee.employeeId employeeData <> Employee.employeeId existingEmployee
        /\ In (InsertEmployee.employeeId employeeData)
              (map Employee.employeeId (getEmployees st))
        /\ Api.putEmployee st id employeeData
           = (st, Api.Failure 400 "Employee ID already exists"))
  \/ (exists existingEmployee st' updated,
        getEmployee st id = Some existingEmployee
        /\ (InsertEmployee.employeeId employeeData = Employee.employeeId existingEmployee
            \/ ~ In (InsertEmployee.employeeId employeeData)
                    (map Employee.employeeId (getEmployees st)))
        /\ Api.putEmployee st id employeeData = (st', Api.Json 200 updated)
        /\ updated = Employee.mk id
                       (InsertEmployee.employeeId employeeData)
                       (InsertEmployee.firstName employeeData)
                       (InsertEmployee.lastName employeeData)
                       (InsertEmployee.positions employeeData)
        /\ getEmployee st' id = Some updated
        /\ getEmployeeByEmployeeId st' (InsertEmployee.employeeId employeeData)
           = Some updated
        /\ List.length (getEmployees st') = List.length (getEmployees st)).
Proof.
  intros Hs.
  pose proof (served_putEmployee id employeeData Hs) as Hs'.
  pose proof (RecordFacts.reachable_employeesOk st (ServedFacts.served_reachable st Hs))
    as Hok.
  destruct (ServedFacts.putEmployee_cases st id employeeData)
    as [H404|[H400|(existing & st' & updated & Hget & Hnew & Hup & Hid & Heq)]].
  - left. exact H404.
  - right. left. exact H400.
  - right. right. rewrite Heq in Hs'. cbn [fst] in Hs'.
    exists existing, st', updated.
    destruct (RecordFacts.recordsOk_get _ Employee.id _ _ _ _ Hok Hget) as [Hkey _].
    assert (Hupd : updated = Employee.mk id
                     (InsertEmployee.employeeId employeeData)
                     (InsertEmployee.firstName employeeData)
                     (InsertEmployee.lastName employeeData)
                     (InsertEmployee.positions employeeData)).
    { unfold updateEmployee in Hup. unfold getEmployee in Hget. rewrite Hget in Hup.
      injection Hup as _ <-. cbn [Api.allFields spread PartialInsertEmployee.employeeId
        PartialInsertEmployee.firstName PartialInsertEmployee.lastName
        PartialInsertEmployee.positions]. now rewrite Hkey. }
    destruct (RecordFacts.updateEmployee_store _ _ _ _ _ Hup) as (ex & _ & _ & He & _).
    assert (Hstored : getEmployee st' id = Some updated).
    { unfold getEmployee. rewrite He. apply JSMapFacts.get_set_same. }
    split; [exact Hget|]. split; [exact Hnew|]. split; [exact Heq|].
    split; [exact Hupd|]. split; [exact Hstored|]. split.
    + rewrite <- Hid.
      apply (EmployeeFacts.lookup_by_number st' updated (ServedFacts.served_unique st' Hs')).
      exact (EmployeeFacts.getEmployee_stored _ _ _ Hstored).
    + unfold getEmployees. rewrite He.
      destruct (RecordFacts.get_split _ _ _ _ Hget) as (m1 & m2 & -> & Hk).
      rewrite RecordFacts.set_split by assumption.
      unfold JSMap.values. rewrite !length_map, !length_app. reflexivity.
Qed.

Lemma putEmployee_outcomes_witness :
  Api.statusOf (snd (Api.putEmployee constructed 77
                       (InsertEmployee.mk 3 "Johnny" "M" ["Server"%string]))) = 404
  /\ Api.statusOf (snd (Api.putEmployee constructed 1
                          (InsertEmployee.mk 15 "Johnny" "M" ["Server"%string]))) = 400
  /\ Api.statusOf (snd (Api.putEmployee constructed 1
                          (InsertEmployee.mk 3 "Johnny" "M" ["Server"%string]))) = 200.
Proof.
  assert (H := fun id d => putEmployee_outcomes constructed id d served_constructed).
  split; [|split].
  - destruct (H 77 (InsertEmployee.mk 3 "Johnny" "M" ["Server"%string]))
      as [[_ Heq]|[(e & Hget & _)|(e & st' & u & Hget & _)]];
      [rewrite Heq; reflexivity | discriminate Hget | discriminate Hget].
  - destruct (H 1 (InsertEmployee.mk 15 "Johnny" "M" ["Server"%string]))
      as [[Hget _]|[(e & _ & _ & _ & Heq)|(e & st' & u & Hget & Hnew & _)]].
    + discriminate Hget.
    + rewrite Heq. reflexivity.
    + exfalso. injection Hget as <-. destruct Hnew as [Hnew|Hnew].
      * discriminate Hnew.
      * apply Hnew. vm_compute. tauto.
  - destruct (H 1 (InsertEmployee.mk 3 "Johnny" "M" ["Server"%string]))
      as [[Hget _]|[(e & Hget & Hne & _)|(e & st' & u & _ & _ & Heq & _)]].
    + discriminate Hget.
    + exfalso. injection Hget as <-. apply Hne. reflexivity.
    + rewrite Heq. reflexivity.
Defined.

(* ================================================================== *)
(** * Reading and deleting a shift through the routes *)
(* ================================================================== *)

Module ShiftRouteFacts.



Lemma getShift_route_same st st' k :
  getShift st' k = getShift st k ->
  getShiftEmployees st' k = getShiftEmployees st k ->
  employees st' = employees st ->
  Api.getShift st' k = Api.getShift st k.
Proof.
  intros Hs Hl He. unfold Api.getShift.
  rewrite Hs, Hl, !EmployeeFacts.getShiftResults_rows, Hl.
  now rewrite (EmployeeFacts.rowsFor_same_employees _ st' st _ _ _ He).
Qed.

End ShiftRouteFacts.

(** After [deleteShift] the shift is not found and has no lines. *)
Lemma deleteShift_removes_lines_helper (st : MemStorage.t) (id : Z) :
  getShift (deleteShift st id) id = None
  /\ forall e, In e (shiftEmployees (deleteShift st id)) ->
               ShiftEmployee.shiftId (snd e) <> id.
Proof.
  destruct (ShiftLifecycle.deleteShift_store st id) as (_ & Hs & Hse & _). split.
  - unfold getShift. rewrite Hs. apply JSMapFacts.get_delete_same.
  - intros e He. rewrite Hse in He.
    exact (MemStorageFacts.deleteKeys_none_left id _ e He).
Qed.



(** [DELETE /api/shifts/:id] answers 404 and leaves the store as it is for
    an identifier that is not stored.  For a stored shift it answers 204;
    afterwards reading the shift and deleting it again answer 404, the list
    of shifts has no entry for it, and reading any other shift answers what
    it answered before. *)
Theorem deleteShift_route_then_read (st : MemStorage.t) (id : Z) :
  reachable st ->
  match getShift st id with
  | None => Api.deleteShift st id = (st, Api.Failure 404 "Shift not found")
  | Some _ =>
      let st' := fst (Api.deleteShift st id) in
      snd (Api.deleteShift st id) = Api.NoContent 204
      /\ Api.getShift st' id = Api.Failure 404 "Shift not found"
      /\ Api.deleteShift st' id = (st', Api.Failure 404 "Shift not found")
      /\ (forall entry, In entry (getShiftWithEmployeeCount st') ->
            Shift.id (countedShift entry) <> id)
      /\ (forall k, k <> id -> Api.getShift st' k = Api.getShift st k)
  end.
Proof.
  intros Hr.
  destruct (getShift st id) as [existing|] eqn:Hget;
    [|unfold Api.deleteShift; now rewrite Hget].
  assert (Hdel : Api.deleteShift st id = (deleteShift st id, Api.NoContent 204))
    by (unfold Api.deleteShift; now rewrite Hget).
  rewrite Hdel. cbn [fst snd].
  destruct (deleteShift_removes_lines_helper st id) as [Hnone _].
  split; [reflexivity|]. split; [|split; [|split]].
  - unfold Api.getShift. now rewrite Hnone.
  - unfold Api.deleteShift. now rewrite Hnone.
  - intros entry He.
    unfold getShiftWithEmployeeCount in He. rewrite ListingFacts.listing_map in He.
    cbn [app] in He. apply in_map_iff in He. destruct He as (s & <- & Hs).
    cbn [countedShift].
    apply (Permutation_in _ (SortFacts.sort_perm _ Shift.createdAt _)) in Hs.
    unfold JSMap.values in Hs. apply in_map_iff in Hs. destruct Hs as ([k v] & Hv & Hin).
    simpl in Hv. subst v.
    pose proof (RecordFacts.reachable_shiftsOk _ (reach_deleteShift id Hr)) as [Hall _].
    rewrite Forall_forall in Hall. destruct (Hall _ Hin) as [Hid _]. simpl in Hid.
    rewrite Hid. intros ->.
    apply (RecordFacts.In_get _ _ _ _
             (proj2 (RecordFacts.reachable_shiftsOk _ (reach_deleteShift id Hr)))) in Hin.
    unfold getShift in Hnone. rewrite Hnone in Hin. discriminate.
  - intros k Hk.
    destruct (deleteShift_frame st id k (ShiftLifecycle.reachable_wf st Hr) Hk) as [Hs Hl].
    now apply ShiftRouteFacts.getShift_route_same.
Qed.

Lemma deleteShift_route_then_read_witness :
  Api.getShift (fst (Api.deleteShift Sample.saved 1)) 1
  = Api.Failure 404 "Shift not found".
Proof.
  pose proof (deleteShift_route_then_read Sample.saved 1) as H.
  assert (Hr : reachable Sample.saved)
    by (unfold Sample.saved, Sample.staffed;
        apply reach_addShift, reach_addEmployee, reach_addEmployee, reach_empty).
  specialize (H Hr).
  change (getShift Sample.saved 1)
    with (Some (Shift.mk 1 "2024-05-01" "Dinner" 80 20 20 1700000000000)) in H.
  destruct H as (_ & Hread & _). exact Hread.
Defined.

(* ================================================================== *)
(** * The allocation: signs, zero points, the route and the utility *)
(* ================================================================== *)

Module AllocationFacts.

Import AllocationSpec.

Lemma not_lt_zero (x : number) :
  PrimFloat.ltb x PrimFloat.zero = false <-> SFnotBelowZero (Prim2SF x) = true.
Proof.
  rewrite FloatAxioms.ltb_spec, NumberFacts.zero_SF. unfold SFltb.
  destruct (Prim2SF x) as [s|s| |s m e]; simpl; try tauto; destruct s; simpl;
    split; intros; try reflexivity; discriminate.
Qed.

Lemma gt_zero (x : number) :
  PrimFloat.ltb PrimFloat.zero x = true <-> SFaboveZero (Prim2SF x) = true.
Proof.
  rewrite FloatAxioms.ltb_spec, NumberFacts.zero_SF. unfold SFltb.
  destruct (Prim2SF x) as [s|s| |s m e]; simpl; try (split; intros; discriminate);
    destruct s; simpl; split; intros; try reflexivity; discriminate.
Qed.

Lemma eq_zero (x : number) :
  PrimFloat.eqb x PrimFloat.zero = true <-> exists s, Prim2SF x = S754_zero s.
Proof.
  rewrite FloatAxioms.eqb_spec, NumberFacts.zero_SF. unfold SFeqb.
  destruct (Prim2SF x) as [s|s| |s m e]; simpl.
  - split; eauto.
  - destruct s; split; try discriminate; intros [? ?]; discriminate.
  - split; try discriminate; intros [? ?]; discriminate.
  - destruct s; split; try discriminate; intros [? ?]; discriminate.
Qed.

Lemma isFinite_SF (x : number) : isFinite x = true <-> SFfinite (Prim2SF x) = true.
Proof.
  unfold isFinite. rewrite FloatAxioms.ltb_spec, FloatAxioms.abs_spec.
  change (Prim2SF infinity) with (S754_infinity false). unfold SFltb.
  destruct (Prim2SF x) as [s|s| |s m e]; simpl; split; intros;
    try reflexivity; try discriminate.
Qed.

(** A number not below zero over a number above zero is not below zero. *)
Lemma div_notBelowZero (x y : number) :
  SFnotBelowZero (Prim2SF x) = true -> SFaboveZero (Prim2SF y) = true ->
  SFnotBelowZero (Prim2SF (x / y)) = true.
Proof.
  rewrite FloatAxioms.div_spec. unfold SF64div, SFdiv.
  destruct (Prim2SF x) as [sx|sx| |sx mx ex], (Prim2SF y) as [sy|sy| |sy my ey];
    simpl; try reflexivity; try discriminate;
    destruct sx, sy; simpl; try discriminate; try reflexivity; intros _ _.
  destruct (SFdiv_core_binary prec emax (Zpos mx) ex (Zpos my) ey) as [[mz ez] lz].
  pose proof (NumberFacts.round_aux_notNegative mz ez lz) as H.
  destruct (binary_round_aux prec emax false mz ez lz); simpl in *; auto.
Qed.

Lemma mul_notBelowZero (x y : number) :
  SFnotBelowZero (Prim2SF x) = true -> SFnotBelowZero (Prim2SF y) = true ->
  SFnotBelowZero (Prim2SF (x * y)) = true.
Proof.
  rewrite FloatAxioms.mul_spec. unfold SF64mul, SFmul.
  destruct (Prim2SF x) as [sx|sx| |sx mx ex], (Prim2SF y) as [sy|sy| |sy my ey];
    simpl; try reflexivity; try discriminate;
    destruct sx, sy; simpl; try discriminate; try reflexivity; intros _ _.
  pose proof (NumberFacts.round_aux_notNegative (Zpos (mx * my)) (ex + ey) loc_Exact) as H.
  destruct (binary_round_aux prec emax false (Zpos (mx * my)) (ex + ey) loc_Exact);
    simpl in *; auto.
Qed.

(** A zero over a number above zero is a zero, and a finite number times a
    zero is a zero. *)
Lemma zero_share (pool points totalPoints : number) :
  PrimFloat.eqb points PrimFloat.zero = true ->
  PrimFloat.ltb PrimFloat.zero totalPoints = true ->
  isFinite pool = true ->
  PrimFloat.eqb (NumberSpec.share pool points totalPoints) PrimFloat.zero = true.
Proof.
  intros Hp Ht Hf. apply eq_zero in Hp. destruct Hp as [sp Hp].
  apply gt_zero in Ht. apply isFinite_SF in Hf. apply eq_zero.
  unfold NumberSpec.share.
  rewrite FloatAxioms.mul_spec, FloatAxioms.div_spec, Hp.
  unfold SF64mul, SF64div.
  destruct (Prim2SF totalPoints) as [s1|s1| |s1 m1 e1]; simpl in Ht; try discriminate;
    destruct (Prim2SF pool) as [s2|s2| |s2 m2 e2]; simpl in Hf; try discriminate;
    simpl; eauto.
Qed.

(** The total of the route is the total of the utility when every line has
    plain points. *)
Lemma totals_agree (employees : list ShiftEmployeeInput.t) :
  Forall plainPoints employees ->
  forall acc,
    fold_left (fun sum emp => (sum + ShiftEmployeeInput.points emp)%float) employees acc
    = fold_left
        (fun sum employee =>
           (sum + JSNumber.or_else (ShiftEmployeeInput.points employee) PrimFloat.zero)%float)
        employees acc.
Proof.
  induction 1 as [|e l He _ IH]; intros acc; simpl; [reflexivity|].
  rewrite IH. do 2 f_equal. unfold JSNumber.or_else.
  destruct He as [Ht | Hz]; [now rewrite Ht | now rewrite Hz].
Qed.

End AllocationFacts.

Import AllocationSpec.

(** When the pools and the points of every line are not below zero and the
    total of the points is above zero, no allocated amount is below zero. *)
Theorem calculateEmployeeTips_never_negative
    (employees : list ShiftEmployeeInput.t) (digitalTipsTotal cashTipsTotal : number) :
  PrimFloat.ltb PrimFloat.zero (calculateTotalPoints employees) = true ->
  PrimFloat.ltb digitalTipsTotal PrimFloat.zero = false ->
  PrimFloat.ltb cashTipsTotal PrimFloat.zero = false ->
  Forall (fun e => PrimFloat.ltb (ShiftEmployeeInput.points e) PrimFloat.zero = false)
         employees ->
  Forall (fun line =>
            PrimFloat.ltb (TipLine.digitalTips line) PrimFloat.zero = false
            /\ PrimFloat.ltb (TipLine.cashTips line) PrimFloat.zero = false)
         (results (calculateEmployeeTips employees digitalTipsTotal cashTipsTotal)).
Proof.
  intros Hpos Hd Hc Hpoints.
  unfold calculateEmployeeTips, JSNumber.strict_eq.
  rewrite (NumberFacts.gt_zero_not_eq _ Hpos). cbn [results].
  apply AllocationFacts.gt_zero in Hpos.
  apply AllocationFacts.not_lt_zero in Hd, Hc.
  apply Forall_map. eapply Forall_impl; [|exact Hpoints].
  intros e He. apply AllocationFacts.not_lt_zero in He.
  cbn [tipLine TipLine.digitalTips TipLine.cashTips].
  split; apply AllocationFacts.not_lt_zero, AllocationFacts.mul_notBelowZero;
    try assumption; now apply AllocationFacts.div_notBelowZero.
Qed.

Lemma calculateEmployeeTips_never_negative_witness :
  Forall (fun line =>
            PrimFloat.ltb (TipLine.digitalTips line) PrimFloat.zero = false
            /\ PrimFloat.ltb (TipLine.cashTips line) PrimFloat.zero = false)
         (results (calculateEmployeeTips [Sample.input 3 3; Sample.input 15 0] 100 20)).
Proof.
  apply calculateEmployeeTips_never_negative.
  - reflexivity.
  - reflexivity.
  - reflexivity.
  - repeat constructor.
Defined.

(** When the total of the points is above zero and a pool is a finite
    number, a line with zero points is allocated zero from that pool. *)
Theorem calculateEmployeeTips_zero_points_zero_tips
    (employees : list ShiftEmployeeInput.t) (digitalTipsTotal cashTipsTotal : number)
    (line : TipLine.t) :
  PrimFloat.ltb PrimFloat.zero (calculateTotalPoints employees) = true ->
  In line (results (calculateEmployeeTips employees digitalTipsTotal cashTipsTotal)) ->
  PrimFloat.eqb (TipLine.points line) PrimFloat.zero = true ->
  (isFinite digitalTipsTotal = true ->
   PrimFloat.eqb (TipLine.digitalTips line) PrimFloat.zero = true)
  /\ (isFinite cashTipsTotal = true ->
      PrimFloat.eqb (TipLine.cashTips line) PrimFloat.zero = true).
Proof.
  intros Hpos Hin Hzero. revert Hin.
  unfold calculateEmployeeTips, JSNumber.strict_eq.
  rewrite (NumberFacts.gt_zero_not_eq _ Hpos). cbn [results].
  intros Hin. apply in_map_iff in Hin. destruct Hin as (e & <- & _).
  cbn [tipLine TipLine.digitalTips TipLine.cashTips TipLine.points] in *.
  split; intros Hf; now apply AllocationFacts.zero_share.
Qed.

Lemma calculateEmployeeTips_zero_points_zero_tips_witness :
  PrimFloat.eqb
    (TipLine.digitalTips
       (tipLine 100 20 (calculateTotalPoints [Sample.input 3 3; Sample.input 15 0])
          (Sample.input 15 0)))
    PrimFloat.zero = true.
Proof.
  destruct (calculateEmployeeTips_zero_points_zero_tips
              [Sample.input 3 3; Sample.input 15 0] 100 20
              (tipLine 100 20 (calculateTotalPoints [Sample.input 3 3; Sample.input 15 0])
                 (Sample.input 15 0)))
    as [Hd _].
  - reflexivity.
  - right. left. reflexivity.
  - reflexivity.
  - apply Hd. reflexivity.
Defined.

(** When no line has [NaN] or [-0] points, the calculate-tips route and
    [calculateEmployeeTips] agree: the route answers 400 exactly when the
    utility returns no line for a zero total, and otherwise its rows are the
    lines of the utility for the digital pool [creditCardTips + houseTips]
    and the cash pool, each with the employee's name. *)
Theorem calculateTips_route_agrees_with_utility
    (st : MemStorage.t) (shiftData : ShiftInput.t) :
  Forall plainPoints (ShiftInput.employees shiftData) ->
  Routes.calculateTips st shiftData
  = if JSNumber.strict_eq (calculateTotalPoints (ShiftInput.employees shiftData))
                          PrimFloat.zero
    then Routes.mkResponse 400 (Routes.Message "Total points cannot be zero")
    else Routes.mkResponse 200
           (Routes.TipResults
              (map (named st)
                 (results
                    (calculateEmployeeTips (ShiftInput.employees shiftData)
                       (ShiftInput.creditCardTips shiftData + ShiftInput.houseTips shiftData)
                       (ShiftInput.cashTips shiftData))))).
Proof.
  intros Hplain. unfold Routes.calculateTips, calculateEmployeeTips.
  rewrite (AllocationFacts.totals_agree _ Hplain PrimFloat.zero).
  fold (calculateTotalPoints (ShiftInput.employees shiftData)).
  destruct (JSNumber.strict_eq _ _); [reflexivity|].
  cbn [results]. rewrite !map_map. reflexivity.
Qed.

Lemma calculateTips_route_agrees_with_utility_witness :
  Routes.calculateTips Sample.staffed
    (ShiftInput.mk "2024-05-01" "Dinner" 80 20 20 [Sample.input 3 3; Sample.input 99 1])
  = Routes.mkResponse 200
      (Routes.TipResults
         [TipDistributionResult.mk 3 "Johnny M" "Server" 3 3 75 15;
          TipDistributionResult.mk 99 "Employee #99" "Server" 1 1 25 5]).
Proof.
  rewrite calculateTips_route_agrees_with_utility.
  - reflexivity.
  - repeat constructor.
Defined.

(* ================================================================== *)
(** * Hours worked: equal clock times, the local time zone *)
(* ================================================================== *)

Module HoursFacts.

Import AllocationSpec.

(** Zero over a number above zero is zero. *)
Lemma zero_div (g : number) :
  PrimFloat.ltb PrimFloat.zero g = true -> (PrimFloat.zero / g)%float = PrimFloat.zero.
Proof.
  intros Hg. apply AllocationFacts.gt_zero in Hg. apply Prim2SF_inj.
  rewrite FloatAxioms.div_spec, NumberFacts.zero_SF. unfold SF64div, SFdiv.
  destruct (Prim2SF g) as [s|s| |s m e]; simpl in *; try discriminate;
    destruct s; try discriminate; reflexivity.
Qed.

(** Zero times a finite number above zero is zero. *)
Lemma zero_mul (g : number) :
  PrimFloat.ltb PrimFloat.zero g = true -> g <> PrimFloat.infinity ->
  (PrimFloat.zero * g)%float = PrimFloat.zero.
Proof.
  intros Hg Hinf. apply AllocationFacts.gt_zero in Hg. apply Prim2SF_inj.
  rewrite FloatAxioms.mul_spec, NumberFacts.zero_SF. unfold SF64mul, SFmul.
  destruct (Prim2SF g) as [s|s| |s m e] eqn:E; simpl in *; try discriminate;
    destruct s; try discriminate; try reflexivity.
  exfalso. apply Hinf. apply Prim2SF_inj. rewrite E. reflexivity.
Qed.

Lemma applyRounding_zero (g : number) :
  g <> PrimFloat.infinity -> applyRounding g PrimFloat.zero = PrimFloat.zero.
Proof.
  intros Hinf. unfold applyRounding, JSNumber.gt.
  destruct (PrimFloat.ltb PrimFloat.zero g) eqn:Hg; [|reflexivity].
  replace (JSNumber.rem PrimFloat.zero PrimFloat.one * JSNumber.of_Z 60)%float
    with PrimFloat.zero by reflexivity.
  rewrite (zero_div g Hg).
  replace (JSNumber.round PrimFloat.zero) with PrimFloat.zero by reflexivity.
  rewrite (zero_mul g Hg Hinf). reflexivity.
Qed.

End HoursFacts.

(** A clock-out equal to the clock-in gives 0 hours, not 24, with no
    granularity given and with every granularity other than [Infinity]. *)
Theorem calculateHoursWorked_equal_times
    (localMidnight : Z) (dateParse : string -> JSDate.t)
    (clock : string) (t : Z) (roundingMinutes : option number) :
  JSDate.parse_time clock = Some t ->
  roundingMinutes <> Some PrimFloat.infinity ->
  calculateHoursWorked localMidnight dateParse clock clock roundingMinutes
  = PrimFloat.zero.
Proof.
  intros Hparse Hg.
  rewrite (TimeFacts.calculateHoursWorked_parsed localMidnight dateParse
             _ _ _ _ _ Hparse Hparse).
  unfold shiftLength. rewrite Z.ltb_irrefl, Z.sub_diag.
  replace (JSNumber.of_Z 0 / msPerHour)%float with PrimFloat.zero by reflexivity.
  apply HoursFacts.applyRounding_zero.
  destruct roundingMinutes as [g|].
  - intros H. apply Hg. now rewrite H.
  - intros H. apply (f_equal Prim2SF) in H. vm_compute in H. discriminate.
Qed.

Lemma calculateHoursWorked_equal_times_witness :
  calculateHoursWorked Sample.utcMidnight Sample.strict "17:30" "17:30" (Some 0.5%float)
  = PrimFloat.zero.
Proof.
  apply (calculateHoursWorked_equal_times Sample.utcMidnight Sample.strict
           "17:30" 63000000).
  - reflexivity.
  - intros H.
    apply (f_equal (fun g => match g with Some x => Prim2SF x | None => S754_nan end)) in H.
    vm_compute in H. discriminate.
Defined.

(** A clock time with a UTC offset names a moment, one without is local
    time: from 09:00Z to 17:00 there are 8 hours in UTC and 13 in New
    York. *)
Lemma calculateHoursWorked_offset_example :
  calculateHoursWorked Sample.utcMidnight Sample.strict "09:00Z" "17:00"
    (Some PrimFloat.zero) = 8%float
  /\ calculateHoursWorked Sample.newYorkMidnight Sample.strict "09:00Z" "17:00"
       (Some PrimFloat.zero) = 13%float
  /\ calculateHoursWorked Sample.newYorkMidnight Sample.strict "09:00" "17:00"
       (Some PrimFloat.zero) = 8%float
  /\ calculateHoursWorked Sample.utcMidnight Sample.strict "23:00-10:00" "01:00+10:00"
       (Some PrimFloat.zero) = (-18)%float.
Proof. vm_compute. repeat split. Qed.

(** A clock time outside the format is what the implementation makes of
    it: where it reads [17:00:00.5] as half a second past 17:00, as the
    common engines do, the hours from 09:00 are 8 and half a second. *)
Lemma calculateHoursWorked_fraction_example :
  calculateHoursWorked Sample.utcMidnight
    (fun s => if String.eqb s "2000-01-01T17:00:00.5"
              then Some (Sample.utcMidnight + 61200500) else None)
    "09:00" "17:00:00.5" (Some PrimFloat.zero)
  = 0x1.000123456789bp+3%float
  /\ PrimFloat.ltb 8 0x1.000123456789bp+3 = true
  /\ PrimFloat.ltb 0x1.000123456789bp+3 8.00014 = true.
Proof. vm_compute. repeat split. Qed.

(** For clock times without a UTC offset, [HH:mm], [HH:mm:ss] or
    [HH:mm:ss.sss], the result does not depend on the local time zone nor
    on what the implementation makes of other strings: the two dates are
    taken on the same local day, and only their difference is used. *)
Theorem calculateHoursWorked_any_time_zone
    (localMidnight localMidnight' : Z) (dateParse dateParse' : string -> JSDate.t)
    (clockIn clockOut : string) (tin tout : Z)
    (roundingMinutes : option number) :
  JSDate.parse_time clockIn = Some tin ->
  JSDate.parse_time clockOut = Some tout ->
  calculateHoursWorked localMidnight dateParse clockIn clockOut roundingMinutes
  = calculateHoursWorked localMidnight' dateParse' clockIn clockOut roundingMinutes.
Proof.
  intros Hin Hout.
  now rewrite !(TimeFacts.calculateHoursWorked_parsed _ _ _ _ _ _ _ Hin Hout).
Qed.

Lemma calculateHoursWorked_any_time_zone_witness :
  calculateHoursWorked Sample.utcMidnight Sample.strict "22:30" "06:45" None
  = calculateHoursWorked Sample.newYorkMidnight (fun _ => Some 0) "22:30" "06:45" None.
Proof.
  apply (calculateHoursWorked_any_time_zone Sample.utcMidnight Sample.newYorkMidnight
           Sample.strict (fun _ => Some 0) "22:30" "06:45" 81000000 24300000).
  - reflexivity.
  - reflexivity.
Defined.

(* ================================================================== *)
(** * CSV export: the content reads back *)
(* ================================================================== *)

Module CsvFacts.

Import CsvExport CsvSpec.

Lemma string_app_assoc (a b c : string) : ((a ++ b) ++ c = a ++ (b ++ c))%string.
Proof. induction a as [|x a IH]; simpl; [reflexivity | now rewrite IH]. Qed.

Lemma string_app_empty (a : string) : (a ++ EmptyString)%string = a.
Proof. induction a as [|x a IH]; simpl; [reflexivity | now rewrite IH]. Qed.

Lemma push_app (cur : string) (c : ascii) (s : string) :
  (push cur c ++ s)%string = (cur ++ String c s)%string.
Proof. unfold push. now rewrite string_app_assoc. Qed.

Lemma special_false (c : ascii) :
  special c = false ->
  Ascii.eqb c quote = false /\ Ascii.eqb c comma = false /\ Ascii.eqb c newline = false.
Proof.
  unfold special. intros H.
  apply Bool.orb_false_iff in H as [H Hn]. apply Bool.orb_false_iff in H as [Hq Hc].
  auto.
Qed.

(** A comma ends the field outside quotes. *)
Lemma records_comma (st : state) (row : list string) (cur rest : string) :
  st <> Quoted ->
  records st row cur (String comma rest) = records FieldStart (row ++ [cur]) EmptyString rest.
Proof. intros Hst. destruct st; try congruence; reflexivity. Qed.

(** A newline ends the record outside quotes. *)
Lemma records_newline (st : state) (row : list string) (cur rest : string) :
  st <> Quoted ->
  records st row cur (String newline rest)
  = (row ++ [cur]) :: records FieldStart [] EmptyString rest.
Proof. intros Hst. destruct st; try congruence; reflexivity. Qed.

(** A run without special characters is taken as it stands. *)
Lemma records_bare (s : string) :
  test s = false ->
  forall (st : state) (row : list string) (cur rest : string),
  st = FieldStart \/ st = Bare ->
  exists st', st' <> Quoted /\
    records st row cur (s ++ rest) = records st' row (cur ++ s)%string rest.
Proof.
  induction s as [|c s IH]; intros Ht st row cur rest Hst.
  - exists st. rewrite string_app_empty. split; [|reflexivity].
    destruct Hst; subst; discriminate.
  - simpl in Ht. apply Bool.orb_false_iff in Ht as [Hc Ht].
    destruct (special_false c Hc) as (Hq & Hcm & Hn).
    destruct (IH Ht Bare row (push cur c) rest (or_intror eq_refl)) as (st' & Hst' & Heq).
    exists st'. split; [exact Hst'|].
    rewrite push_app in Heq. rewrite <- Heq.
    destruct Hst; subst; simpl; rewrite Hcm, Hn, Hq; reflexivity.
Qed.

(** Inside quotes the escaped text reads back up to the closing quote. *)
Lemma records_quoted (s : string) (row : list string) (cur rest : string) :
  records Quoted row cur (replace s ++ String quote rest)
  = records QuoteSeen row (cur ++ s)%string rest.
Proof.
  revert cur. induction s as [|c s IH]; intros cur.
  - rewrite string_app_empty. reflexivity.
  - simpl. destruct (Ascii.eqb c quote) eqn:Hq.
    + apply Ascii.eqb_eq in Hq. subst c. simpl.
      rewrite IH, push_app. reflexivity.
    + simpl. rewrite Hq, IH, push_app. reflexivity.
Qed.

Section Fields.

Variable any : Type.
Variable toString : any -> string.

Lemma records_field (field : any) (row : list string) (rest : string) :
  exists st', st' <> Quoted /\
    records FieldStart row EmptyString (formatField toString field ++ rest)
    = records st' row (toString field) rest.
Proof.
  unfold formatField. destruct (test (toString field)) eqn:Ht.
  - exists QuoteSeen. split; [discriminate|].
    change (records Quoted row EmptyString
              ((replace (toString field) ++ String quote EmptyString) ++ rest)
            = records QuoteSeen row (toString field) rest).
    rewrite string_app_assoc. simpl. apply records_quoted.
  - apply (records_bare _ Ht FieldStart row EmptyString rest). now left.
Qed.

Lemma records_row (row : list any) :
  row <> [] ->
  forall (before : list string) (rest : string),
  records FieldStart before EmptyString
    ((join "," (formattedRow toString row) ++ String newline EmptyString) ++ rest)
  = (before ++ map toString row) :: records FieldStart [] EmptyString rest.
Proof.
  induction row as [|f row IH]; [congruence|]. intros _ before rest.
  rewrite string_app_assoc.
  destruct row as [|g row].
  - cbn [formattedRow map join].
    destruct (records_field f before (String newline EmptyString ++ rest))
      as (st' & Hst' & Heq).
    rewrite Heq. cbn [append]. now rewrite records_newline.
  - change (join "," (formattedRow toString (f :: g :: row)))
      with (formatField toString f ++ ("," ++ join "," (formattedRow toString (g :: row))))%string.
    rewrite string_app_assoc.
    destruct (records_field f before
                (("," ++ join "," (formattedRow toString (g :: row)))
                   ++ String newline EmptyString ++ rest)) as (st' & Hst' & Heq).
    rewrite Heq. clear Heq. cbn [append].
    rewrite (records_comma st' _ _ _ Hst').
    specialize (IH ltac:(discriminate) (before ++ [toString f]) rest).
    rewrite string_app_assoc in IH. cbn [append] in IH. rewrite IH.
    rewrite <- app_assoc. reflexivity.
Qed.

Lemma records_rows (data : list (list any)) :
  Forall (fun row => row <> []) data ->
  forall text : string,
  fold_left
    (fun csvContent row =>
       (csvContent ++ (join "," (formattedRow toString row) ++ String newline EmptyString))%string)
    data text
  = (text ++ fold_right
       (fun row lines =>
          ((join "," (formattedRow toString row) ++ String newline EmptyString) ++ lines)%string)
       EmptyString data)%string.
Proof.
  intros _. induction data as [|row data IH]; intros text; simpl.
  - now rewrite string_app_empty.
  - rewrite IH, !string_app_assoc. reflexivity.
Qed.

Lemma records_lines (data : list (list any)) :
  Forall (fun row => row <> []) data ->
  records FieldStart [] EmptyString
    (fold_right
       (fun row lines =>
          ((join "," (formattedRow toString row) ++ String newline EmptyString) ++ lines)%string)
       EmptyString data)
  = map (map toString) data.
Proof.
  induction 1 as [|row data Hrow _ IH]; [reflexivity|].
  cbn [fold_right map]. rewrite (records_row row Hrow [] _), IH. reflexivity.
Qed.

End Fields.

(** Headers are written as they stand: without special characters they
    are what quoting would give. *)
Lemma headers_plain (headers : list string) :
  Forall (fun h => test h = false) headers ->
  formattedRow (fun h => h) headers = headers.
Proof.
  induction 1 as [|h headers Hh _ IH]; [reflexivity|].
  cbn [formattedRow map]. unfold formatField at 1. rewrite Hh.
  f_equal. exact IH.
Qed.

End CsvFacts.

(** The content written by [exportToCSV] reads back as the header row
    followed by the rows of the data, each field as its string, whatever
    commas, quotes and newlines the fields contain; headers are not
    quoted and must be free of these characters, and no row is empty. *)
Theorem csvContent_reads_back
    (any : Type) (toString : any -> string)
    (headers : list string) (data : list (list any)) :
  headers <> [] ->
  Forall (fun h => CsvExport.test h = false) headers ->
  Forall (fun row => row <> []) data ->
  CsvSpec.parse (CsvExport.csvContent toString headers data)
  = headers :: map (map toString) data.
Proof.
  intros Hne Hplain Hrows. unfold CsvSpec.parse, CsvExport.csvContent.
  rewrite (CsvFacts.records_rows any toString data Hrows). cbn [append].
  rewrite <- (CsvFacts.headers_plain headers Hplain) at 1.
  rewrite (CsvFacts.records_row string (fun h => h) headers Hne [] _).
  rewrite (CsvFacts.records_lines any toString data Hrows).
  rewrite map_id. reflexivity.
Qed.

Lemma csvContent_reads_back_witness :
  CsvSpec.parse
    (CsvExport.csvContent (fun field : string => field)
       ["Name"; "Note"]%string
       [["Lee, Ann"; "said " ++ String CsvExport.quote "hi" ++ String CsvExport.quote EmptyString];
        ["Bo"; "two" ++ String CsvExport.newline "lines"]]%string)
  = (["Name"; "Note"]%string)
    :: map (map (fun field : string => field))
         ([["Lee, Ann"; "said " ++ String CsvExport.quote "hi" ++ String CsvExport.quote EmptyString];
           ["Bo"; "two" ++ String CsvExport.newline "lines"]]%string).
Proof.
  apply (csvContent_reads_back string (fun field => field)).
  - discriminate.
  - repeat constructor.
  - repeat constructor; discriminate.
Defined.
